(** * Project discovery, registry, indexer and file watcher of language-mcp

    A shallow embedding of
      - src/project-discovery/scanner.ts       (module [Scanner]),
      - src/project-discovery/registry.ts      (modules [Metadata], [Registry]),
      - src/project-discovery/indexer.ts       (module [Indexer]),
      - src/project-discovery/file-watcher.ts  (module [FileWatcher]),
      - src/analyzers/projects.ts, listProjects (module [Projects]),
    over a few JavaScript primitives ([Js], [JsMap], [Json]), a model of
    [async] functions on the event loop ([Async]) and the state the classes
    share ([Host]); then the vocabulary of the properties, and the
    properties with their proofs. *)

From Stdlib Require Import String Ascii List ZArith Lia Bool Arith.
From stdpp Require Import base strings gmap list.
Import ListNotations.

Local Open Scope string_scope.
Local Open Scope list_scope.
Local Open Scope Z_scope.

(** ** JavaScript string primitives used by the sources *)

Module Js.

(** [s.endsWith(suffix)] *)
Definition endsWith (s suffix : string) : bool :=
  let n := String.length s in
  let m := String.length suffix in
  (m <=? n)%nat && String.eqb (substring (n - m) m s) suffix.

(** [s.startsWith(p)] *)
Definition startsWith (s p : string) : bool := String.prefix p s.

(** [haystack.includes(needle)] on strings: substring test. *)
Fixpoint str_includes (needle haystack : string) : bool :=
  String.prefix needle haystack ||
  match haystack with
  | EmptyString => false
  | String _ rest => str_includes needle rest
  end.

(** [arr.includes(x)] on arrays of strings. *)
Definition includes (arr : list string) (x : string) : bool :=
  existsb (String.eqb x) arr.

(** Position of the last occurrence of character [c] in [s]
    ([s.lastIndexOf(c)], [None] for -1). *)
Fixpoint lastIndexOf (c : ascii) (s : string) : option nat :=
  match s with
  | EmptyString => None
  | String a rest =>
      match lastIndexOf c rest with
      | Some i => Some (S i)
      | None => if Ascii.eqb a c then Some 0%nat else None
      end
  end.

(** Part of [s] from index [i] to the end ([s.slice(i)]). *)
Fixpoint drop_str (i : nat) (s : string) : string :=
  match i, s with
  | O, _ => s
  | S j, String _ rest => drop_str j rest
  | S _, EmptyString => EmptyString
  end.

Definition is_slash (c : ascii) : bool := Ascii.eqb c "/"%char.

Fixpoint dropWhile (f : ascii -> bool) (l : list ascii) : list ascii :=
  match l with
  | [] => []
  | c :: rest => if f c then dropWhile f rest else l
  end.

Fixpoint takeWhile (f : ascii -> bool) (l : list ascii) : list ascii :=
  match l with
  | [] => []
  | c :: rest => if f c then c :: takeWhile f rest else []
  end.

(** The part of a POSIX path that [path.extname] looks at: trailing
    separators are passed over, then everything back to the separator
    before. *)
Definition lastComponent (p : string) : string :=
  let backwards := rev (list_ascii_of_string p) in
  let trimmed := dropWhile is_slash backwards in
  string_of_list_ascii (rev (takeWhile (fun c => negb (is_slash c)) trimmed)).

(** Node's [path.extname] (POSIX): from the last "." of the last component
    to its end; empty when there is no ".", when the last "." is the first
    character of the component, and for the component "..". *)
Definition extname (p : string) : string :=
  let b := lastComponent p in
  match lastIndexOf "."%char b with
  | None => ""
  | Some O => ""
  | Some i => if String.eqb b ".." then "" else drop_str i b
  end.

End Js.

(** ** [Map<string, V>]: keys in insertion order *)

Module JsMap.
Section Map.
Context {V : Type}.

Definition t := list (string * V).

Fixpoint get (k : string) (m : t) : option V :=
  match m with
  | [] => None
  | (k', v) :: rest => if String.eqb k' k then Some v else get k rest
  end.

(** [m.set(k, v)]: an existing key keeps its place, a new one goes last. *)
Fixpoint set (k : string) (v : V) (m : t) : t :=
  match m with
  | [] => [(k, v)]
  | (k', v') :: rest =>
      if String.eqb k' k then (k, v) :: rest else (k', v') :: set k v rest
  end.

Fixpoint delete (k : string) (m : t) : t :=
  match m with
  | [] => []
  | (k', v') :: rest =>
      if String.eqb k' k then rest else (k', v') :: delete k rest
  end.

Definition keys (m : t) : list string := map fst m.
Definition values (m : t) : list V := map snd m.

End Map.
Arguments t V : clear implicits.
End JsMap.

(** ** Parsed JSON values *)

Module Json.

Local Unset Elimination Schemes.
Inductive json :=
| JNull
| JBool (b : bool)
| JNum (n : Z)
| JStr (s : string)
| JArr (items : list json)
| JObj (fields : list (string * json)).
Local Set Elimination Schemes.

(** Property access [o.k] on a parsed object ([None] for [undefined]). *)
Fixpoint field (k : string) (fields : list (string * json)) : option json :=
  match fields with
  | [] => None
  | (k', v) :: rest => if String.eqb k' k then Some v else field k rest
  end.

(** A property that [JSON.stringify] writes only when it is defined. *)
Definition optional {A} (k : string) (enc : A -> json) (v : option A)
  : list (string * json) :=
  match v with
  | Some a => [(k, enc a)]
  | None => []
  end.

Definition as_str (j : json) : option string :=
  match j with JStr s => Some s | _ => None end.
Definition as_num (j : json) : option Z :=
  match j with JNum n => Some n | _ => None end.
Definition as_bool (j : json) : option bool :=
  match j with JBool b => Some b | _ => None end.

(** Reads an optional property: [Some None] when absent, [None] when it is
    there with another type. *)
Definition read_optional {A} (k : string) (dec : json -> option A)
    (fields : list (string * json)) : option (option A) :=
  match field k fields with
  | None => Some None
  | Some j => match dec j with Some a => Some (Some a) | None => None end
  end.

Fixpoint all_some {A} (l : list (option A)) : option (list A) :=
  match l with
  | [] => Some []
  | Some a :: rest =>
      match all_some rest with Some r => Some (a :: r) | None => None end
  | None :: _ => None
  end.

End Json.

(** ** scanner.ts *)

Module Scanner.

Inductive Language := go | python | nodejs | mixed.
Inductive Ide := vscode | jetbrains | multiple | none.

Record DiscoveredProject := mkDiscovered {
  path : string;
  name : string;
  language : Language;
  ide : Ide;
  hasGit : bool;
  lastModified : Z;
  indicators : list string
}.

(** What the scanner reads from its environment: the file system
    ([readdir] with [withFileTypes], [stat(..).mtimeMs], the external
    [realpath] and [find] commands), Node's [path] helpers, the home
    directory based search roots and the clock.  [None] stands for a call
    that throws. *)
Record Dirent := mkDirent { d_name : string; d_isDirectory : bool }.

Record Env := mkEnv {
  readdir : string -> option (list Dirent);
  statMtime : string -> option Z;
  realpath : string -> option string;
  findMarkers : option (list string);
  join : string -> string -> string;
  basename : string -> string;
  dirname : string -> string;
  searchPaths : list string;
  now : Z
}.

Record LanguageScores := mkScores {
  s_go : nat; s_python : nat; s_nodejs : nat
}.

(** IDE markers, lines 131-144. *)
Definition detectIde (entries : list string) : Ide * list string :=
  let hasVSCode := Js.includes entries ".vscode" in
  let hasJetBrains := Js.includes entries ".idea" in
  if hasVSCode && hasJetBrains then (multiple, [".vscode"; ".idea"])
  else if hasVSCode then (vscode, [".vscode"])
  else if hasJetBrains then (jetbrains, [".idea"])
  else (none, []).

Definition when (b : bool) (s : string) : list string :=
  if b then [s] else [].

(** Indicators pushed for the manifest files, lines 169-186. *)
Definition manifestIndicators (entries : list string) : list string :=
  let hasGoMod := Js.includes entries "go.mod" in
  let hasGoSum := Js.includes entries "go.sum" in
  let hasRequirementsTxt := Js.includes entries "requirements.txt" in
  let hasSetupPy := Js.includes entries "setup.py" in
  let hasPipfile := Js.includes entries "Pipfile" in
  let hasPackageJson := Js.includes entries "package.json" in
  let hasTsConfig := Js.includes entries "tsconfig.json" in
  let hasPyprojectToml := Js.includes entries "pyproject.toml" in
  (if hasGoMod || hasGoSum
   then [if hasGoMod then "go.mod" else "go.sum"] else [])
  ++ (if hasRequirementsTxt || hasSetupPy || hasPipfile || hasPyprojectToml
      then when hasRequirementsTxt "requirements.txt"
           ++ when hasSetupPy "setup.py"
           ++ when hasPipfile "Pipfile"
           ++ when hasPyprojectToml "pyproject.toml"
      else [])
  ++ (if hasPackageJson || hasTsConfig
      then when hasPackageJson "package.json"
           ++ when hasTsConfig "tsconfig.json"
      else []).

(** All indicators in the order they are pushed, lines 126-186. *)
Definition collectIndicators (entries : list string) : list string :=
  snd (detectIde entries)
  ++ when (Js.includes entries ".git") ".git"
  ++ manifestIndicators entries.

(** The regular expression [/\.(js|ts|jsx|tsx)$/]. *)
Definition matchesJs (e : string) : bool :=
  Js.endsWith e ".js" || Js.endsWith e ".ts"
  || Js.endsWith e ".jsx" || Js.endsWith e ".tsx".

Definition count (f : string -> bool) (entries : list string) : nat :=
  List.length (List.filter f entries).

(** Manifest weight 10 plus the number of source files, lines 163-195. *)
Definition languageScores (entries : list string) : LanguageScores :=
  let hasGoMod := Js.includes entries "go.mod" in
  let hasGoSum := Js.includes entries "go.sum" in
  let hasRequirementsTxt := Js.includes entries "requirements.txt" in
  let hasSetupPy := Js.includes entries "setup.py" in
  let hasPipfile := Js.includes entries "Pipfile" in
  let hasPackageJson := Js.includes entries "package.json" in
  let hasTsConfig := Js.includes entries "tsconfig.json" in
  let hasPyprojectToml := Js.includes entries "pyproject.toml" in
  let goFiles := count (fun e => Js.endsWith e ".go") entries in
  let pyFiles := count (fun e => Js.endsWith e ".py") entries in
  let jsFiles := count matchesJs entries in
  {| s_go := ((if hasGoMod || hasGoSum then 10 else 0) + goFiles)%nat;
     s_python :=
       ((if hasRequirementsTxt || hasSetupPy || hasPipfile || hasPyprojectToml
         then 10 else 0) + pyFiles)%nat;
     s_nodejs :=
       ((if hasPackageJson || hasTsConfig then 10 else 0) + jsFiles)%nat |}.

Definition maxScore (s : LanguageScores) : nat :=
  Nat.max (s_go s) (Nat.max (s_python s) (s_nodejs s)).

(** [Object.entries(languageScores).filter(([, score]) => score > 0).length] *)
Definition activeLanguages (s : LanguageScores) : nat :=
  List.length
    (List.filter (fun score => (0 <? score)%nat)
       [s_go s; s_python s; s_nodejs s]).

(** Lines 197-218: [None] is the early [return null] on a zero maximum. *)
Definition determineLanguage (s : LanguageScores) : option Language :=
  if (maxScore s =? 0)%nat then None
  else if (1 <? activeLanguages s)%nat then Some mixed
  else if (s_go s =? maxScore s)%nat then Some go
  else if (s_python s =? maxScore s)%nat then Some python
  else Some nodejs.

Definition analyzeDirectory (env : Env) (dir : string) (entries : list string)
  : option DiscoveredProject :=
  let indicators := collectIndicators entries in
  let ide := fst (detectIde entries) in
  let hasGit := Js.includes entries ".git" in
  match determineLanguage (languageScores entries) with
  | None => None
  | Some language =>
      if (List.length indicators =? 0)%nat then None
      else
        let lastModified :=
          match statMtime env dir with
          | Some m => m
          | None => now env
          end in
        Some {| path := dir;
                name := basename env dir;
                language := language;
                ide := ide;
                hasGit := hasGit;
                lastModified := lastModified;
                indicators := indicators |}
  end.

Definition getRealPath (env : Env) (p : string) : string :=
  match realpath env p with
  | Some r => r
  | None => p
  end.

Definition skipDirs : list string :=
  [ "node_modules"; ".git"; "dist"; "build"; "target"; "__pycache__";
    ".venv"; "venv"; "env"; ".env"; "vendor"; ".next"; ".cache"; "tmp";
    "temp"; ".npm"; ".yarn"; "coverage"; ".pytest_cache"; ".mypy_cache";
    ".tox"; "eggs"; ".eggs"; "lib"; "lib64"; "parts"; "sdist"; "wheels";
    ".idea"; ".vscode" ].

Definition shouldSkipDirectory (name : string) : bool :=
  Js.includes skipDirs name || Js.startsWith name ".".

(** [scanDirectory(dir, maxDepth, currentDepth, seen)].  [levels] is
    [maxDepth + 1 - currentDepth]: it is [0] exactly when
    [currentDepth > maxDepth], and the recursive call at
    [currentDepth + 1] has one level less.  The visited set is threaded
    through and returned, as the source mutates one shared [Set]. *)
Fixpoint scanLevels (env : Env) (levels : nat) (dir : string)
    (seen : gset string) : list DiscoveredProject * gset string :=
  match levels with
  | O => ([], seen)
  | S levels' =>
      let realPath := getRealPath env dir in
      if bool_decide (realPath ∈ seen) then ([], seen)
      else
        let seen := {[ realPath ]} ∪ seen in
        match readdir env dir with
        | None => ([], seen)
        | Some entries =>
            match analyzeDirectory env dir (map d_name entries) with
            | Some project => ([project], seen)
            | None =>
                fold_left
                  (fun (acc : list DiscoveredProject * gset string) entry =>
                     if negb (d_isDirectory entry) then acc
                     else if shouldSkipDirectory (d_name entry) then acc
                     else
                       let subDir := join env dir (d_name entry) in
                       let '(subProjects, seen') :=
                         scanLevels env levels' subDir (snd acc) in
                       (fst acc ++ subProjects, seen'))
                  entries ([], seen)
            end
        end
  end.

Definition scanDirectory (env : Env) (dir : string)
    (maxDepth currentDepth : nat) (seen : gset string)
  : list DiscoveredProject * gset string :=
  scanLevels env (S maxDepth - currentDepth) dir seen.

Definition discoverProjects (env : Env) (maxDepth : nat)
  : list DiscoveredProject :=
  fst (fold_left
         (fun (acc : list DiscoveredProject * gset string) searchPath =>
            let '(foundProjects, seen') :=
              scanDirectory env searchPath maxDepth 0 (snd acc) in
            (fst acc ++ foundProjects, seen'))
         (searchPaths env) ([], ∅)).

(** The loop of [quickDiscoverProjects]: [None] when a [readdir] throws. *)
Fixpoint quickLoop (env : Env) (markers : list string)
    (projects : list DiscoveredProject) : option (list DiscoveredProject) :=
  match markers with
  | [] => Some projects
  | marker :: rest =>
      let projectPath := dirname env marker in
      match readdir env projectPath with
      | None => None
      | Some entries =>
          match analyzeDirectory env projectPath (map d_name entries) with
          | Some project => quickLoop env rest (projects ++ [project])
          | None => quickLoop env rest projects
          end
      end
  end.

Definition quickDiscoverProjects (env : Env) : list DiscoveredProject :=
  match findMarkers env with
  | None => discoverProjects env 2
  | Some ideMarkers =>
      match quickLoop env ideMarkers [] with
      | Some projects => projects
      | None => discoverProjects env 2
      end
  end.

End Scanner.

(** ** Asynchronous functions on the single-threaded event loop

    An [async] function runs synchronously, on the shared state, up to its
    first [await]; there it is suspended, and it is resumed later on the
    state as it is by then.  Between two suspension points nothing else runs. *)

Module Async.

(** A thrown value, as the message the sources read from it. *)
Definition exn := string.

Section Monad.
Context {W : Type}.

Local Unset Elimination Schemes.
Inductive Step (A : Type) : Type :=
| Done (r : exn + A)
| Susp (k : W -> W * Step A).
Local Set Elimination Schemes.
Arguments Done {A} r.
Arguments Susp {A} k.

(** Induction on a suspended computation: every resumption is smaller. *)
Fixpoint Step_ind {A} (P : Step A -> Prop)
    (HDone : forall r, P (Done r))
    (HSusp : forall k, (forall s, P (snd (k s))) -> P (Susp k))
    (st : Step A) : P st :=
  match st with
  | Done r => HDone r
  | Susp k => HSusp k (fun s => Step_ind P HDone HSusp (snd (k s)))
  end.

Definition Async (A : Type) : Type := W -> W * Step A.

Definition ret {A} (a : A) : Async A := fun s => (s, Done (inr a)).
Definition throw {A} (e : exn) : Async A := fun s => (s, Done (inl e)).

(** Synchronous access to the state. *)
Definition get : Async W := fun s => (s, Done (inr s)).
Definition modify (f : W -> W) : Async unit := fun s => (f s, Done (inr tt)).

(** [await] of an operation of the environment: the caller is suspended and
    the operation has taken place, on the state of that moment, when it is
    resumed. *)
Definition io {A} (op : W -> W * (exn + A)) : Async A :=
  fun s => (s, Susp (fun s' => let '(s'', r) := op s' in (s'', Done r))).

(** [await] of a value that is already there: one turn of the loop. *)
Definition tick : Async unit := io (fun s => (s, inr tt)).

Fixpoint bindStep {A B} (st : Step A) (f : A -> Async B) (s : W)
  : W * Step B :=
  match st with
  | Done (inr a) => f a s
  | Done (inl e) => (s, Done (inl e))
  | Susp k => (s, Susp (fun s' => let '(s'', st') := k s' in bindStep st' f s''))
  end.

Definition bind {A B} (m : Async A) (f : A -> Async B) : Async B :=
  fun s => let '(s', st) := m s in bindStep st f s'.

(** [try { m } catch (error) { h error }] *)
Fixpoint catchStep {A} (st : Step A) (h : exn -> Async A) (s : W)
  : W * Step A :=
  match st with
  | Done (inr a) => (s, Done (inr a))
  | Done (inl e) => h e s
  | Susp k => (s, Susp (fun s' => let '(s'', st') := k s' in catchStep st' h s''))
  end.

Definition try_catch {A} (m : Async A) (h : exn -> Async A) : Async A :=
  fun s => let '(s', st) := m s in catchStep st h s'.

(** [try { m } finally { fin }] with a synchronous [fin]. *)
Fixpoint finallyStep {A} (st : Step A) (fin : W -> W) (s : W) : W * Step A :=
  match st with
  | Done r => (fin s, Done r)
  | Susp k => (s, Susp (fun s' => let '(s'', st') := k s' in finallyStep st' fin s''))
  end.

Definition try_finally {A} (m : Async A) (fin : W -> W) : Async A :=
  fun s => let '(s', st) := m s in finallyStep st fin s'.

(** [for (const x of xs) { await body(x) }] *)
Fixpoint for_of {A} (xs : list A) (body : A -> Async unit) : Async unit :=
  match xs with
  | [] => ret tt
  | x :: rest => bind (body x) (fun _ => for_of rest body)
  end.

(** Running a computation alone: every suspension is resumed at once, on the
    state it left.  [Step] is well-founded, so this always returns. *)
Fixpoint runStep {A} (st : Step A) (s : W) : W * (exn + A) :=
  match st with
  | Done r => (s, r)
  | Susp k => let '(s', st') := k s in runStep st' s'
  end.

Definition run {A} (m : Async A) (s : W) : W * (exn + A) :=
  let '(s', st) := m s in runStep st s'.

(** The event loop: the shared state and the suspended calls, each with a
    tag saying what was called. *)
Record Task (K : Type) := mkTask { kind : K; cont : W -> W * Step unit }.
Arguments mkTask {K} kind cont.
Arguments kind {K} t.
Arguments cont {K} t.

Record Loop (K : Type) := mkLoop { world : W; tasks : list (Task K) }.
Arguments mkLoop {K} world tasks.
Arguments world {K} l.
Arguments tasks {K} l.

(** Calling an async function from the loop (a timer or a request): its
    synchronous prefix runs now; if it suspends, it joins the tasks. *)
Definition call {K} (k : K) (m : Async unit) (l : Loop K) : Loop K :=
  let '(s', st) := m (world l) in
  match st with
  | Done _ => mkLoop s' (tasks l)
  | Susp c => mkLoop s' (tasks l ++ [mkTask k c])
  end.

(** Resuming the [i]-th suspended call up to its next suspension point. *)
Definition resume {K} (i : nat) (l : Loop K) : Loop K :=
  match tasks l !! i with
  | None => l
  | Some t =>
      let '(s', st) := cont t (world l) in
      match st with
      | Done _ => mkLoop s' (take i (tasks l) ++ drop (S i) (tasks l))
      | Susp c => mkLoop s' (take i (tasks l) ++ mkTask (kind t) c :: drop (S i) (tasks l))
      end
  end.

End Monad.

Arguments Step W A : clear implicits.
Arguments Async W A : clear implicits.
Arguments Task W K : clear implicits.
Arguments Loop W K : clear implicits.
Arguments Done {W A} r.
Arguments Susp {W A} k.
Arguments mkTask {W K} kind cont.
Arguments kind {W K} t.
Arguments cont {W K} t.
Arguments mkLoop {W K} world tasks.
Arguments world {W K} l.
Arguments tasks {W K} l.

(** The monad operations under stdpp's notations [x ← m; k] and [m ;; k]. *)
#[export] Instance async_ret {W} : MRet (Async W) := @ret W.
#[export] Instance async_bind {W} : MBind (Async W) :=
  fun A B f m => @bind W A B m f.

End Async.

(** ** registry.ts: the metadata record and its JSON shape *)

Module Metadata.
Import Scanner Json.

Inductive IndexStatus := pending | indexing | completed | failed.

(** [interface ProjectMetadata extends DiscoveredProject]: the fields of the
    discovered project ([...project]) and the lifecycle fields; an optional
    property is [None] when it is [undefined]. *)
Record ProjectMetadata := mkMetadata {
  discovered : DiscoveredProject;
  lastIndexed : option Z;
  indexStatus : IndexStatus;
  symbolCount : option Z;
  testCount : option Z;
  docCount : option Z;
  error : option string
}.

(** The optional argument [metadata] of [updateIndexStatus]: the properties
    the caller's object literal has. *)
Record StatusPatch := mkPatch {
  p_symbolCount : option Z;
  p_testCount : option Z;
  p_docCount : option Z;
  p_error : option string
}.

Definition language_str (l : Language) : string :=
  match l with
  | go => "go" | python => "python" | nodejs => "nodejs" | mixed => "mixed"
  end.

Definition ide_str (i : Ide) : string :=
  match i with
  | vscode => "vscode" | jetbrains => "jetbrains"
  | multiple => "multiple" | none => "none"
  end.

Definition status_str (s : IndexStatus) : string :=
  match s with
  | pending => "pending" | indexing => "indexing"
  | completed => "completed" | failed => "failed"
  end.

Definition parse_language (s : string) : option Language :=
  if String.eqb s "go" then Some go
  else if String.eqb s "python" then Some python
  else if String.eqb s "nodejs" then Some nodejs
  else if String.eqb s "mixed" then Some mixed
  else None.

Definition parse_ide (s : string) : option Ide :=
  if String.eqb s "vscode" then Some vscode
  else if String.eqb s "jetbrains" then Some jetbrains
  else if String.eqb s "multiple" then Some multiple
  else if String.eqb s "none" then Some none
  else None.

Definition parse_status (s : string) : option IndexStatus :=
  if String.eqb s "pending" then Some pending
  else if String.eqb s "indexing" then Some indexing
  else if String.eqb s "completed" then Some completed
  else if String.eqb s "failed" then Some failed
  else None.

(** The object [JSON.stringify] writes for one project: every defined
    property, none of the undefined ones. *)
Definition toJSON (m : ProjectMetadata) : json :=
  let d := discovered m in
  JObj ([ ("path", JStr (path d));
          ("name", JStr (name d));
          ("language", JStr (language_str (language d)));
          ("ide", JStr (ide_str (ide d)));
          ("hasGit", JBool (hasGit d));
          ("lastModified", JNum (lastModified d));
          ("indicators", JArr (map JStr (indicators d)));
          ("indexStatus", JStr (status_str (indexStatus m))) ]
        ++ optional "lastIndexed" JNum (lastIndexed m)
        ++ optional "symbolCount" JNum (symbolCount m)
        ++ optional "testCount" JNum (testCount m)
        ++ optional "docCount" JNum (docCount m)
        ++ optional "error" JStr (error m)).

(** A parsed object read as a [ProjectMetadata], property by property;
    [None] when it does not have that type. *)
Definition fromJSON (j : json) : option ProjectMetadata :=
  match j with
  | JObj f =>
      p ← field "path" f ≫= as_str;
      n ← field "name" f ≫= as_str;
      l ← (field "language" f ≫= as_str) ≫= parse_language;
      i ← (field "ide" f ≫= as_str) ≫= parse_ide;
      g ← field "hasGit" f ≫= as_bool;
      lm ← field "lastModified" f ≫= as_num;
      ind ← field "indicators" f ≫=
             (fun a => match a with
                       | JArr items => all_some (map as_str items)
                       | _ => None
                       end);
      st ← (field "indexStatus" f ≫= as_str) ≫= parse_status;
      li ← read_optional "lastIndexed" as_num f;
      sc ← read_optional "symbolCount" as_num f;
      tc ← read_optional "testCount" as_num f;
      dc ← read_optional "docCount" as_num f;
      er ← read_optional "error" as_str f;
      Some {| discovered :=
                {| path := p; name := n; language := l; ide := i;
                   hasGit := g; lastModified := lm; indicators := ind |};
              lastIndexed := li; indexStatus := st; symbolCount := sc;
              testCount := tc; docCount := dc; error := er |}
  | _ => None
  end.

End Metadata.

(** ** The process: shared state and environment *)

Module Host.
Import Scanner Json Metadata.

(** A symbol or test record returned by an analyzer. *)
Record Item := mkItem {
  i_name : string;
  i_type : string;
  i_file : string;
  i_signature : option string;
  i_line : Z
}.

(** A document handed to [vectorDB.addDocuments]. *)
Record Doc := mkDoc {
  id : string;
  text : string;
  metadata : list (string * json)
}.

(** What [analyzer.handleTool(tool, {path})] followed by
    [JSON.parse(result.content[0].text)] comes to. *)
Inductive Analysis :=
| AThrows (e : Async.exn)   (* the call, or JSON.parse, throws *)
| ANoText                   (* no [content[0].text] *)
| AItems (items : list Item)
| AOther (len : Z).         (* parses to a value without [map]:
                               [length || 0] is [len], then [map] throws *)

Inductive StatKind := IsFile | IsDirectory | IsOther.

Record Env := mkEnv {
  now : Z;                                   (* Date.now() *)
  toISOString : Z -> string;
  mkdirError : option Async.exn;             (* mkdir throws *)
  writeError : option Async.exn;             (* writeFile throws *)
  handleTool : string -> string -> Analysis;
  addDocuments : list Doc -> option Async.exn;
  stat : string -> option StatKind;
  readFile : string -> option string;
  readdir : string -> option (list string);
  join : string -> string -> string
}.

(** Calls made to the collaborators, in order. *)
Inductive Call :=
| CallTool (tool path : string)
| CallAddDocuments (docs : list Doc).

Record World := mkWorld {
  projects : JsMap.t ProjectMetadata;   (* ProjectRegistry.projects *)
  file : option json;                   (* registry.json, parsed; [None] when
                                           missing or not JSON *)
  isIndexing : bool;                    (* ProjectIndexer.isIndexing *)
  env : Env;
  calls : list Call
}.

Definition set_projects (f : JsMap.t ProjectMetadata -> JsMap.t ProjectMetadata)
    (w : World) : World :=
  mkWorld (f (projects w)) (file w) (isIndexing w) (env w) (calls w).

Definition set_file (j : option json) (w : World) : World :=
  mkWorld (projects w) j (isIndexing w) (env w) (calls w).

Definition set_isIndexing (b : bool) (w : World) : World :=
  mkWorld (projects w) (file w) b (env w) (calls w).

Definition set_env (e : Env) (w : World) : World :=
  mkWorld (projects w) (file w) (isIndexing w) e (calls w).

Definition log_call (c : Call) (w : World) : World :=
  mkWorld (projects w) (file w) (isIndexing w) (env w) (calls w ++ [c]).

End Host.

(** ** registry.ts: [class ProjectRegistry] *)

Module Registry.
Import Scanner Json Metadata Host Async.

(** The object written by [save], lines 51-55. *)
Definition snapshot (e : Env) (projects : JsMap.t ProjectMetadata) : json :=
  JObj [ ("version", JStr "1.0");
         ("lastUpdated", JStr (toISOString e (now e)));
         ("projects", JArr (map toJSON (JsMap.values projects))) ].

(** [parsed.projects || []] read as project objects, lines 28-31.  [None]
    when the access or the iteration throws, and for contents that are not
    [ProjectMetadata] objects, which the declared type leaves out. *)
Definition stored_projects (parsed : json) : option (list ProjectMetadata) :=
  match parsed with
  | JNull => None
  | JObj f =>
      match field "projects" f with
      | None | Some JNull | Some (JBool false)
      | Some (JNum Z0) | Some (JStr EmptyString) => Some []
      | Some (JArr items) => all_some (map fromJSON items)
      | Some _ => None
      end
  | _ => Some []
  end.

(** The loop of [load], lines 30-33. *)
Definition rebuild (ps : list ProjectMetadata) : JsMap.t ProjectMetadata :=
  fold_left (fun m project => JsMap.set (path (discovered project)) project m)
            ps [].

Definition load : Async World unit :=
  try_catch
    (parsed ← io (fun w => (w, match file w with
                               | Some j => inr j
                               | None => inl "ENOENT"
                               end));
     match stored_projects parsed with
     | Some ps => modify (set_projects (fun _ => rebuild ps))
     | None => throw "TypeError"
     end)
    (fun _ => modify (set_projects (fun _ => []))).

Definition save : Async World unit :=
  try_catch
    (io (fun w => (w, match mkdirError (env w) with
                      | Some e => inl e
                      | None => inr tt
                      end));;
     w ← get;
     let data := snapshot (env w) (projects w) in
     io (fun w' => match writeError (env w') with
                   | Some e => (w', inl e)
                   | None => (set_file (Some data) w', inr tt)
                   end))
    (fun _ => mret tt).

(** Lines 68-79: the entry [addProject] stores. *)
Definition addProject_entry (project : DiscoveredProject)
    (existing : option ProjectMetadata) : ProjectMetadata :=
  {| discovered := project;
     indexStatus := match existing with
                    | Some e => indexStatus e
                    | None => pending
                    end;
     lastIndexed := existing ≫= lastIndexed;
     symbolCount := existing ≫= symbolCount;
     testCount := existing ≫= testCount;
     docCount := existing ≫= docCount;
     error := None |}.

Definition addProject_map (project : DiscoveredProject)
    (projects : JsMap.t ProjectMetadata) : JsMap.t ProjectMetadata :=
  let existing := JsMap.get (path project) projects in
  JsMap.set (path project) (addProject_entry project existing) projects.

Definition addProject (project : DiscoveredProject) : Async World unit :=
  modify (set_projects (addProject_map project));;
  save.

(** [Object.assign(project, metadata)] *)
Definition assign (project : ProjectMetadata) (m : StatusPatch)
  : ProjectMetadata :=
  let over {A} (new old : option A) :=
    match new with Some _ => new | None => old end in
  {| discovered := discovered project;
     lastIndexed := lastIndexed project;
     indexStatus := indexStatus project;
     symbolCount := over (p_symbolCount m) (symbolCount project);
     testCount := over (p_testCount m) (testCount project);
     docCount := over (p_docCount m) (docCount project);
     error := over (p_error m) (error project) |}.

Definition status_eqb (a b : IndexStatus) : bool :=
  match a, b with
  | pending, pending | indexing, indexing
  | completed, completed | failed, failed => true
  | _, _ => false
  end.

(** Lines 99-106 on the entry found. *)
Definition updateIndexStatus_entry (status : IndexStatus)
    (metadata : option StatusPatch) (now : Z) (project : ProjectMetadata)
  : ProjectMetadata :=
  let project :=
    {| discovered := discovered project;
       lastIndexed := if status_eqb status completed then Some now
                      else lastIndexed project;
       indexStatus := status;
       symbolCount := symbolCount project;
       testCount := testCount project;
       docCount := docCount project;
       error := error project |} in
  match metadata with
  | Some m => assign project m
  | None => project
  end.

Definition updateIndexStatus_map (projectPath : string) (status : IndexStatus)
    (metadata : option StatusPatch) (now : Z)
    (projects : JsMap.t ProjectMetadata) : JsMap.t ProjectMetadata :=
  match JsMap.get projectPath projects with
  | None => projects
  | Some project =>
      JsMap.set projectPath
        (updateIndexStatus_entry status metadata now project) projects
  end.

Definition updateIndexStatus (projectPath : string) (status : IndexStatus)
    (metadata : option StatusPatch) : Async World unit :=
  w ← get;
  match JsMap.get projectPath (projects w) with
  | None => mret tt
  | Some _ =>
      modify (fun w => set_projects
                (updateIndexStatus_map projectPath status metadata
                   (now (env w))) w);;
      save
  end.

Definition getAllProjects (projects : JsMap.t ProjectMetadata)
  : list ProjectMetadata := JsMap.values projects.

Definition getProjectsByStatus (status : IndexStatus)
    (projects : JsMap.t ProjectMetadata) : list ProjectMetadata :=
  List.filter (fun p => status_eqb (indexStatus p) status)
              (getAllProjects projects).

Definition getProject (projectPath : string)
    (projects : JsMap.t ProjectMetadata) : option ProjectMetadata :=
  JsMap.get projectPath projects.

Definition removeProject (projectPath : string) : Async World unit :=
  modify (set_projects (JsMap.delete projectPath));;
  save.

Definition ONE_DAY : Z := 24 * 60 * 60 * 1000.

(** The filter of [getProjectsNeedingIndex], lines 195-206.  [!p.lastIndexed]
    holds for [undefined] and for [0]. *)
Definition needsIndex (now : Z) (p : ProjectMetadata) : bool :=
  match lastIndexed p with
  | None => true
  | Some t =>
      if t =? 0 then true
      else if status_eqb (indexStatus p) failed then true
      else if now - t >? ONE_DAY then true
      else false
  end.

Definition getProjectsNeedingIndex (now : Z)
    (projects : JsMap.t ProjectMetadata) : list ProjectMetadata :=
  List.filter (needsIndex now) (getAllProjects projects).

End Registry.

(** ** indexer.ts: [class ProjectIndexer] *)

Module Indexer.
Import Scanner Json Metadata Host Async.

Record Counts := mkCounts { c_symbolCount : Z; c_testCount : Z; c_docCount : Z }.

(** [await m] for a call [m] of an async function: the caller goes on one
    turn after the callee has settled. *)
Definition await {A} (m : Async World A) : Async World A :=
  x ← m; tick;; mret x.

(** [Promise.allSettled([a, b, c])]: the three calls are started in order,
    each up to its first suspension point, and then awaited.  The calls
    share nothing but the log of collaborator calls; of the orders in which
    their suspended parts may run, the model takes the one where they
    finish in order. *)
Fixpoint settleStep {A} (st : Step World A) (w : World)
  : World * Step World (exn + A) :=
  match st with
  | Done r => (w, Done (inr r))
  | Susp k =>
      (w, Susp (fun w' => let '(w'', st') := k w' in settleStep st' w''))
  end.

Definition settle {A} (st : Step World A) : Async World (exn + A) :=
  settleStep st.

Definition allSettled3 {A} (a b c : Async World A)
  : Async World (list (exn + A)) :=
  fun w =>
    let '(w1, sa) := a w in
    let '(w2, sb) := b w1 in
    let '(w3, sc) := c w2 in
    let awaited : Async World (list (exn + A)) :=
      ra ← settle sa; rb ← settle sb; rc ← settle sc; mret [ra; rb; rc] in
    awaited w3.

Definition callTool (tool projectPath : string) : Async World Analysis :=
  modify (log_call (CallTool tool projectPath));;
  io (fun w => (w, inr (handleTool (env w) tool projectPath))).

(** [await this.vectorDB.addDocuments(docs)]: [Some e] when it throws. *)
Definition addDocs (docs : list Doc) : Async World (option exn) :=
  modify (log_call (CallAddDocuments docs));;
  io (fun w => (w, inr (addDocuments (env w) docs))).

Definition newline : string := String (ascii_of_nat 10) "".

Definition symbolDoc (idTag lang : string) (project : ProjectMetadata)
    (symbol : Item) : Doc :=
  let d := discovered project in
  {| id := path d +:+ ":" +:+ idTag +:+ ":symbol:" +:+ i_name symbol;
     text := i_name symbol +:+ " " +:+ i_type symbol +:+ " in "
             +:+ i_file symbol +:+ newline
             +:+ match i_signature symbol with Some s => s | None => "" end;
     metadata := [ ("type", JStr "local_symbol");
                   ("language", JStr lang);
                   ("project_path", JStr (path d));
                   ("project_name", JStr (name d));
                   ("symbol_name", JStr (i_name symbol));
                   ("symbol_type", JStr (i_type symbol));
                   ("file", JStr (i_file symbol));
                   ("line", JNum (i_line symbol)) ] |}.

Definition testDoc (idTag lang : string) (project : ProjectMetadata)
    (test : Item) : Doc :=
  let d := discovered project in
  {| id := path d +:+ ":" +:+ idTag +:+ ":test:" +:+ i_name test;
     text := "Test: " +:+ i_name test +:+ " in " +:+ i_file test;
     metadata := [ ("type", JStr "local_test");
                   ("language", JStr lang);
                   ("project_path", JStr (path d));
                   ("project_name", JStr (name d));
                   ("test_name", JStr (i_name test));
                   ("file", JStr (i_file test));
                   ("line", JNum (i_line test)) ] |}.

Definition fileDoc (lang : string) (project : ProjectMetadata)
    (file content : string) : Doc :=
  let d := discovered project in
  {| id := path d +:+ ":doc:" +:+ file;
     text := content;
     metadata := [ ("type", JStr "local_doc");
                   ("language", JStr lang);
                   ("project_path", JStr (path d));
                   ("project_name", JStr (name d));
                   ("file", JStr file) ] |}.

Definition docPatterns : list string :=
  [ "README.md"; "README.txt"; "README"; "CHANGELOG.md"; "CONTRIBUTING.md";
    "docs"; "documentation" ].

(** The loop over the files of a documentation directory, lines 759-780 of
    the concatenated source; it stops at the first [readFile] that throws,
    keeping what was pushed before. *)
Fixpoint indexDocFiles (lang : string) (project : ProjectMetadata)
    (pattern docPath : string) (files : list string)
    (acc : list Doc * Z) : Async World (list Doc * Z) :=
  match files with
  | [] => mret acc
  | file :: rest =>
      if Js.endsWith file ".md" || Js.endsWith file ".txt" then
        content ← io (fun w =>
                        (w, inr (readFile (env w) (join (env w) docPath file))));
        match content with
        | None => mret acc
        | Some content =>
            indexDocFiles lang project pattern docPath rest
              (fst acc ++ [fileDoc lang project (pattern +:+ "/" +:+ file) content],
               snd acc + 1)
        end
      else indexDocFiles lang project pattern docPath rest acc
  end.

(** One turn of the loop over [docPatterns]; its [try ... catch] swallows
    whatever [stat], [readFile] or [readdir] throws. *)
Definition indexDocPattern (lang : string) (project : ProjectMetadata)
    (pattern : string) (acc : list Doc * Z) : Async World (list Doc * Z) :=
  docPath ← (w ← get; mret (join (env w) (path (discovered project)) pattern));
  st ← io (fun w => (w, inr (stat (env w) docPath)));
  match st with
  | None => mret acc
  | Some IsFile =>
      content ← io (fun w => (w, inr (readFile (env w) docPath)));
      match content with
      | None => mret acc
      | Some content =>
          mret (fst acc ++ [fileDoc lang project pattern content], snd acc + 1)
      end
  | Some IsDirectory =>
      files ← io (fun w => (w, inr (readdir (env w) docPath)));
      match files with
      | None => mret acc
      | Some files => indexDocFiles lang project pattern docPath files acc
      end
  | Some IsOther => mret acc
  end.

Fixpoint indexDocPatterns (lang : string) (project : ProjectMetadata)
    (patterns : list string) (acc : list Doc * Z)
  : Async World (list Doc * Z) :=
  match patterns with
  | [] => mret acc
  | pattern :: rest =>
      acc' ← indexDocPattern lang project pattern acc;
      indexDocPatterns lang project rest acc'
  end.

Definition indexProjectDocs (project : ProjectMetadata) (lang : string)
  : Async World Z :=
  '(docDocs, docCount) ← indexDocPatterns lang project docPatterns ([], 0);
  if (0 <? List.length docDocs)%nat
  then addDocs docDocs;; mret docCount   (* a throw is caught and logged *)
  else mret docCount.

(** The body shared by [indexGoProject], [indexPythonProject] and
    [indexNodeProject], which differ in the analyzer, the tool names and two
    strings.  The three counters are local variables assigned inside one
    [try]; its [catch] logs and falls through to the [return], so a throw
    leaves the counters as they are at that point. *)
Definition indexTests (testTool idTag lang : string)
    (project : ProjectMetadata) (symbolCount : Z) : Async World Counts :=
  testsResult ← callTool testTool (path (discovered project));
  let docs testCount :=
    docCount ← indexProjectDocs project lang;
    mret (mkCounts symbolCount testCount docCount) in
  match testsResult with
  | AThrows _ => mret (mkCounts symbolCount 0 0)
  | AOther len => mret (mkCounts symbolCount len 0)
  | ANoText => docs 0
  | AItems tests =>
      let testCount := Z.of_nat (List.length tests) in
      let testDocs := map (testDoc idTag lang project) tests in
      if (0 <? List.length testDocs)%nat then
        r ← addDocs testDocs;
        match r with
        | Some _ => mret (mkCounts symbolCount testCount 0)
        | None => docs testCount
        end
      else docs testCount
  end.

Definition indexWith (symbolTool testTool idTag lang : string)
    (project : ProjectMetadata) : Async World Counts :=
  symbolsResult ← callTool symbolTool (path (discovered project));
  match symbolsResult with
  | AThrows _ => mret (mkCounts 0 0 0)
  | AOther len => mret (mkCounts len 0 0)
  | ANoText => indexTests testTool idTag lang project 0
  | AItems symbols =>
      let symbolCount := Z.of_nat (List.length symbols) in
      let symbolDocs := map (symbolDoc idTag lang project) symbols in
      if (0 <? List.length symbolDocs)%nat then
        r ← addDocs symbolDocs;
        match r with
        | Some _ => mret (mkCounts symbolCount 0 0)
        | None => indexTests testTool idTag lang project symbolCount
        end
      else indexTests testTool idTag lang project symbolCount
  end.

Definition indexGoProject : ProjectMetadata -> Async World Counts :=
  indexWith "go_find_symbols" "go_find_tests" "go" "go".

Definition indexPythonProject : ProjectMetadata -> Async World Counts :=
  indexWith "python_find_symbols" "python_find_tests" "python" "python".

Definition indexNodeProject : ProjectMetadata -> Async World Counts :=
  indexWith "node_find_symbols" "node_find_tests" "node" "nodejs".

Definition addCounts (acc : Counts) (r : exn + Counts) : Counts :=
  match r with
  | inr v => mkCounts (c_symbolCount acc + c_symbolCount v)
                      (c_testCount acc + c_testCount v)
                      (c_docCount acc + c_docCount v)
  | inl _ => acc
  end.

Definition indexProject (project : ProjectMetadata) : Async World unit :=
  let projectPath := path (discovered project) in
  try_catch
    (await (Registry.updateIndexStatus projectPath indexing None);;
     counts ← match language (discovered project) with
              | go => await (indexGoProject project)
              | python => await (indexPythonProject project)
              | nodejs => await (indexNodeProject project)
              | mixed =>
                  results ← await (allSettled3 (indexGoProject project)
                                               (indexPythonProject project)
                                               (indexNodeProject project));
                  mret (fold_left addCounts results (mkCounts 0 0 0))
              end;
     await (Registry.updateIndexStatus projectPath completed
              (Some {| p_symbolCount := Some (c_symbolCount counts);
                       p_testCount := Some (c_testCount counts);
                       p_docCount := Some (c_docCount counts);
                       p_error := None |})))
    (fun error =>
       await (Registry.updateIndexStatus projectPath failed
                (Some {| p_symbolCount := None; p_testCount := None;
                         p_docCount := None; p_error := Some error |}))).

Definition indexPendingProjects : Async World unit :=
  w ← get;
  if isIndexing w then mret tt
  else
    modify (set_isIndexing true);;
    try_finally
      (try_catch
         (w ← get;
          let projectsToIndex :=
            Registry.getProjectsNeedingIndex (now (env w)) (projects w) in
          for_of projectsToIndex (fun project => await (indexProject project)))
         (fun _ => mret tt))
      (set_isIndexing false).

Definition reindexProject (projectPath : string) : Async World unit :=
  w ← get;
  match Registry.getProject projectPath (projects w) with
  | None => throw ("Project not found: " +:+ projectPath)
  | Some project => await (indexProject project)
  end.

(** What may happen on the loop, one event at a time. *)
Inductive Kind := Batch | Single | RegistryCall.

Inductive Event :=
| EvBatch                                   (* cron or a caller: indexPendingProjects() *)
| EvReindex (projectPath : string)          (* reindexProject(path) *)
| EvAddProject (project : DiscoveredProject)
| EvRemoveProject (projectPath : string)
| EvLoad
| EvEnv (e : Env)                           (* time passes, the outside changes *)
| EvResume (i : nat).                       (* the i-th suspended call goes on *)

Definition step (l : Loop World Kind) (ev : Event) : Loop World Kind :=
  match ev with
  | EvBatch => call Batch indexPendingProjects l
  | EvReindex p => call Single (reindexProject p) l
  | EvAddProject p => call RegistryCall (Registry.addProject p) l
  | EvRemoveProject p => call RegistryCall (Registry.removeProject p) l
  | EvLoad => call RegistryCall Registry.load l
  | EvEnv e => mkLoop (set_env e (world l)) (tasks l)
  | EvResume i => resume i l
  end.

Definition steps (l : Loop World Kind) (evs : list Event) : Loop World Kind :=
  fold_left step evs l.

(** Number of batches in flight. *)
Definition activeBatches (l : Loop World Kind) : nat :=
  List.length (List.filter (fun t => match kind t with Batch => true | _ => false end)
                           (tasks l)).

End Indexer.

(** ** file-watcher.ts: [class ProjectFileWatcher] *)

Module FileWatcher.
Import Scanner Metadata.

Definition debounceDelay : Z := 5000.

Definition ignorePaths : list string :=
  [ "node_modules"; ".git"; "dist"; "build"; "target"; "__pycache__";
    ".venv"; "venv"; "env"; "vendor"; ".next"; ".cache"; "tmp"; "temp";
    "coverage"; ".pytest_cache"; ".mypy_cache"; ".idea"; ".vscode" ].

(** [ignorePaths.some((ignorePath) => filename.includes(ignorePath))] *)
Definition shouldIgnoreFile (filename : string) : bool :=
  existsb (fun ignorePath => Js.str_includes ignorePath filename) ignorePaths.

Definition sourceExtensions (l : Language) : list string :=
  match l with
  | go => [".go"]
  | python => [".py"]
  | nodejs => [".js"; ".ts"; ".jsx"; ".tsx"; ".mjs"; ".cjs"]
  | mixed => [".go"; ".py"; ".js"; ".ts"; ".jsx"; ".tsx"; ".mjs"; ".cjs"]
  end.

Definition isSourceFile (filename : string) (l : Language) : bool :=
  let ext := Js.extname filename in
  Js.includes (sourceExtensions l) ext.

(** A timer armed with [setTimeout]: its handle, when it is due and the
    project its callback has captured. *)
Record Timer := mkTimer {
  handle : nat;
  due : Z;
  target : ProjectMetadata
}.

(** The watcher and the part of the runtime it uses.  Of the indexer it
    sees one thing, the promise of [reindexProject]: the call is recorded
    when the timer fires, and the promise settles at some later event. *)
Record State := mkState {
  watchers : gmap string ProjectMetadata;  (* an FSWatcher per path, with the
                                              project its callback captured *)
  debounceTimers : gmap string nat;        (* path -> timer handle *)
  armed : list Timer;                      (* timers of the runtime not yet
                                              fired or cleared *)
  nextHandle : nat;
  clock : Z;
  inflight : list string;                  (* timer callbacks waiting at
                                              [await reindexProject(path)] *)
  reindexCalls : list (string * Z)         (* calls of indexer.reindexProject,
                                              with the time of the call *)
}.

Definition init : State := mkState ∅ ∅ [] 0 0 [] [].

Definition clearTimeout (h : nat) (timers : list Timer) : list Timer :=
  List.filter (fun t => negb (handle t =? h)%nat) timers.

Definition watchProject (project : ProjectMetadata) (s : State) : State :=
  let p := path (discovered project) in
  match watchers s !! p with
  | Some _ => s
  | None =>
      mkState (<[p := project]> (watchers s)) (debounceTimers s) (armed s)
              (nextHandle s) (clock s) (inflight s) (reindexCalls s)
  end.

Definition debounceReindex (project : ProjectMetadata) (s : State) : State :=
  let p := path (discovered project) in
  let armed' :=
    match debounceTimers s !! p with
    | Some existingTimer => clearTimeout existingTimer (armed s)
    | None => armed s
    end in
  let timer := nextHandle s in
  mkState (watchers s)
          (<[p := timer]> (debounceTimers s))
          (armed' ++ [mkTimer timer (clock s + debounceDelay) project])
          (S (nextHandle s)) (clock s) (inflight s) (reindexCalls s).

Definition handleFileChange (project : ProjectMetadata) (filename : string)
    (s : State) : State :=
  if shouldIgnoreFile filename then s
  else if negb (isSourceFile filename (language (discovered project))) then s
  else debounceReindex project s.

(** A raw notification of the watcher installed on [projectPath];
    [filename] may be missing. *)
Definition notify (projectPath : string) (filename : option string)
    (s : State) : State :=
  match watchers s !! projectPath with
  | None => s
  | Some project =>
      match filename with
      | None | Some EmptyString => s
      | Some f => handleFileChange project f s
      end
  end.

(** The timer callback up to its [await]: [reindexProject] is called. *)
Definition fire (t : Timer) (s : State) : State :=
  let p := path (discovered (target t)) in
  mkState (watchers s) (debounceTimers s) (armed s) (nextHandle s) (clock s)
          (inflight s ++ [p]) (reindexCalls s ++ [(p, clock s)]).

(** Time moves to [t]; the timers due by then fire, in the order they were
    armed. *)
Definition advance (t : Z) (s : State) : State :=
  let t := Z.max t (clock s) in
  let dueNow := List.filter (fun x => due x <=? t) (armed s) in
  let later := List.filter (fun x => negb (due x <=? t)) (armed s) in
  fold_left (fun s x => fire x s) dueNow
    (mkState (watchers s) (debounceTimers s) later (nextHandle s) t
             (inflight s) (reindexCalls s)).

(** The [i]-th awaited [reindexProject] settles; the callback's [finally]
    runs [this.debounceTimers.delete(project.path)]. *)
Definition settle (i : nat) (s : State) : State :=
  match inflight s !! i with
  | None => s
  | Some p =>
      mkState (watchers s) (delete p (debounceTimers s)) (armed s)
              (nextHandle s) (clock s)
              (take i (inflight s) ++ drop (S i) (inflight s))
              (reindexCalls s)
  end.

Definition stopWatchingProject (projectPath : string) (s : State) : State :=
  let watchers' := delete projectPath (watchers s) in
  match debounceTimers s !! projectPath with
  | Some timer =>
      mkState watchers' (delete projectPath (debounceTimers s))
              (clearTimeout timer (armed s)) (nextHandle s) (clock s)
              (inflight s) (reindexCalls s)
  | None =>
      mkState watchers' (debounceTimers s) (armed s) (nextHandle s) (clock s)
              (inflight s) (reindexCalls s)
  end.

Inductive Event :=
| Watch (project : ProjectMetadata)
| Unwatch (projectPath : string)
| Notify (projectPath : string) (filename : option string)
| Advance (t : Z)
| Settle (i : nat).

Definition step (s : State) (ev : Event) : State :=
  match ev with
  | Watch project => watchProject project s
  | Unwatch p => stopWatchingProject p s
  | Notify p f => notify p f s
  | Advance t => advance t s
  | Settle i => settle i s
  end.

Definition steps (s : State) (evs : list Event) : State := fold_left step evs s.

(** Calls of [reindexProject] for one project. *)
Definition callsFor (projectPath : string) (s : State) : list (string * Z) :=
  List.filter (fun c => String.eqb (fst c) projectPath) (reindexCalls s).

End FileWatcher.

(** ** analyzers/projects.ts: [listProjects] *)

Module Projects.
Import Scanner Metadata.

Record Listed := mkListed {
  l_name : string;
  l_path : string;
  l_language : Language;
  l_ide : Ide;
  l_hasGit : bool;
  l_indexStatus : IndexStatus;
  l_lastIndexed : string;
  l_symbolCount : Z;
  l_testCount : Z;
  l_docCount : Z;
  l_error : option string
}.

(** [args.language], [args.status], [args.ide]: absent or a string. *)
Record Args := mkArgs {
  a_language : option string;
  a_status : option string;
  a_ide : option string
}.

(** [if (f) projects = projects.filter((p) => key(p) === f)] *)
Definition applyFilter (f : option string) (key : ProjectMetadata -> string)
    (projects : list ProjectMetadata) : list ProjectMetadata :=
  match f with
  | None | Some EmptyString => projects
  | Some v => List.filter (fun p => String.eqb (key p) v) projects
  end.

Definition orZero (c : option Z) : Z :=
  match c with Some n => n | None => 0 end.

Definition view (toISOString : Z -> string) (p : ProjectMetadata) : Listed :=
  let d := discovered p in
  {| l_name := name d;
     l_path := path d;
     l_language := language d;
     l_ide := ide d;
     l_hasGit := hasGit d;
     l_indexStatus := indexStatus p;
     l_lastIndexed := match lastIndexed p with
                      | None | Some Z0 => "never"
                      | Some t => toISOString t
                      end;
     l_symbolCount := orZero (symbolCount p);
     l_testCount := orZero (testCount p);
     l_docCount := orZero (docCount p);
     l_error := error p |}.

Definition listProjects (toISOString : Z -> string) (args : Args)
    (registry : JsMap.t ProjectMetadata) : nat * list Listed :=
  let projects := Registry.getAllProjects registry in
  let projects := applyFilter (a_language args)
                    (fun p => language_str (language (discovered p))) projects in
  let projects := applyFilter (a_status args)
                    (fun p => status_str (indexStatus p)) projects in
  let projects := applyFilter (a_ide args)
                    (fun p => ide_str (ide (discovered p))) projects in
  (List.length projects, map (view toISOString) projects).

End Projects.

(** ** registry.ts: the queries *)

Module RegistryQueries.
Import Scanner Metadata Host.

Definition getProjectsByLanguage (l : Language)
    (projects : JsMap.t ProjectMetadata) : list ProjectMetadata :=
  List.filter (fun p => String.eqb (language_str (language (discovered p)))
                                   (language_str l))
              (Registry.getAllProjects projects).

(** The body of the loop of [groupBy]:
    [result[value] = (result[value] || 0) + 1]. *)
Definition tally (key : ProjectMetadata -> string) (result : JsMap.t Z)
    (project : ProjectMetadata) : JsMap.t Z :=
  let value := key project in
  JsMap.set value
    (match JsMap.get value result with Some n => n | None => 0 end + 1)
    result.

(** [groupBy(projects, field)]: the result object, its keys in the order
    they were first assigned; [key] is [String(project[field])]. *)
Definition groupBy (projects : list ProjectMetadata)
    (key : ProjectMetadata -> string) : JsMap.t Z :=
  fold_left (tally key) projects [].

Record Stats := mkStats {
  total : nat;
  byLanguage : JsMap.t Z;
  byStatus : JsMap.t Z;
  byIDE : JsMap.t Z
}.

Definition getStats (projects : JsMap.t ProjectMetadata) : Stats :=
  let ps := Registry.getAllProjects projects in
  {| total := List.length ps;
     byLanguage := groupBy ps (fun p => language_str (language (discovered p)));
     byStatus := groupBy ps (fun p => status_str (indexStatus p));
     byIDE := groupBy ps (fun p => ide_str (ide (discovered p))) |}.

End RegistryQueries.

(** ** indexer.ts: the schedule *)

Module Schedule.

(** [cronTask]: the expression of the task running, or [None] for [null].
    [validate] stands for node-cron's check of the expression: [Some e]
    when [cron.schedule] throws [e]. *)
Definition startAutoIndexing (validate : string -> option Async.exn)
    (cronSchedule : string) (cronTask : option string)
  : Async.exn + option string :=
  match cronTask with
  | Some _ => inr cronTask          (* "Auto-indexing already running" *)
  | None =>
      match validate cronSchedule with
      | Some e => inl e
      | None => inr (Some cronSchedule)
      end
  end.

Definition stopAutoIndexing (cronTask : option string) : option string := None.

(** [getStats().autoIndexingEnabled] *)
Definition autoIndexingEnabled (cronTask : option string) : bool :=
  match cronTask with Some _ => true | None => false end.

End Schedule.

(** ** analyzers/projects.ts: the other tools *)

Module Tools.
Import Scanner Metadata Host Async.

(** [args.schedule || "0 * * * *"] *)
Definition scheduleArg (schedule : option string) : string :=
  match schedule with
  | None | Some EmptyString => "0 * * * *"
  | Some s => s
  end.

(** [start_auto_indexing]: the reply's message, or the error thrown, and
    the indexer's [cronTask] afterwards. *)
Definition startAutoIndexing (validate : string -> option exn)
    (schedule : option string) (cronTask : option string)
  : (exn + string) * option string :=
  let schedule := scheduleArg schedule in
  match Schedule.startAutoIndexing validate schedule cronTask with
  | inr cronTask' =>
      (inr ("Auto-indexing started with schedule: " +:+ schedule), cronTask')
  | inl e => (inl ("Failed to start auto-indexing: " +:+ e), cronTask)
  end.

Record ReindexReply := mkReindexReply {
  r_name : option string;
  r_path : string;
  r_indexStatus : option IndexStatus;
  r_symbolCount : Z;
  r_testCount : Z;
  r_docCount : Z
}.

(** [reindex_project]: [project_path] is [None] when the argument is
    missing.  (The indexer is there: [handleTool] initializes it first.) *)
Definition reindexProject (project_path : option string)
  : Async World ReindexReply :=
  try_catch
    (match project_path with
     | None | Some EmptyString => throw "project_path is required"
     | Some p =>
         Indexer.await (Indexer.reindexProject p);;
         w ← get;
         let project := Registry.getProject p (projects w) in
         mret {| r_name := (fun m => name (discovered m)) <$> project;
                 r_path := p;
                 r_indexStatus := indexStatus <$> project;
                 r_symbolCount := Projects.orZero (project ≫= symbolCount);
                 r_testCount := Projects.orZero (project ≫= testCount);
                 r_docCount := Projects.orZero (project ≫= docCount) |}
     end)
    (fun error => throw ("Failed to reindex project: " +:+ error)).



End Tools.

(** ** file-watcher.ts: all projects at once *)

Module WatchAll.
Import Scanner Metadata FileWatcher.


(** [stopWatchingAll]: [stopWatchingProject] for every key of
    [this.watchers].  [order] is the keys in the order the map iterates
    them, which the state does not record. *)
Definition stopWatchingAll (order : list string) (s : State) : State :=
  fold_left (fun s projectPath => stopWatchingProject projectPath s) order s.

Record Status := mkStatus { watchedProjects : nat; pendingReindexes : nat }.

Definition getStatus (s : State) : Status :=
  {| watchedProjects := size (watchers s);
     pendingReindexes := size (debounceTimers s) |}.

End WatchAll.

(** * Vocabulary of the properties *)

Module ScannerTerms.
Import Scanner.

(** The score the classification reads for a language. *)
Definition score (l : Language) (s : LanguageScores) : nat :=
  match l with
  | go => s_go s
  | python => s_python s
  | nodejs => s_nodejs s
  | mixed => 0
  end.

(** Every project a scan reports was accepted by [analyzeDirectory] on the
    listing of its own directory. *)
Definition accepted (env : Env) (p : DiscoveredProject) : Prop :=
  exists listing,
    readdir env (path p) = Some listing /\
    analyzeDirectory env (path p) (map d_name listing) = Some p.

(** A small file system: a projects folder with a Go service that also
    holds one Python script, and a folder of notes. *)
Definition sampleListing (dir : string) : option (list Dirent) :=
  if String.eqb dir "/home/u/Projects" then
    Some [mkDirent "svc" true; mkDirent "notes" true]
  else if String.eqb dir "/home/u/Projects/svc" then
    Some [mkDirent ".git" true; mkDirent "go.mod" false;
          mkDirent "main.go" false; mkDirent "util.go" false;
          mkDirent "tool.py" false]
  else if String.eqb dir "/home/u/Projects/notes" then
    Some [mkDirent "todo.txt" false; mkDirent "draft.py" false]
  else None.

Definition sampleEnv : Env :=
  {| readdir := sampleListing;
     statMtime := fun _ => Some 1700000000000;
     realpath := fun p => Some p;
     findMarkers := None;
     join := fun a b => a +:+ "/" +:+ b;
     basename := Js.lastComponent;
     dirname := fun p => p;
     searchPaths := ["/home/u/Projects"];
     now := 1700000000500 |}.

End ScannerTerms.

Module RegistryTerms.
Import Scanner Json Metadata Host.

(** The registry's map as the class keeps it: one entry per key, and each
    project stored under its own path. *)
Definition keyed (m : JsMap.t ProjectMetadata) : Prop :=
  List.NoDup (JsMap.keys m) /\
  Forall (fun kv => path (discovered (snd kv)) = fst kv) m.

(** The environment of the examples: nothing fails, no analyzer finds
    anything, no documentation file exists. *)
Definition quietEnv (now : Z) : Env :=
  {| Host.now := now;
     toISOString := fun _ => "2023-11-14T22:13:20.000Z";
     mkdirError := None;
     writeError := None;
     handleTool := fun _ _ => ANoText;
     addDocuments := fun _ => None;
     stat := fun _ => None;
     readFile := fun _ => None;
     Host.readdir := fun _ => None;
     Host.join := fun a b => a +:+ "/" +:+ b |}.

Definition sampleProject (p : string) (l : Language) : DiscoveredProject :=
  {| path := p; name := Js.lastComponent p; language := l; ide := vscode;
     hasGit := true; lastModified := 1700000000000;
     indicators := [".vscode"; ".git"] |}.

Definition sampleMetadata (p : string) (l : Language) (st : IndexStatus)
    (last : option Z) (err : option string) : ProjectMetadata :=
  {| discovered := sampleProject p l;
     lastIndexed := last; indexStatus := st;
     symbolCount := None; testCount := None; docCount := None;
     error := err |}.

Definition worldOf (e : Env) (m : JsMap.t ProjectMetadata) : World :=
  {| projects := m; file := None; isIndexing := false; env := e; calls := [] |}.

(** The state [save] leaves when it is run alone. *)
Definition saved (w : World) : World :=
  match mkdirError (env w), writeError (env w) with
  | None, None => set_file (Some (Registry.snapshot (env w) (projects w))) w
  | _, _ => w
  end.

(** The map [load] builds from the registry file. *)
Definition loaded (f : option json) : JsMap.t ProjectMetadata :=
  match f with
  | Some parsed =>
      match Registry.stored_projects parsed with
      | Some ps => Registry.rebuild ps
      | None => []
      end
  | None => []
  end.

End RegistryTerms.

Module AsyncTerms.
Import Async.
Section Sat.
Context {W A : Type}.

(** [StepSat R Q st]: every atomic stretch of [st], from a resumption to the
    next suspension point or to the end, takes a state to one related by
    [R], and [st] settles with an outcome in [Q]. *)
Fixpoint StepSat (R : W -> W -> Prop) (Q : exn + A -> Prop) (st : Step W A)
  : Prop :=
  match st with
  | Done r => Q r
  | Susp k => forall w, R w (fst (k w)) /\ StepSat R Q (snd (k w))
  end.

Definition Sat (R : W -> W -> Prop) (Q : exn + A -> Prop) (m : Async W A)
  : Prop :=
  forall w, R w (fst (m w)) /\ StepSat R Q (snd (m w)).

End Sat.

(** Outcomes. *)
Definition fulfilled {A} (r : exn + A) : Prop :=
  match r with inr _ => True | inl _ => False end.
Definition settled {A} (r : exn + A) : Prop := True.

End AsyncTerms.

Module WatcherTerms.
Import Scanner Metadata RegistryTerms FileWatcher.

(** The components of a relative path ([p.split("/")]). *)
Fixpoint split_path_aux (acc : string) (p : string) : list string :=
  match p with
  | EmptyString => [acc]
  | String c rest =>
      if Ascii.eqb c "/"%char then acc :: split_path_aux "" rest
      else split_path_aux (acc +:+ String c "") rest
  end.

Definition split_path (p : string) : list string := split_path_aux "" p.

(** The proper path components of a file name: the directories it lies
    under. *)
Definition directoriesOf (filename : string) : list string :=
  removelast (split_path filename).

Definition underIgnoredDirectory (filename : string) : bool :=
  existsb (fun d => Js.includes ignorePaths d) (directoriesOf filename).

Definition svc : ProjectMetadata :=
  sampleMetadata "/w/svc" go completed (Some 1699990000000) None.

Definition web : ProjectMetadata :=
  sampleMetadata "/w/web" nodejs completed (Some 1699990000000) None.

Definition watching : State := steps init [Watch svc; Watch web].

(** A first change at time 0 whose re-index, started at 5000, is still
    running when a burst of two changes arrives at 6000 and 10500; the
    re-index ends at 10000, between the two. *)
Definition overlappingBurst : list Event :=
  [ Notify "/w/svc" (Some "main.go");
    Advance 5000;
    Advance 6000;  Notify "/w/svc" (Some "main.go");
    Advance 10000; Settle 0;
    Advance 10500; Notify "/w/svc" (Some "util.go");
    Advance 11000;
    Advance 15500 ].

(** A burst: the times and file names of the changes. *)
Definition burstEvents (projectPath : string) (burst : list (Z * string))
  : list Event :=
  flat_map (fun c => [Advance (fst c); Notify projectPath (Some (snd c))]) burst.

(** Each change comes less than the debounce delay after the one before
    (the first one not before [t0]). *)
Fixpoint tight (t0 : Z) (burst : list (Z * string)) : Prop :=
  match burst with
  | [] => True
  | c :: rest => t0 <= fst c /\ tight (fst c) rest
                 /\ match rest with
                    | [] => True
                    | c' :: _ => fst c' < fst c + debounceDelay
                    end
  end.

Definition qualifies (l : Language) (filename : string) : Prop :=
  shouldIgnoreFile filename = false /\ isSourceFile filename l = true.

Definition lastTime (t0 : Z) (burst : list (Z * string)) : Z :=
  List.last (map fst burst) t0.

End WatcherTerms.

Module IndexerTerms.
Import Scanner Json Metadata Host Async Indexer.

(** Only the log of collaborator calls differs. *)
Definition calls_only (w w' : World) : Prop :=
  projects w' = projects w /\ file w' = file w /\
  isIndexing w' = isIndexing w /\ env w' = env w.

(** The in-flight flag and the environment are as before. *)
Definition frame (w w' : World) : Prop :=
  isIndexing w' = isIndexing w /\ env w' = env w.

(** A suspended batch: while the flag is up, each resumption either goes
    on to a next suspension point with the flag up, or ends with the flag
    down. *)
Fixpoint BatchStep (st : Step World unit) : Prop :=
  match st with
  | Done _ => True
  | Susp k =>
      forall w, isIndexing w = true ->
        match snd (k w) with
        | Done _ => isIndexing (fst (k w)) = false
        | Susp _ => isIndexing (fst (k w)) = true
        end /\ BatchStep (snd (k w))
  end.

Definition isBatch (t : Task World Kind) : bool :=
  match kind t with Batch => true | _ => false end.

Definition taskOk (t : Task World Kind) : Prop :=
  match kind t with
  | Batch => BatchStep (Susp (cont t))
  | _ => AsyncTerms.StepSat frame AsyncTerms.settled (Susp (cont t))
  end.

(** What holds of the loop at all times. *)
Definition Inv (l : Loop World Kind) : Prop :=
  Forall taskOk (tasks l) /\
  activeBatches l = (if isIndexing (world l) then 1 else 0)%nat.

Definition isResume (ev : Event) : Prop :=
  match ev with EvResume _ => True | _ => False end.

(** The patch [indexProject] passes on success. *)
Definition countsPatch (c : Counts) : StatusPatch :=
  {| p_symbolCount := Some (c_symbolCount c);
     p_testCount := Some (c_testCount c);
     p_docCount := Some (c_docCount c);
     p_error := None |}.

(** The part of [indexProject] that depends on the language. *)
Definition languagePass (project : ProjectMetadata) : Async World Counts :=
  match language (discovered project) with
  | go => await (indexGoProject project)
  | python => await (indexPythonProject project)
  | nodejs => await (indexNodeProject project)
  | mixed =>
      results ← await (allSettled3 (indexGoProject project)
                                   (indexPythonProject project)
                                   (indexNodeProject project));
      mret (fold_left addCounts results (mkCounts 0 0 0))
  end.

(** The first analyzer tool [indexProject] calls for a language. *)
Definition symbolTool (l : Language) : string :=
  match l with
  | go => "go_find_symbols"
  | python => "python_find_symbols"
  | nodejs => "node_find_symbols"
  | mixed => ""
  end.


(** Two projects: the analyzer crashes on the first and finds one function
    and one test in the second. *)
Definition crashingEnv : Env :=
  {| Host.now := 1700000000000;
     toISOString := fun _ => "2023-11-14T22:13:20.000Z";
     mkdirError := None;
     writeError := None;
     handleTool := fun tool p =>
       if String.eqb p "/w/bad" then AThrows "spawn go ENOENT"
       else if String.eqb tool "go_find_symbols"
            then AItems [mkItem "main" "function" "main.go" None 3]
       else AItems [mkItem "TestMain" "function" "main_test.go" None 5];
     addDocuments := fun _ => None;
     stat := fun _ => None;
     readFile := fun _ => None;
     Host.readdir := fun _ => None;
     Host.join := fun a b => a +:+ "/" +:+ b |}.

Definition twoProjects : World :=
  RegistryTerms.worldOf crashingEnv
    [ ("/w/bad", RegistryTerms.sampleMetadata "/w/bad" go pending None None);
      ("/w/good", RegistryTerms.sampleMetadata "/w/good" go pending None None) ].

(** The registry after one pass over the project at [projectPath]. *)
Definition passed (projectPath : string) (c : Counts) (now : Z)
    (m : JsMap.t ProjectMetadata) : JsMap.t ProjectMetadata :=
  Registry.updateIndexStatus_map projectPath completed (Some (countsPatch c)) now
    (Registry.updateIndexStatus_map projectPath indexing None now m).

End IndexerTerms.

Module ScannerMoreTerms.
Import Scanner.

(** [target] is reached from [dir] by going down at most [n] times, each
    time from a directory that is not itself a project into one of its
    sub-directories that is not skipped. *)
Inductive Descends (env : Env) : nat -> string -> string -> Prop :=
| descends_here n dir : Descends env n dir dir
| descends_into n dir entries e target :
    readdir env dir = Some entries ->
    analyzeDirectory env dir (map d_name entries) = None ->
    In e entries ->
    d_isDirectory e = true ->
    shouldSkipDirectory (d_name e) = false ->
    Descends env n (join env dir (d_name e)) target ->
    Descends env (S n) dir target.


(** What the quick scan makes of one marker. *)
Definition markerProject (env : Env) (marker : string)
  : option DiscoveredProject :=
  match readdir env (dirname env marker) with
  | Some entries =>
      analyzeDirectory env (dirname env marker) (map d_name entries)
  | None => None
  end.


(** The sample file system as the quick scan sees it: [find] has come back
    with the two markers of the service folder. *)
Definition quickEnv : Env :=
  {| readdir := fun dir =>
       if String.eqb dir "/home/u/Projects/svc" then
         Some [mkDirent ".vscode" true; mkDirent ".idea" true;
               mkDirent "go.mod" false; mkDirent "main.go" false]
       else None;
     statMtime := fun _ => Some 1700000000000;
     realpath := fun p => Some p;
     findMarkers := Some ["/home/u/Projects/svc/.vscode";
                          "/home/u/Projects/svc/.idea"];
     join := fun a b => a +:+ "/" +:+ b;
     basename := Js.lastComponent;
     dirname := fun _ => "/home/u/Projects/svc";
     searchPaths := ["/home/u/Projects"];
     now := 1700000000500 |}.

End ScannerMoreTerms.

Module RegistryMoreTerms.
Import Scanner Metadata Host RegistryTerms.

(** An environment in which the registry file cannot be written. *)
Definition readOnlyEnv (now : Z) : Env :=
  {| Host.now := now;
     toISOString := fun _ => "2023-11-14T22:13:20.000Z";
     mkdirError := None;
     writeError := Some "EACCES: permission denied";
     handleTool := fun _ _ => ANoText;
     addDocuments := fun _ => None;
     stat := fun _ => None;
     readFile := fun _ => None;
     Host.readdir := fun _ => None;
     Host.join := fun a b => a +:+ "/" +:+ b |}.

(** Number of projects whose grouping key is [v]. *)
Definition countKey (key : ProjectMetadata -> string) (v : string)
    (ps : list ProjectMetadata) : nat :=
  List.length (List.filter (fun p => String.eqb (key p) v) ps).

(** The count an object of counts holds for [v] ([0] when it has none). *)
Definition countOf (result : JsMap.t Z) (v : string) : Z :=
  match JsMap.get v result with Some n => n | None => 0 end.

End RegistryMoreTerms.

Module IndexerMoreTerms.
Import Scanner Json Metadata Host Async Indexer.

(** A document that says which project it belongs to: its id starts with
    the project's path, and its metadata hold the project's path and name,
    a language and one of the three types. *)
Definition okDoc (project : ProjectMetadata) (d : Doc) : Prop :=
  (exists rest, id d = path (discovered project) +:+ ":" +:+ rest)
  /\ field "project_path" (metadata d) = Some (JStr (path (discovered project)))
  /\ field "project_name" (metadata d) = Some (JStr (name (discovered project)))
  /\ (exists l, field "language" (metadata d) = Some (JStr l))
  /\ (exists t, field "type" (metadata d) = Some (JStr t)
                /\ In t ["local_symbol"; "local_test"; "local_doc"]).

(** A collaborator call made for [project]: an analyzer call on its path,
    or a non-empty batch of its documents. *)
Definition okCall (project : ProjectMetadata) (c : Call) : Prop :=
  match c with
  | CallTool _ p => p = path (discovered project)
  | CallAddDocuments docs => docs <> [] /\ Forall (okDoc project) docs
  end.

(** Only the log grows, and by calls that satisfy [P]. *)
Definition sends (P : Call -> Prop) (w w' : World) : Prop :=
  IndexerTerms.calls_only w w' /\
  exists extra, calls w' = calls w ++ extra /\ Forall P extra.

(** The outcome of collecting documentation files: no throw, and every
    document collected is the project's. *)
Definition docsOk (project : ProjectMetadata) (r : exn + (list Doc * Z)) : Prop :=
  match r with
  | inr acc => Forall (okDoc project) (fst acc)
  | inl _ => False
  end.

(** An entry as a finished pass leaves it at time [now]. *)
Definition processed (now : Z) (q : ProjectMetadata) : Prop :=
  indexStatus q = completed /\ lastIndexed q = Some now.



(** A project with a [docs] directory of three files, the second of which
    cannot be read. *)
Definition docsEnv : Env :=
  {| Host.now := 1700000000000;
     toISOString := fun _ => "2023-11-14T22:13:20.000Z";
     mkdirError := None;
     writeError := None;
     handleTool := fun _ _ => ANoText;
     addDocuments := fun _ => None;
     stat := fun p => if String.eqb p "/w/svc/docs" then Some IsDirectory else None;
     readFile := fun p =>
       if String.eqb p "/w/svc/docs/b.md" then None else Some "text";
     Host.readdir := fun _ => Some ["a.md"; "b.md"; "c.md"];
     Host.join := fun a b => a +:+ "/" +:+ b |}.

End IndexerMoreTerms.

Module WatcherMoreTerms.
Import Scanner Metadata RegistryTerms FileWatcher.

(** The project a timer's callback will re-index. *)
Definition pathOf (t : Timer) : string := path (discovered (target t)).

(** What holds of every state the watcher reaches: a watcher is stored
    under the path of its project; handles are handed out in increasing
    order; a handle in [debounceTimers] names only timers of that project;
    only watched projects have an entry in [debounceTimers]. *)
Definition WellFormed (s : State) : Prop :=
  (forall k project,
     watchers s !! k = Some project -> path (discovered project) = k) /\
  (forall t, In t (armed s) -> (handle t < nextHandle s)%nat) /\
  (forall q h, debounceTimers s !! q = Some h -> (h < nextHandle s)%nat) /\
  (forall q h t,
     debounceTimers s !! q = Some h -> In t (armed s) -> handle t = h ->
     pathOf t = q) /\
  (forall q, is_Some (debounceTimers s !! q) -> is_Some (watchers s !! q)).

(** Every armed timer of the project at [p] is the one [debounceTimers]
    names. *)
Definition tracked (p : string) (s : State) : Prop :=
  forall t,
    In t (armed s) -> pathOf t = p -> debounceTimers s !! p = Some (handle t).

(** The event installs a watcher on [p]. *)
Definition watchesPath (p : string) (ev : Event) : Prop :=
  match ev with
  | Watch project => path (discovered project) = p
  | _ => False
  end.

(** The armed timers that will re-index the project at [p]. *)
Definition pendingFor (p : string) (s : State) : list Timer :=
  List.filter (fun t => String.eqb (pathOf t) p) (armed s).

(** No watcher on [p] and no timer for it. *)
Definition Quiet (p : string) (s : State) : Prop :=
  watchers s !! p = None /\ forall t, In t (armed s) -> pathOf t <> p.

(** The events concern the project at [q] only. *)
Definition about (q : string) (ev : Event) : Prop :=
  match ev with
  | Notify q' _ | Unwatch q' => q' = q
  | Watch project => path (discovered project) = q
  | _ => False
  end.

End WatcherMoreTerms.

(** * Properties *)

(** ** Scanner *)

Module ScannerFacts.
Import Scanner ScannerTerms.


Lemma activeLanguages_two (s : LanguageScores) (l1 l2 : Language) :
  l1 <> l2 -> (0 < score l1 s)%nat -> (0 < score l2 s)%nat ->
  (1 < activeLanguages s)%nat.
Proof.
  unfold activeLanguages. destruct s as [g p n].
  destruct l1, l2; simpl; intros Hne H1 H2; try congruence; try lia;
    destruct g, p, n; simpl; lia.
Qed.

Lemma determineLanguage_one (s : LanguageScores) (l : Language) :
  (0 < score l s)%nat ->
  (forall l', l' <> l -> score l' s = 0%nat) ->
  determineLanguage s = Some l.
Proof.
  intros Hpos Hzero. unfold determineLanguage, maxScore, activeLanguages.
  destruct s as [g p n].
  destruct l; simpl in *.
  - assert (p = 0%nat) by (apply (Hzero python); discriminate).
    assert (n = 0%nat) by (apply (Hzero nodejs); discriminate).
    subst. destruct g; [lia|]. simpl. rewrite Nat.eqb_refl. reflexivity.
  - assert (g = 0%nat) by (apply (Hzero go); discriminate).
    assert (n = 0%nat) by (apply (Hzero nodejs); discriminate).
    subst. destruct p; [lia|]. simpl. rewrite Nat.eqb_refl. reflexivity.
  - assert (g = 0%nat) by (apply (Hzero go); discriminate).
    assert (p = 0%nat) by (apply (Hzero python); discriminate).
    subst. destruct n; [lia|]. reflexivity.
  - lia.
Qed.

Lemma analyzeDirectory_Some env dir entries p :
  analyzeDirectory env dir entries = Some p ->
  path p = dir /\
  determineLanguage (languageScores entries) = Some (language p) /\
  indicators p = collectIndicators entries /\
  indicators p <> [].
Proof.
  unfold analyzeDirectory.
  destruct (determineLanguage (languageScores entries)) as [l|]; [|discriminate].
  destruct (collectIndicators entries) as [|i0 rest0] eqn:Hind; simpl; [discriminate|].
  intros [= <-]. simpl. repeat split; try reflexivity. discriminate.
Qed.

Lemma analyzeDirectory_language env dir entries l :
  determineLanguage (languageScores entries) = Some l ->
  collectIndicators entries <> [] ->
  exists p, analyzeDirectory env dir entries = Some p /\ language p = l.
Proof.
  intros Hl Hind. unfold analyzeDirectory. rewrite Hl.
  destruct (collectIndicators entries) as [|i0 rest0]; [congruence|]. simpl.
  eexists. split; reflexivity.
Qed.

Lemma analyzeDirectory_None env dir entries :
  maxScore (languageScores entries) = 0%nat \/ collectIndicators entries = [] ->
  analyzeDirectory env dir entries = None.
Proof.
  intros [H|H]; unfold analyzeDirectory.
  - unfold determineLanguage. rewrite H. reflexivity.
  - rewrite H. simpl. destruct (determineLanguage _); reflexivity.
Qed.


Lemma scanLevels_accepted env levels :
  forall dir seen p,
    In p (fst (scanLevels env levels dir seen)) -> accepted env p.
Proof.
  induction levels as [|levels IH]; intros dir seen p; simpl; [tauto|].
  destruct (bool_decide _); simpl; [tauto|].
  destruct (readdir env dir) as [entries|] eqn:Hrd; simpl; [|tauto].
  destruct (analyzeDirectory env dir (map d_name entries)) as [project|] eqn:Han.
  - simpl. intros [<-|[]].
    destruct (analyzeDirectory_Some _ _ _ _ Han) as [Hp _].
    exists entries. rewrite Hp. auto.
  - generalize ({[getRealPath env dir]} ∪ seen).
    assert (Hnil : forall q, In q (@nil DiscoveredProject) -> accepted env q)
      by (intros q []).
    revert Hnil. generalize (@nil DiscoveredProject) as acc.
    clear Hrd Han. induction entries as [|e es IHes]; intros acc Hacc seen0; simpl.
    + apply Hacc.
    + destruct (negb (d_isDirectory e)); simpl; [apply IHes, Hacc|].
      destruct (shouldSkipDirectory (d_name e)); simpl; [apply IHes, Hacc|].
      destruct (scanLevels env levels (join env dir (d_name e)) seen0)
        as [sub seen1] eqn:Hsub.
      simpl. apply IHes. intros q Hq. apply in_app_or in Hq as [Hq|Hq]; auto.
      apply (IH (join env dir (d_name e)) seen0). rewrite Hsub. exact Hq.
Qed.

Lemma discoverProjects_accepted env maxDepth p :
  In p (discoverProjects env maxDepth) -> accepted env p.
Proof.
  unfold discoverProjects.
  assert (Hnil : forall q, In q (@nil DiscoveredProject) -> accepted env q)
    by (intros q []).
  revert Hnil. generalize (@nil DiscoveredProject) as acc.
  generalize (∅ : gset string) as seen.
  induction (searchPaths env) as [|sp sps IH]; intros seen acc Hacc; simpl.
  - apply Hacc.
  - destruct (scanDirectory env sp maxDepth 0 seen) as [found seen'] eqn:Hscan.
    simpl. apply IH. intros q Hq. apply in_app_or in Hq as [Hq|Hq]; auto.
    apply (scanLevels_accepted env (S maxDepth - 0) sp seen).
    unfold scanDirectory in Hscan. rewrite Hscan. exact Hq.
Qed.

Lemma quickLoop_accepted env markers :
  forall acc projects,
    (forall q, In q acc -> accepted env q) ->
    quickLoop env markers acc = Some projects ->
    forall q, In q projects -> accepted env q.
Proof.
  induction markers as [|m ms IH]; intros acc projects Hacc; simpl.
  - intros [= <-]. exact Hacc.
  - destruct (readdir env (dirname env m)) as [entries|] eqn:Hrd; [|discriminate].
    destruct (analyzeDirectory env (dirname env m) (map d_name entries))
      as [project|] eqn:Han.
    + apply IH. intros q Hq. apply in_app_or in Hq as [Hq|[<-|[]]]; auto.
      destruct (analyzeDirectory_Some _ _ _ _ Han) as [Hp _].
      exists entries. rewrite Hp. auto.
    + apply IH, Hacc.
Qed.

Lemma quickDiscoverProjects_accepted env p :
  In p (quickDiscoverProjects env) -> accepted env p.
Proof.
  unfold quickDiscoverProjects.
  destruct (findMarkers env) as [markers|]; [|apply discoverProjects_accepted].
  destruct (quickLoop env markers []) as [projects|] eqn:Hq;
    [|apply discoverProjects_accepted].
  apply (quickLoop_accepted env markers [] projects); [intros q []|exact Hq].
Qed.

Lemma determineLanguage_mixed (s : LanguageScores) :
  (1 < activeLanguages s)%nat -> determineLanguage s = Some mixed.
Proof.
  intros H. unfold determineLanguage.
  assert (Hmax : maxScore s <> 0%nat).
  { unfold maxScore, activeLanguages in *. destruct s as [g p n].
    simpl in *. destruct g, p, n; simpl in *; lia. }
  apply Nat.eqb_neq in Hmax. rewrite Hmax.
  apply Nat.ltb_lt in H. rewrite H. reflexivity.
Qed.

(** C3.  Classification in [analyzeDirectory]: when two different languages
    have a positive score (10 for a manifest plus the number of source
    files), the language determined is "mixed", whatever the scores are,
    and it is the language of the project returned; when exactly one
    language has a positive score, that language is determined and
    returned.  (The project is returned when there is an indicator.) *)
Theorem C3_several_active_languages_give_mixed
    (env : Env) (dir : string) (entries : list string) :
  let s := languageScores entries in
  ((exists l1 l2, l1 <> l2 /\ (0 < score l1 s)%nat /\ (0 < score l2 s)%nat) ->
     determineLanguage s = Some mixed /\
     (forall p, analyzeDirectory env dir entries = Some p -> language p = mixed) /\
     (collectIndicators entries <> [] ->
      exists p, analyzeDirectory env dir entries = Some p /\ language p = mixed))
  /\
  (forall l,
     (0 < score l s)%nat -> (forall l', l' <> l -> score l' s = 0%nat) ->
     determineLanguage s = Some l /\
     (forall p, analyzeDirectory env dir entries = Some p -> language p = l) /\
     (collectIndicators entries <> [] ->
      exists p, analyzeDirectory env dir entries = Some p /\ language p = l)).
Proof.
  intros s. split.
  - intros (l1 & l2 & Hne & H1 & H2).
    assert (Hm : determineLanguage s = Some mixed)
      by (eapply determineLanguage_mixed, activeLanguages_two; eauto).
    split; [exact Hm|]. split.
    + intros p Hp. apply analyzeDirectory_Some in Hp as (_ & Hl & _).
      fold s in Hl. congruence.
    + intros Hind. apply analyzeDirectory_language; assumption.
  - intros l Hpos Hzero.
    assert (Hl : determineLanguage s = Some l)
      by (apply determineLanguage_one; assumption).
    split; [exact Hl|]. split.
    + intros p Hp. apply analyzeDirectory_Some in Hp as (_ & Hl' & _).
      fold s in Hl'. congruence.
    + intros Hind. apply analyzeDirectory_language; assumption.
Qed.

(** A Go module with two Go files and one Python script: the Go score (12)
    exceeds the Python score (1), and the project is "mixed".  Without the
    script it is a Go project. *)
Lemma C3_witness :
  (exists p,
     analyzeDirectory sampleEnv "/home/u/Projects/svc"
       [".git"; "go.mod"; "main.go"; "util.go"; "tool.py"] = Some p
     /\ language p = mixed)
  /\
  (exists p,
     analyzeDirectory sampleEnv "/home/u/Projects/svc"
       [".git"; "go.mod"; "main.go"; "util.go"] = Some p
     /\ language p = go).
Proof.
  split.
  - destruct (C3_several_active_languages_give_mixed sampleEnv
                "/home/u/Projects/svc"
                [".git"; "go.mod"; "main.go"; "util.go"; "tool.py"])
      as [Hmixed _].
    destruct Hmixed as (_ & _ & Hreturned).
    + exists go, python. split; [discriminate|]. split; vm_compute; lia.
    + apply Hreturned. vm_compute. discriminate.
  - destruct (C3_several_active_languages_give_mixed sampleEnv
                "/home/u/Projects/svc"
                [".git"; "go.mod"; "main.go"; "util.go"])
      as [_ Hone].
    destruct (Hone go) as (_ & _ & Hreturned).
    + vm_compute. lia.
    + intros l' Hl'. destruct l'; try congruence; reflexivity.
    + apply Hreturned. vm_compute. discriminate.
Defined.

(** C7.  A directory whose scores are all zero, or for which no indicator
    was collected, is rejected by [analyzeDirectory]; and neither
    [discoverProjects] nor [quickDiscoverProjects] reports a directory
    whose listing is of that kind: every reported project has at least one
    indicator. *)
Theorem C7_no_indicator_no_project (env : Env) :
  (forall dir entries,
     maxScore (languageScores entries) = 0%nat \/ collectIndicators entries = [] ->
     analyzeDirectory env dir entries = None)
  /\
  (forall dir,
     (forall listing,
        readdir env dir = Some listing ->
        maxScore (languageScores (map d_name listing)) = 0%nat
        \/ collectIndicators (map d_name listing) = []) ->
     forall p maxDepth,
       (In p (discoverProjects env maxDepth) -> path p <> dir) /\
       (In p (quickDiscoverProjects env) -> path p <> dir))
  /\
  (forall p maxDepth,
     In p (discoverProjects env maxDepth) \/ In p (quickDiscoverProjects env) ->
     indicators p <> []).
Proof.
  assert (Hacc : forall p maxDepth,
             In p (discoverProjects env maxDepth) \/ In p (quickDiscoverProjects env) ->
             accepted env p).
  { intros p maxDepth [H|H];
      [eapply discoverProjects_accepted|eapply quickDiscoverProjects_accepted]; eauto. }
  split; [intros; apply analyzeDirectory_None; assumption|]. split.
  - intros dir Hdir p maxDepth.
    assert (Hno : accepted env p -> path p <> dir).
    { intros (listing & Hrd & Han) Heq. subst dir.
      rewrite (analyzeDirectory_None env (path p) (map d_name listing)) in Han
        by (apply Hdir; exact Hrd).
      discriminate. }
    split; intros Hin; apply Hno; apply (Hacc p maxDepth); auto.
  - intros p maxDepth Hin. apply Hacc in Hin as (listing & _ & Han).
    apply analyzeDirectory_Some in Han. tauto.
Qed.

(** The notes folder holds a Python file but no manifest, IDE marker or
    repository: it has a positive score and no indicator, and it is not
    reported. *)
Lemma C7_witness :
  analyzeDirectory sampleEnv "/home/u/Projects/notes" ["todo.txt"; "draft.py"] = None
  /\ (forall p, In p (discoverProjects sampleEnv 3) ->
                path p <> "/home/u/Projects/notes").
Proof.
  destruct (C7_no_indicator_no_project sampleEnv) as (Hnone & Hexcl & _).
  split.
  - apply Hnone. right. vm_compute. reflexivity.
  - intros p Hin.
    apply (Hexcl "/home/u/Projects/notes") with (maxDepth := 3%nat); [|exact Hin].
    intros listing Hrd. vm_compute in Hrd. injection Hrd as <-.
    right. vm_compute. reflexivity.
Defined.

End ScannerFacts.

(** ** Asynchronous computations *)

Module AsyncFacts.
Import Async AsyncTerms.

Ltac monad := unfold mbind, mret, async_bind, async_ret in *.

Section Run.
Context {W : Type}.

Lemma runStep_bindStep {A B} (st : Step W A) (f : A -> Async W B) :
  forall w,
    (let '(w', st') := bindStep st f w in runStep st' w') =
    match runStep st w with
    | (w', inr a) => run (f a) w'
    | (w', inl e) => (w', inl e)
    end.
Proof.
  induction st as [[e|a]|k IH] using Step_ind; intros w; simpl; try reflexivity.
  specialize (IH w (fst (k w))). destruct (k w) as [w1 st1]. simpl in IH. exact IH.
Qed.

Lemma run_bind {A B} (m : Async W A) (f : A -> Async W B) (w : W) :
  run (bind m f) w =
  match run m w with
  | (w', inr a) => run (f a) w'
  | (w', inl e) => (w', inl e)
  end.
Proof.
  unfold run at 1 2, bind. destruct (m w) as [w1 st]. apply runStep_bindStep.
Qed.

Lemma runStep_catchStep {A} (st : Step W A) (h : exn -> Async W A) :
  forall w,
    (let '(w', st') := catchStep st h w in runStep st' w') =
    match runStep st w with
    | (w', inr a) => (w', inr a)
    | (w', inl e) => run (h e) w'
    end.
Proof.
  induction st as [[e|a]|k IH] using Step_ind; intros w; simpl; try reflexivity.
  specialize (IH w (fst (k w))). destruct (k w) as [w1 st1]. simpl in IH. exact IH.
Qed.

Lemma run_try_catch {A} (m : Async W A) (h : exn -> Async W A) (w : W) :
  run (try_catch m h) w =
  match run m w with
  | (w', inr a) => (w', inr a)
  | (w', inl e) => run (h e) w'
  end.
Proof.
  unfold run at 1 2, try_catch. destruct (m w) as [w1 st].
  apply runStep_catchStep.
Qed.

Lemma runStep_finallyStep {A} (st : Step W A) (fin : W -> W) :
  forall w,
    (let '(w', st') := finallyStep st fin w in runStep st' w') =
    (let '(w', r) := runStep st w in (fin w', r)).
Proof.
  induction st as [r|k IH] using Step_ind; intros w; simpl; try reflexivity.
  specialize (IH w (fst (k w))). destruct (k w) as [w1 st1]. simpl in IH. exact IH.
Qed.

Lemma run_try_finally {A} (m : Async W A) (fin : W -> W) (w : W) :
  run (try_finally m fin) w = (let '(w', r) := run m w in (fin w', r)).
Proof.
  unfold run, try_finally. destruct (m w) as [w1 st].
  apply runStep_finallyStep.
Qed.

Lemma run_ext {A} (m m' : Async W A) (w w' : W) :
  m w = m' w' -> run m w = run m' w'.
Proof. unfold run. intros ->. reflexivity. Qed.

Lemma run_ret {A} (a : A) (w : W) : run (ret a) w = (w, inr a).
Proof. reflexivity. Qed.

Lemma run_throw {A} (e : exn) (w : W) : run (@throw W A e) w = (w, inl e).
Proof. reflexivity. Qed.

Lemma run_get (w : W) : run get w = (w, inr w).
Proof. reflexivity. Qed.

Lemma run_modify (f : W -> W) (w : W) : run (modify f) w = (f w, inr tt).
Proof. reflexivity. Qed.

Lemma run_io {A} (op : W -> W * (exn + A)) (w : W) : run (io op) w = op w.
Proof. unfold run, io. simpl. destruct (op w). reflexivity. Qed.

Lemma run_tick (w : W) : run tick w = (w, inr tt).
Proof. reflexivity. Qed.

End Run.

Section SatRules.
Context {W : Type} (R : W -> W -> Prop) `{!PreOrder R}.

Lemma Sat_ret {A} (Q : exn + A -> Prop) (a : A) :
  Q (inr a) -> Sat R Q (ret a).
Proof. intros HQ w. simpl. split; [reflexivity|exact HQ]. Qed.

Lemma Sat_throw {A} (Q : exn + A -> Prop) (e : exn) :
  Q (inl e) -> Sat R Q (throw e).
Proof. intros HQ w. simpl. split; [reflexivity|exact HQ]. Qed.

Lemma Sat_get (Q : exn + W -> Prop) :
  (forall w, Q (inr w)) -> Sat R Q get.
Proof. intros HQ w. simpl. split; [reflexivity|apply HQ]. Qed.

Lemma Sat_modify (Q : exn + unit -> Prop) (f : W -> W) :
  (forall w, R w (f w)) -> Q (inr tt) -> Sat R Q (modify f).
Proof. intros Hf HQ w. simpl. split; [apply Hf|exact HQ]. Qed.

Lemma Sat_io {A} (Q : exn + A -> Prop) (op : W -> W * (exn + A)) :
  (forall w, R w (fst (op w))) -> (forall w, Q (snd (op w))) -> Sat R Q (io op).
Proof.
  intros Hop HQ w. simpl. split; [reflexivity|].
  intros w'. specialize (Hop w'). specialize (HQ w').
  destruct (op w') as [w'' r]. simpl in *. auto.
Qed.

Lemma Sat_tick (Q : exn + unit -> Prop) : Q (inr tt) -> Sat R Q tick.
Proof. intros HQ. apply Sat_io; intros; simpl; [reflexivity|exact HQ]. Qed.

Lemma StepSat_bindStep {A B} (Q1 : exn + A -> Prop) (Q2 : exn + B -> Prop)
    (f : A -> Async W B) (st : Step W A) :
  StepSat R Q1 st ->
  (forall a, Q1 (inr a) -> Sat R Q2 (f a)) ->
  (forall e, Q1 (inl e) -> Q2 (inl e)) ->
  forall w0 w, R w0 w ->
    R w0 (fst (bindStep st f w)) /\ StepSat R Q2 (snd (bindStep st f w)).
Proof.
  intros Hst Hf He. induction st as [[e|a]|k IH] using Step_ind; intros w0 w Hw; simpl in *.
  - split; [exact Hw|auto].
  - destruct (Hf a Hst w) as [H1 H2]. split; [|exact H2].
    etransitivity; eassumption.
  - split; [exact Hw|]. intros w'. destruct (Hst w') as [H1 H2].
    specialize (IH w' H2 w' (fst (k w')) H1).
    destruct (k w') as [w1 st1]. simpl in *. exact IH.
Qed.

Lemma Sat_bind {A B} (Q1 : exn + A -> Prop) (Q2 : exn + B -> Prop)
    (m : Async W A) (f : A -> Async W B) :
  Sat R Q1 m ->
  (forall a, Q1 (inr a) -> Sat R Q2 (f a)) ->
  (forall e, Q1 (inl e) -> Q2 (inl e)) ->
  Sat R Q2 (bind m f).
Proof.
  intros Hm Hf He w. unfold bind. destruct (Hm w) as [H1 H2].
  destruct (m w) as [w1 st]. simpl in *.
  apply (StepSat_bindStep Q1 Q2 f st H2 Hf He w w1 H1).
Qed.

Lemma StepSat_catchStep {A} (Q1 Q2 : exn + A -> Prop)
    (h : exn -> Async W A) (st : Step W A) :
  StepSat R Q1 st ->
  (forall e, Q1 (inl e) -> Sat R Q2 (h e)) ->
  (forall a, Q1 (inr a) -> Q2 (inr a)) ->
  forall w0 w, R w0 w ->
    R w0 (fst (catchStep st h w)) /\ StepSat R Q2 (snd (catchStep st h w)).
Proof.
  intros Hst Hh Ha. induction st as [[e|a]|k IH] using Step_ind; intros w0 w Hw; simpl in *.
  - destruct (Hh e Hst w) as [H1 H2]. split; [|exact H2].
    etransitivity; eassumption.
  - split; [exact Hw|auto].
  - split; [exact Hw|]. intros w'. destruct (Hst w') as [H1 H2].
    specialize (IH w' H2 w' (fst (k w')) H1).
    destruct (k w') as [w1 st1]. simpl in *. exact IH.
Qed.

Lemma Sat_try_catch {A} (Q1 Q2 : exn + A -> Prop)
    (m : Async W A) (h : exn -> Async W A) :
  Sat R Q1 m ->
  (forall e, Q1 (inl e) -> Sat R Q2 (h e)) ->
  (forall a, Q1 (inr a) -> Q2 (inr a)) ->
  Sat R Q2 (try_catch m h).
Proof.
  intros Hm Hh Ha w. unfold try_catch. destruct (Hm w) as [H1 H2].
  destruct (m w) as [w1 st]. simpl in *.
  apply (StepSat_catchStep Q1 Q2 h st H2 Hh Ha w w1 H1).
Qed.

Lemma Sat_for_of {A} (Q : exn + unit -> Prop) (xs : list A)
    (body : A -> Async W unit) :
  Q (inr tt) ->
  (forall e, Q (inl e)) ->
  (forall x, Sat R settled (body x)) ->
  Sat R Q (for_of xs body).
Proof.
  intros Hok Herr Hbody. induction xs as [|x xs IH]; simpl.
  - apply Sat_ret. exact Hok.
  - apply (Sat_bind settled); [apply Hbody|intros; exact IH|intros; apply Herr].
Qed.

Lemma StepSat_weaken {A} (R' : W -> W -> Prop) (Q Q' : exn + A -> Prop)
    (st : Step W A) :
  (forall w w', R w w' -> R' w w') -> (forall r, Q r -> Q' r) ->
  StepSat R Q st -> StepSat R' Q' st.
Proof.
  intros HR HQ. induction st as [r|k IH] using Step_ind; simpl; [apply HQ|].
  intros H w. destruct (H w) as [H1 H2]. split; [apply HR, H1|apply IH, H2].
Qed.

Lemma StepSat_run {A} (Q : exn + A -> Prop) (st : Step W A) :
  StepSat R Q st ->
  forall w0 w, R w0 w -> R w0 (fst (runStep st w)) /\ Q (snd (runStep st w)).
Proof.
  induction st as [r|k IH] using Step_ind; simpl; intros Hst w0 w Hw; [auto|].
  destruct (Hst w) as [H1 H2].
  specialize (IH w H2 w0 (fst (k w))).
  destruct (k w) as [w1 st1]. simpl in *. apply IH. etransitivity; eassumption.
Qed.

Lemma Sat_run {A} (Q : exn + A -> Prop) (m : Async W A) :
  Sat R Q m -> forall w, R w (fst (run m w)) /\ Q (snd (run m w)).
Proof.
  intros Hm w. unfold run. destruct (Hm w) as [H1 H2].
  destruct (m w) as [w1 st]. simpl in *. apply StepSat_run; assumption.
Qed.

End SatRules.

Lemma Sat_weaken {W A} (R R' : W -> W -> Prop) (Q Q' : exn + A -> Prop)
    (m : Async W A) :
  (forall w w', R w w' -> R' w w') -> (forall r, Q r -> Q' r) ->
  Sat R Q m -> Sat R' Q' m.
Proof.
  intros HR HQ Hm w. destruct (Hm w) as [H1 H2].
  split; [apply HR, H1|eapply StepSat_weaken; eassumption].
Qed.

End AsyncFacts.

(** ** The map *)

Module JsMapFacts.
Section Facts.
Context {V : Type}.
Implicit Types (m : JsMap.t V) (k : string) (v : V).

Lemma get_set_eq k v m : JsMap.get k (JsMap.set k v m) = Some v.
Proof.
  induction m as [|[k' v'] m IH]; simpl.
  - rewrite String.eqb_refl. reflexivity.
  - destruct (String.eqb k' k) eqn:E; simpl.
    + rewrite String.eqb_refl. reflexivity.
    + rewrite E. exact IH.
Qed.

Lemma get_set_ne k k' v m :
  k <> k' -> JsMap.get k' (JsMap.set k v m) = JsMap.get k' m.
Proof.
  intros Hne. induction m as [|[k0 v0] m IH]; simpl.
  - apply String.eqb_neq in Hne. rewrite Hne. reflexivity.
  - destruct (String.eqb k0 k) eqn:E; simpl.
    + apply String.eqb_eq in E. subst k0.
      apply String.eqb_neq in Hne. rewrite Hne. reflexivity.
    + destruct (String.eqb k0 k'); [reflexivity|exact IH].
Qed.

Lemma get_In k v m : JsMap.get k m = Some v -> In (k, v) m.
Proof.
  induction m as [|[k' v'] m IH]; simpl; [discriminate|].
  destruct (String.eqb k' k) eqn:E.
  - apply String.eqb_eq in E. intros [= ->]. left. congruence.
  - intros H. right. auto.
Qed.

Lemma get_values k v m : JsMap.get k m = Some v -> In v (JsMap.values m).
Proof.
  intros H. apply get_In in H. unfold JsMap.values.
  change v with (snd (k, v)). apply in_map. exact H.
Qed.

Lemma In_get k v m : List.NoDup (JsMap.keys m) -> In (k, v) m -> JsMap.get k m = Some v.
Proof.
  induction m as [|[k' v'] m IH]; simpl; [tauto|].
  intros Hnd [Heq|Hin].
  - injection Heq as -> ->. rewrite String.eqb_refl. reflexivity.
  - apply List.NoDup_cons_iff in Hnd as [Hnot Hnd].
    destruct (String.eqb k' k) eqn:E.
    + apply String.eqb_eq in E. subst k'. exfalso. apply Hnot.
      change k with (fst (k, v)). apply in_map. exact Hin.
    + auto.
Qed.

Lemma get_None_keys k m : JsMap.get k m = None <-> ~ In k (JsMap.keys m).
Proof.
  induction m as [|[k' v'] m IH]; simpl; [tauto|].
  destruct (String.eqb k' k) eqn:E.
  - apply String.eqb_eq in E. split; [discriminate|]. intros H. exfalso. auto.
  - apply String.eqb_neq in E. rewrite IH. tauto.
Qed.

Lemma set_fresh k v m : ~ In k (JsMap.keys m) -> JsMap.set k v m = m ++ [(k, v)].
Proof.
  induction m as [|[k' v'] m IH]; simpl; [reflexivity|].
  intros H. destruct (String.eqb k' k) eqn:E.
  - apply String.eqb_eq in E. tauto.
  - rewrite IH by tauto. reflexivity.
Qed.

Lemma keys_set_present k v m :
  In k (JsMap.keys m) -> JsMap.keys (JsMap.set k v m) = JsMap.keys m.
Proof.
  induction m as [|[k' v'] m IH]; simpl; [tauto|].
  intros H. destruct (String.eqb k' k) eqn:E; simpl.
  - apply String.eqb_eq in E. congruence.
  - f_equal. apply IH. destruct H as [H|H]; [|exact H].
    apply String.eqb_neq in E. congruence.
Qed.

Lemma In_set k v m kv :
  In kv (JsMap.set k v m) -> kv = (k, v) \/ In kv m.
Proof.
  induction m as [|[k' v'] m IH]; simpl.
  - intros [H|[]]. auto.
  - destruct (String.eqb k' k); simpl; intros [H|H]; auto.
    destruct (IH H); auto.
Qed.

Lemma NoDup_keys_set k v m :
  List.NoDup (JsMap.keys m) -> List.NoDup (JsMap.keys (JsMap.set k v m)).
Proof.
  intros Hnd. destruct (in_dec string_dec k (JsMap.keys m)) as [Hin|Hnot].
  - rewrite keys_set_present by exact Hin. exact Hnd.
  - rewrite set_fresh by exact Hnot. unfold JsMap.keys. rewrite map_app. simpl.
    apply List.NoDup_app; [exact Hnd| |].
    + apply List.NoDup_cons; [intros []|apply List.NoDup_nil].
    + intros x Hx [<-|[]]. apply Hnot. exact Hx.
Qed.

Lemma In_delete k m kv : In kv (JsMap.delete k m) -> In kv m.
Proof.
  induction m as [|[k' v'] m IH]; simpl; [tauto|].
  destruct (String.eqb k' k); simpl; [auto|]. intros [H|H]; auto.
Qed.

Lemma NoDup_keys_delete k m :
  List.NoDup (JsMap.keys m) -> List.NoDup (JsMap.keys (JsMap.delete k m)).
Proof.
  induction m as [|[k' v'] m IH]; simpl; [auto|].
  intros Hnd. apply List.NoDup_cons_iff in Hnd as [Hnot Hnd].
  destruct (String.eqb k' k); simpl; [exact Hnd|].
  apply List.NoDup_cons; [|auto].
  intros Hin. apply Hnot. unfold JsMap.keys in *.
  apply in_map_iff in Hin as ([k0 v0] & Hk & Hin). simpl in Hk. subst k0.
  apply In_delete in Hin. change k' with (fst (k', v0)). apply in_map. exact Hin.
Qed.

End Facts.
End JsMapFacts.

(** ** Registry *)

Module RegistryFacts.
Import Scanner Json Metadata Host Async Registry.
Import AsyncTerms AsyncFacts RegistryTerms JsMapFacts.

(** *** Running the asynchronous methods alone *)

Lemma run_save (w : World) : run save w = (saved w, inr tt).
Proof.
  unfold save, saved. monad. rewrite run_try_catch, run_bind, run_io.
  destruct (mkdirError (env w)) as [e|]; [reflexivity|].
  rewrite run_bind, run_get, run_io.
  destruct (writeError (env w)) as [e|]; reflexivity.
Qed.

Lemma run_load (w : World) :
  run load w = (set_projects (fun _ => loaded (file w)) w, inr tt).
Proof.
  unfold load, loaded. monad. rewrite run_try_catch, run_bind, run_io.
  destruct (file w) as [parsed|]; [|reflexivity].
  destruct (stored_projects parsed) as [ps|]; reflexivity.
Qed.

Lemma run_addProject (project : DiscoveredProject) (w : World) :
  run (addProject project) w =
  (saved (set_projects (addProject_map project) w), inr tt).
Proof.
  unfold addProject. monad. rewrite run_bind, run_modify. apply run_save.
Qed.

Lemma run_removeProject (projectPath : string) (w : World) :
  run (removeProject projectPath) w =
  (saved (set_projects (JsMap.delete projectPath) w), inr tt).
Proof.
  unfold removeProject. monad. rewrite run_bind, run_modify. apply run_save.
Qed.

Lemma run_updateIndexStatus projectPath status metadata (w : World) :
  run (updateIndexStatus projectPath status metadata) w =
  match JsMap.get projectPath (projects w) with
  | None => (w, inr tt)
  | Some _ =>
      (saved (set_projects
                (updateIndexStatus_map projectPath status metadata (now (env w)))
                w), inr tt)
  end.
Proof.
  unfold updateIndexStatus. monad. rewrite run_bind, run_get.
  destruct (JsMap.get projectPath (projects w)); [|reflexivity].
  rewrite run_bind, run_modify. apply run_save.
Qed.

Lemma projects_saved (w : World) : projects (saved w) = projects w.
Proof.
  unfold saved. destruct (mkdirError (env w)), (writeError (env w)); reflexivity.
Qed.

Lemma env_saved (w : World) : env (saved w) = env w.
Proof.
  unfold saved. destruct (mkdirError (env w)), (writeError (env w)); reflexivity.
Qed.

Lemma isIndexing_saved (w : World) : isIndexing (saved w) = isIndexing w.
Proof.
  unfold saved. destruct (mkdirError (env w)), (writeError (env w)); reflexivity.
Qed.

(** *** The JSON shape *)








(** *** Rebuilding the map from its values *)



(** *** The invariant is kept by every method *)

Lemma keyed_nil : keyed [].
Proof. split; [apply List.NoDup_nil|constructor]. Qed.

Lemma keyed_set k v (m : JsMap.t ProjectMetadata) :
  path (discovered v) = k -> keyed m -> keyed (JsMap.set k v m).
Proof.
  intros Hk [Hnd Hkey]. split; [apply NoDup_keys_set, Hnd|].
  apply List.Forall_forall. intros kv Hin. apply In_set in Hin as [->|Hin].
  - exact Hk.
  - rewrite List.Forall_forall in Hkey. apply Hkey, Hin.
Qed.

Lemma keyed_delete k (m : JsMap.t ProjectMetadata) :
  keyed m -> keyed (JsMap.delete k m).
Proof.
  intros [Hnd Hkey]. split; [apply NoDup_keys_delete, Hnd|].
  apply List.Forall_forall. intros kv Hin. apply In_delete in Hin.
  rewrite List.Forall_forall in Hkey. apply Hkey, Hin.
Qed.

Lemma keyed_get k v (m : JsMap.t ProjectMetadata) :
  keyed m -> JsMap.get k m = Some v -> path (discovered v) = k.
Proof.
  intros [_ Hkey] Hget. apply get_In in Hget.
  rewrite List.Forall_forall in Hkey. apply (Hkey (k, v) Hget).
Qed.

Lemma keyed_addProject project m : keyed m -> keyed (addProject_map project m).
Proof. intros H. unfold addProject_map. apply keyed_set; [reflexivity|exact H]. Qed.

Lemma discovered_updateIndexStatus_entry status metadata now p :
  discovered (updateIndexStatus_entry status metadata now p) = discovered p.
Proof. unfold updateIndexStatus_entry. destruct metadata; reflexivity. Qed.

Lemma keyed_updateIndexStatus projectPath status metadata now m :
  keyed m -> keyed (updateIndexStatus_map projectPath status metadata now m).
Proof.
  intros H. unfold updateIndexStatus_map.
  destruct (JsMap.get projectPath m) as [p|] eqn:Hget; [|exact H].
  apply keyed_set; [|exact H].
  rewrite discovered_updateIndexStatus_entry. eapply keyed_get; eassumption.
Qed.

Lemma keyed_rebuild ps : keyed (rebuild ps).
Proof.
  unfold rebuild. generalize keyed_nil. generalize (@nil (string * ProjectMetadata)).
  induction ps as [|p ps IH]; intros m Hm; simpl; [exact Hm|].
  apply IH, keyed_set; [reflexivity|exact Hm].
Qed.

End RegistryFacts.

Module RegistrySpec.
Import Scanner Json Metadata Host Async Registry.
Import AsyncTerms AsyncFacts RegistryTerms JsMapFacts RegistryFacts.

Lemma needsIndex_spec (now : Z) (p : ProjectMetadata) :
  ONE_DAY < now ->
  needsIndex now p = true <->
  (lastIndexed p = None \/ indexStatus p = failed
   \/ exists t, lastIndexed p = Some t /\ ONE_DAY < now - t).
Proof.
  intros Hnow. unfold needsIndex.
  destruct (lastIndexed p) as [t|]; [|split; auto].
  destruct (Z.eqb_spec t 0) as [->|Hne].
  { split; [|reflexivity]. intros _. right. right. exists 0.
    split; [reflexivity|lia]. }
  assert (Hold : (now - t >? ONE_DAY) = true <-> ONE_DAY < now - t)
    by (rewrite Z.gtb_ltb; apply Z.ltb_lt).
  assert (Hstale : (exists t', Some t = Some t' /\ ONE_DAY < now - t')
                   <-> ONE_DAY < now - t).
  { split; [intros (t' & [= <-] & H); exact H|intros H; exists t; auto]. }
  rewrite Hstale, <- Hold.
  destruct (indexStatus p); simpl; destruct (now - t >? ONE_DAY);
    split; intros H; try reflexivity; auto;
    destruct H as [H|[H|H]]; congruence.
Qed.

(** C5.  With the clock more than a day past the epoch,
    [getProjectsNeedingIndex] returns exactly the registered projects whose
    [lastIndexed] is absent, or whose status is failed, or whose
    [lastIndexed] lies more than 24 hours back.  So a project indexed 25
    hours ago is returned, a completed one indexed an hour ago is not, and
    a failed one is returned whatever its timestamp. *)
Theorem C5_staleness_selection (now : Z) (m : JsMap.t ProjectMetadata) :
  ONE_DAY < now ->
  (forall p,
     In p (getProjectsNeedingIndex now m) <->
     In p (getAllProjects m) /\
     (lastIndexed p = None \/ indexStatus p = failed
      \/ exists t, lastIndexed p = Some t /\ 24 * 60 * 60 * 1000 < now - t))
  /\ (forall p, In p (getAllProjects m) ->
                lastIndexed p = Some (now - 25 * 60 * 60 * 1000) ->
                In p (getProjectsNeedingIndex now m))
  /\ (forall p, indexStatus p = completed ->
                lastIndexed p = Some (now - 1 * 60 * 60 * 1000) ->
                ~ In p (getProjectsNeedingIndex now m))
  /\ (forall p, In p (getAllProjects m) -> indexStatus p = failed ->
                In p (getProjectsNeedingIndex now m)).
Proof.
  intros Hnow.
  assert (Hiff : forall p,
             In p (getProjectsNeedingIndex now m) <->
             In p (getAllProjects m) /\
             (lastIndexed p = None \/ indexStatus p = failed
              \/ exists t, lastIndexed p = Some t /\ ONE_DAY < now - t)).
  { intros p. unfold getProjectsNeedingIndex. rewrite List.filter_In.
    rewrite (needsIndex_spec now p Hnow). reflexivity. }
  split; [exact Hiff|]. unfold ONE_DAY in *. repeat split.
  - intros p Hin Hlast. apply Hiff. split; [exact Hin|].
    right. right. eexists. split; [exact Hlast|lia].
  - intros p Hst Hlast Hin. apply Hiff in Hin as [_ [H|[H|(t & H & Ht)]]];
      try congruence. rewrite Hlast in H. injection H as <-. lia.
  - intros p Hin Hst. apply Hiff. auto.
Qed.

Lemma C5_witness :
  let now := 1700000000000 in
  let stale := sampleMetadata "/w/stale" go completed
                 (Some (now - 25 * 60 * 60 * 1000)) None in
  let fresh := sampleMetadata "/w/fresh" python completed
                 (Some (now - 1 * 60 * 60 * 1000)) None in
  let broken := sampleMetadata "/w/broken" nodejs failed
                  (Some (now - 1 * 60 * 60 * 1000)) (Some "boom") in
  let m := [("/w/stale", stale); ("/w/fresh", fresh); ("/w/broken", broken)] in
  In stale (getProjectsNeedingIndex now m)
  /\ ~ In fresh (getProjectsNeedingIndex now m)
  /\ In broken (getProjectsNeedingIndex now m).
Proof.
  intros now stale fresh broken m.
  assert (Hnow : ONE_DAY < now) by (vm_compute; reflexivity).
  destruct (C5_staleness_selection now m Hnow) as (_ & H25 & H1 & Hfailed).
  split; [|split].
  - apply H25; [simpl; auto|reflexivity].
  - apply H1; reflexivity.
  - apply Hfailed; [simpl; auto|reflexivity].
Defined.

(** *** addProject *)

Lemma addProject_entry_idem project existing :
  addProject_entry project (Some (addProject_entry project existing)) =
  addProject_entry project existing.
Proof. destruct existing; reflexivity. Qed.

Lemma set_set_eq {V} k (v v' : V) (m : JsMap.t V) :
  JsMap.set k v' (JsMap.set k v m) = JsMap.set k v' m.
Proof.
  induction m as [|[k0 v0] m IH]; simpl.
  - rewrite String.eqb_refl. reflexivity.
  - destruct (String.eqb k0 k) eqn:E; simpl.
    + rewrite String.eqb_refl. reflexivity.
    + rewrite E, IH. reflexivity.
Qed.

(** What [addProject] does keep: for a path already registered, the new
    entry takes the discovered fields from the argument and the status,
    the time of the last pass and the three counts from the old entry. *)
Lemma addProject_map_keeps project existing (m : JsMap.t ProjectMetadata) :
  JsMap.get (path project) m = Some existing ->
  exists entry,
    JsMap.get (path project) (addProject_map project m) = Some entry /\
    discovered entry = project /\
    indexStatus entry = indexStatus existing /\
    lastIndexed entry = lastIndexed existing /\
    symbolCount entry = symbolCount existing /\
    testCount entry = testCount existing /\
    docCount entry = docCount existing /\
    error entry = None.
Proof.
  intros Hget. unfold addProject_map. rewrite Hget, get_set_eq.
  eexists. split; [reflexivity|]. simpl. tauto.
Qed.

Lemma addProject_map_idem project (m : JsMap.t ProjectMetadata) :
  addProject_map project (addProject_map project m) = addProject_map project m.
Proof.
  assert (Hget : JsMap.get (path project) (addProject_map project m) =
                 Some (addProject_entry project (JsMap.get (path project) m)))
    by (unfold addProject_map; apply get_set_eq).
  unfold addProject_map at 1. rewrite Hget. unfold addProject_map.
  rewrite addProject_entry_idem. apply set_set_eq.
Qed.

(** C6, at an input where the code departs from it.  A project whose last
    pass failed with a recorded message is discovered again: [addProject]
    keeps its status "failed", its timestamp and its counts, and the
    error message is gone. *)
Theorem C6_addProject_drops_error :
  let p := "/home/u/Projects/svc" in
  let old := {| discovered := sampleProject p go;
                lastIndexed := Some 1699990000000;
                indexStatus := failed;
                symbolCount := Some 12; testCount := Some 3; docCount := Some 1;
                error := Some "analysis crashed" |} in
  let w := worldOf (quietEnv 1700000000000) [(p, old)] in
  let w' := fst (run (addProject (sampleProject p mixed)) w) in
  JsMap.get p (projects w') =
    Some {| discovered := sampleProject p mixed;
            lastIndexed := Some 1699990000000;
            indexStatus := failed;
            symbolCount := Some 12; testCount := Some 3; docCount := Some 1;
            error := None |}
  /\ (JsMap.get p (projects w) ≫= error) = Some "analysis crashed"
  /\ (JsMap.get p (projects w') ≫= error) = None.
Proof. vm_compute. repeat split. Qed.

(** *** save and load *)

(** Every method of the registry, run to its end, leaves the map keyed. *)
Lemma keyed_kept (w : World) :
  keyed (projects w) ->
  keyed (projects (fst (run load w)))
  /\ keyed (projects (fst (run save w)))
  /\ (forall project, keyed (projects (fst (run (addProject project) w))))
  /\ (forall projectPath, keyed (projects (fst (run (removeProject projectPath) w))))
  /\ (forall projectPath status metadata,
        keyed (projects (fst (run (updateIndexStatus projectPath status metadata) w)))).
Proof.
  intros H. split; [|split; [|split; [|split]]]; intros.
  - rewrite run_load. simpl. unfold loaded.
    destruct (file w) as [parsed|]; [|apply keyed_nil].
    destruct (stored_projects parsed); [apply keyed_rebuild|apply keyed_nil].
  - rewrite run_save. simpl. rewrite projects_saved. exact H.
  - rewrite run_addProject. simpl. rewrite projects_saved. simpl.
    apply keyed_addProject, H.
  - rewrite run_removeProject. simpl. rewrite projects_saved. simpl.
    apply keyed_delete, H.
  - rewrite run_updateIndexStatus.
    destruct (JsMap.get projectPath (projects w)); [|exact H].
    simpl. rewrite projects_saved. simpl. apply keyed_updateIndexStatus, H.
Qed.



(** *** updateIndexStatus *)

(** C10.  [updateIndexStatus(path, "completed", {symbolCount, testCount,
    docCount})] on an entry that carries an error message leaves the
    message where it is: the entry ends with status completed, a fresh
    [lastIndexed], the new counts and the old error, and [listProjects]
    shows that error. *)
Theorem C10_completed_keeps_stale_error
    (w : World) (projectPath : string) (p : ProjectMetadata) (e : string)
    (sc tc dc : Z) :
  JsMap.get projectPath (projects w) = Some p ->
  error p = Some e ->
  let patch := {| p_symbolCount := Some sc; p_testCount := Some tc;
                  p_docCount := Some dc; p_error := None |} in
  let w' := fst (run (updateIndexStatus projectPath completed (Some patch)) w) in
  exists p',
    JsMap.get projectPath (projects w') = Some p' /\
    indexStatus p' = completed /\
    lastIndexed p' = Some (now (env w)) /\
    symbolCount p' = Some sc /\ testCount p' = Some tc /\ docCount p' = Some dc /\
    error p' = Some e /\
    let listed := snd (Projects.listProjects (toISOString (env w'))
                         (Projects.mkArgs None None None) (projects w')) in
    In (Projects.view (toISOString (env w')) p') listed /\
    Projects.l_error (Projects.view (toISOString (env w')) p') = Some e /\
    Projects.l_indexStatus (Projects.view (toISOString (env w')) p') = completed.
Proof.
  intros Hget Herr patch w'. subst w'.
  rewrite run_updateIndexStatus, Hget. simpl.
  rewrite projects_saved. simpl.
  unfold updateIndexStatus_map. rewrite Hget.
  eexists. split; [apply get_set_eq|].
  simpl. repeat split; try assumption.
  unfold Projects.listProjects. simpl. apply in_map.
  eapply get_values. apply get_set_eq.
Qed.

Lemma C10_witness :
  let old := {| discovered := sampleProject "/w/a" go;
                lastIndexed := None; indexStatus := failed;
                symbolCount := None; testCount := None; docCount := None;
                error := Some "Collection not initialized" |} in
  let w := worldOf (quietEnv 1700000000000) [("/w/a", old)] in
  let patch := {| p_symbolCount := Some 7; p_testCount := Some 2;
                  p_docCount := Some 1; p_error := None |} in
  exists p',
    JsMap.get "/w/a"
      (projects (fst (run (updateIndexStatus "/w/a" completed (Some patch)) w)))
      = Some p' /\
    indexStatus p' = completed /\
    error p' = Some "Collection not initialized".
Proof.
  intros old w patch.
  destruct (C10_completed_keeps_stale_error w "/w/a" old
              "Collection not initialized" 7 2 1 eq_refl eq_refl)
    as (p' & Hget & Hst & _ & _ & _ & _ & Herr & _).
  exists p'. auto.
Defined.

End RegistrySpec.

(** ** File watcher *)

Module WatcherSpec.
Import Scanner Metadata RegistryTerms FileWatcher WatcherTerms.

(** What [handleFileChange] does with an event, exactly. *)
Lemma handleFileChange_discards project filename s :
  shouldIgnoreFile filename = true
  \/ isSourceFile filename (language (discovered project)) = false ->
  handleFileChange project filename s = s.
Proof.
  unfold handleFileChange. intros [H|H]; rewrite H; [reflexivity|].
  destruct (shouldIgnoreFile filename); reflexivity.
Qed.

Lemma handleFileChange_arms project filename s :
  shouldIgnoreFile filename = false ->
  isSourceFile filename (language (discovered project)) = true ->
  handleFileChange project filename s = debounceReindex project s.
Proof. unfold handleFileChange. intros -> ->. reflexivity. Qed.

(** For a "mixed" project the extensions of all three languages count. *)
Lemma isSourceFile_mixed filename :
  isSourceFile filename mixed =
  isSourceFile filename go || isSourceFile filename python
  || isSourceFile filename nodejs.
Proof.
  unfold isSourceFile, Js.includes. simpl.
  destruct (String.eqb (Js.extname filename) ".go"),
           (String.eqb (Js.extname filename) ".py"); reflexivity.
Qed.

(** The substring test does discard everything under a denylisted
    directory. *)
Lemma append_cons (a : ascii) (s t : string) :
  String a s +:+ t = String a (s +:+ t).
Proof. reflexivity. Qed.

Lemma append_nil (t : string) : "" +:+ t = t.
Proof. reflexivity. Qed.

Lemma prefix_append (s t : string) : String.prefix s (s +:+ t) = true.
Proof.
  induction s as [|c s IH]; [rewrite append_nil; destruct t; reflexivity|].
  rewrite append_cons. simpl. rewrite IH.
  destruct (ascii_dec c c); [reflexivity|congruence].
Qed.

Lemma str_includes_prefix (d h : string) :
  String.prefix d h = true -> Js.str_includes d h = true.
Proof. destruct h; simpl; intros ->; reflexivity. Qed.

Lemma str_includes_here (d t : string) : Js.str_includes d (d +:+ t) = true.
Proof. apply str_includes_prefix, prefix_append. Qed.

Lemma str_includes_later (d s t : string) :
  Js.str_includes d t = true -> Js.str_includes d (s +:+ t) = true.
Proof.
  intros H. induction s as [|c s IH]; [rewrite append_nil; exact H|].
  rewrite append_cons. simpl. rewrite IH. apply orb_true_r.
Qed.

Lemma append_snoc (acc : string) (c : ascii) (rest : string) :
  (acc +:+ String c "") +:+ rest = acc +:+ String c rest.
Proof.
  induction acc as [|a acc IH]; [reflexivity|].
  rewrite !append_cons, IH. reflexivity.
Qed.

Lemma split_path_includes (p : string) :
  forall acc d,
    In d (split_path_aux acc p) -> Js.str_includes d (acc +:+ p) = true.
Proof.
  induction p as [|c rest IH]; intros acc d; simpl.
  - intros [<-|[]]. apply str_includes_here.
  - destruct (Ascii.eqb c "/") eqn:Hc.
    + intros [<-|Hin]; [apply str_includes_here|].
      apply str_includes_later.
      pose proof (IH "" d Hin) as Hrest. rewrite append_nil in Hrest.
      simpl. rewrite Hrest. apply orb_true_r.
    + intros Hin. rewrite <- append_snoc. apply IH, Hin.
Qed.

Lemma In_removelast {A} (x : A) (l : list A) : In x (removelast l) -> In x l.
Proof.
  induction l as [|a l IH]; simpl; [tauto|].
  destruct l as [|b l]; [intros []|]. intros [H|H]; [auto|right; apply IH, H].
Qed.

Lemma underIgnoredDirectory_ignored (filename : string) :
  underIgnoredDirectory filename = true -> shouldIgnoreFile filename = true.
Proof.
  unfold underIgnoredDirectory, shouldIgnoreFile, directoriesOf.
  intros H. apply existsb_exists in H as (d & Hd & Hign).
  apply In_removelast in Hd.
  apply (split_path_includes filename "" d) in Hd. rewrite append_nil in Hd.
  unfold Js.includes in Hign. apply existsb_exists in Hign as (ip & Hip & Heq).
  apply String.eqb_eq in Heq. subst ip.
  apply existsb_exists. exists d. auto.
Qed.

(** C8, at an input where the code departs from it.  "src/environment.ts"
    in a Node.js project lies under no denylisted directory and has a
    recognized extension, and the event is discarded all the same: the
    denylist is matched against the file name as a substring, and
    "environment" contains "env".  The same file under "lib/" arms the
    timer. *)
Theorem C8_substring_match_discards_source_file :
  underIgnoredDirectory "src/environment.ts" = false
  /\ isSourceFile "src/environment.ts" nodejs = true
  /\ shouldIgnoreFile "src/environment.ts" = true
  /\ notify "/w/web" (Some "src/environment.ts") watching = watching
  /\ debounceTimers (notify "/w/web" (Some "src/environment.ts") watching)
       !! "/w/web" = None
  /\ debounceTimers (notify "/w/web" (Some "src/index.ts") watching)
       !! "/w/web" = Some 0%nat.
Proof. vm_compute. repeat split. Qed.

(** C2, at an input where the code departs from it.  A burst of two
    changes, 4500 ms apart, arrives while the re-index started by an
    earlier change is running, and that re-index ends between the two:
    its [finally] deletes the entry of the timer armed by the first change
    of the burst, the second change finds no timer to clear, and both
    timers fire.  [reindexProject] is called twice for the burst, at 11000
    and at 15500, the first time 500 ms after the last change. *)
Theorem C2_overlapping_burst_reindexes_twice :
  callsFor "/w/svc" (steps watching overlappingBurst) =
    [("/w/svc", 5000); ("/w/svc", 11000); ("/w/svc", 15500)]
  /\ callsFor "/w/web" (steps watching overlappingBurst) = [].
Proof. vm_compute. split; reflexivity. Qed.

(** *** From an idle watcher the debounce does coalesce *)

Lemma isSourceFile_nonempty l : isSourceFile "" l = false.
Proof. destruct l; reflexivity. Qed.

Lemma notify_qualifying s projectPath project filename :
  watchers s !! projectPath = Some project ->
  qualifies (language (discovered project)) filename ->
  notify projectPath (Some filename) s = debounceReindex project s.
Proof.
  intros Hw [Hign Hsrc]. unfold notify. rewrite Hw.
  destruct filename as [|c f].
  - rewrite isSourceFile_nonempty in Hsrc. discriminate.
  - apply handleFileChange_arms; assumption.
Qed.

Lemma advance_before_due s h t0 project t :
  armed s = [mkTimer h (t0 + debounceDelay) project] ->
  clock s <= t -> t < t0 + debounceDelay ->
  advance t s =
  mkState (watchers s) (debounceTimers s) (armed s) (nextHandle s) t
          (inflight s) (reindexCalls s).
Proof.
  intros Harmed Hclock Hlt. unfold advance. rewrite Harmed. simpl.
  rewrite Z.max_l by lia.
  destruct (Z.leb_spec (t0 + debounceDelay) t); [lia|]. reflexivity.
Qed.

Lemma advance_idle s t :
  armed s = [] -> clock s <= t ->
  advance t s =
  mkState (watchers s) (debounceTimers s) [] (nextHandle s) t
          (inflight s) (reindexCalls s).
Proof.
  intros Harmed Hclock. unfold advance. rewrite Harmed. simpl.
  rewrite Z.max_l by lia. reflexivity.
Qed.

Lemma advance_after_due s h t0 project t :
  armed s = [mkTimer h (t0 + debounceDelay) project] ->
  clock s <= t -> t0 + debounceDelay <= t ->
  reindexCalls (advance t s) =
  reindexCalls s ++ [(path (discovered project), t)].
Proof.
  intros Harmed Hclock Hle. unfold advance. rewrite Harmed. simpl.
  rewrite Z.max_l by lia.
  destruct (Z.leb_spec (t0 + debounceDelay) t); [|lia]. reflexivity.
Qed.

Lemma last_default {A} (a : A) (l : list A) (d d' : A) :
  List.last (a :: l) d = List.last (a :: l) d'.
Proof.
  revert a. induction l as [|b l IH]; intros a; [reflexivity|].
  change (List.last (b :: l) d = List.last (b :: l) d'). apply IH.
Qed.

Lemma lastTime_cons t0 t f rest : lastTime t0 ((t, f) :: rest) = lastTime t rest.
Proof.
  unfold lastTime. simpl map. destruct (map fst rest) as [|b l]; [reflexivity|].
  change (List.last (b :: l) t0 = List.last (b :: l) t). apply last_default.
Qed.

Lemma debounceReindex_again project s h d :
  debounceTimers s !! path (discovered project) = Some h ->
  armed s = [mkTimer h d project] ->
  debounceReindex project s =
  mkState (watchers s)
          (<[path (discovered project) := nextHandle s]> (debounceTimers s))
          [mkTimer (nextHandle s) (clock s + debounceDelay) project]
          (S (nextHandle s)) (clock s) (inflight s) (reindexCalls s).
Proof.
  intros Hd Ha. unfold debounceReindex. rewrite Hd, Ha. simpl.
  rewrite Nat.eqb_refl. reflexivity.
Qed.

Lemma debounceReindex_first project s :
  armed s = [] ->
  debounceReindex project s =
  mkState (watchers s)
          (<[path (discovered project) := nextHandle s]> (debounceTimers s))
          [mkTimer (nextHandle s) (clock s + debounceDelay) project]
          (S (nextHandle s)) (clock s) (inflight s) (reindexCalls s).
Proof.
  intros Ha. unfold debounceReindex. rewrite Ha.
  destruct (debounceTimers s !! path (discovered project)); reflexivity.
Qed.

(** After a change at [t0] that armed the only timer, the rest of a tight
    burst leaves one timer, armed by its last change. *)
Lemma burst_rearms projectPath project (burst : list (Z * string)) :
  forall s h t0,
    watchers s !! projectPath = Some project ->
    path (discovered project) = projectPath ->
    debounceTimers s !! projectPath = Some h ->
    armed s = [mkTimer h (t0 + debounceDelay) project] ->
    clock s = t0 ->
    tight t0 burst ->
    match burst with [] => True | c :: _ => fst c < t0 + debounceDelay end ->
    Forall (fun c => qualifies (language (discovered project)) (snd c)) burst ->
    exists s' h',
      steps s (burstEvents projectPath burst) = s' /\
      watchers s' !! projectPath = Some project /\
      debounceTimers s' !! projectPath = Some h' /\
      armed s' = [mkTimer h' (lastTime t0 burst + debounceDelay) project] /\
      clock s' = lastTime t0 burst /\
      reindexCalls s' = reindexCalls s.
Proof.
  induction burst as [|[t f] rest IH]; intros s h t0 Hw Hp Hd Ha Hc Ht Hgap Hq.
  - exists s, h. simpl. unfold lastTime. simpl. subst t0. repeat split; assumption.
  - simpl in Ht, Hgap. destruct Ht as (Hle & Hrest & Hnext).
    apply Forall_cons in Hq as [Hqf Hqrest]. simpl in Hqf.
    set (s0 := mkState (watchers s) (debounceTimers s) (armed s) (nextHandle s) t
                 (inflight s) (reindexCalls s)).
    set (s1 := mkState (watchers s)
                 (<[projectPath := nextHandle s]> (debounceTimers s))
                 [mkTimer (nextHandle s) (t + debounceDelay) project]
                 (S (nextHandle s)) t (inflight s) (reindexCalls s)).
    assert (Hadv : advance t s = s0)
      by (apply (advance_before_due s h t0 project t Ha); lia).
    assert (Hnot : notify projectPath (Some f) s0 = s1).
    { rewrite (notify_qualifying s0 projectPath project f Hw Hqf).
      rewrite (debounceReindex_again project s0 h (t0 + debounceDelay));
        [rewrite Hp; reflexivity|rewrite Hp; exact Hd|exact Ha]. }
    destruct (IH s1 (nextHandle s) t) as (s' & h' & Hsteps & Hw' & Hd' & Ha' & Hc' & Hcalls').
    + exact Hw.
    + exact Hp.
    + apply lookup_insert_eq.
    + reflexivity.
    + reflexivity.
    + exact Hrest.
    + destruct rest as [|c' rest']; [exact I|exact Hnext].
    + exact Hqrest.
    + exists s', h'. rewrite lastTime_cons.
      split; [|repeat split; assumption].
      simpl. rewrite Hadv, Hnot. exact Hsteps.
Qed.

(** From a watcher with no timer armed, a burst of one or more qualifying
    changes to one project, each less than the debounce delay after the
    one before, followed by the delay, makes exactly one call of
    [reindexProject], for that project, at the end of the delay. *)
Lemma debounce_coalesces_from_idle s projectPath project c burst T :
  watchers s !! projectPath = Some project ->
  path (discovered project) = projectPath ->
  armed s = [] ->
  clock s <= fst c ->
  tight (fst c) burst ->
  match burst with [] => True | c' :: _ => fst c' < fst c + debounceDelay end ->
  Forall (fun c => qualifies (language (discovered project)) (snd c)) (c :: burst) ->
  lastTime (fst c) burst + debounceDelay <= T ->
  reindexCalls (steps s (burstEvents projectPath (c :: burst) ++ [Advance T])) =
  reindexCalls s ++ [(projectPath, T)].
Proof.
  intros Hw Hp Ha Hc Ht Hgap Hq HT.
  apply Forall_cons in Hq as [Hqc Hqrest]. destruct c as [t f]. simpl in *.
  set (s0 := mkState (watchers s) (debounceTimers s) [] (nextHandle s) t
               (inflight s) (reindexCalls s)).
  set (s1 := mkState (watchers s)
               (<[projectPath := nextHandle s]> (debounceTimers s))
               [mkTimer (nextHandle s) (t + debounceDelay) project]
               (S (nextHandle s)) t (inflight s) (reindexCalls s)).
  assert (Hadv : advance t s = s0) by (apply advance_idle; assumption).
  assert (Hnot : notify projectPath (Some f) s0 = s1).
  { rewrite (notify_qualifying s0 projectPath project f Hw Hqc).
    rewrite (debounceReindex_first project s0 eq_refl). rewrite Hp. reflexivity. }
  destruct (burst_rearms projectPath project burst s1 (nextHandle s) t)
    as (s' & h' & Hsteps & Hw' & Hd' & Ha' & Hc' & Hcalls'); try assumption.
  { apply lookup_insert_eq. }
  { reflexivity. }
  { reflexivity. }
  unfold steps in *. rewrite fold_left_app. simpl.
  rewrite Hadv, Hnot, Hsteps.
  rewrite (advance_after_due s' h' (lastTime t burst) project T Ha');
    [rewrite Hcalls', Hp; reflexivity| |exact HT].
  rewrite Hc'. unfold debounceDelay in HT. lia.
Qed.

End WatcherSpec.

(** ** Indexer *)

Module IndexerFacts.
Import Scanner Json Metadata Host Async Registry Indexer.
Import AsyncTerms AsyncFacts RegistryTerms JsMapFacts RegistryFacts IndexerTerms.

#[export] Instance calls_only_preorder : PreOrder calls_only.
Proof.
  split.
  - intros w. unfold calls_only. auto.
  - intros a b c (H1 & H2 & H3 & H4) (G1 & G2 & G3 & G4).
    unfold calls_only. repeat split; congruence.
Qed.

#[export] Instance frame_preorder : PreOrder frame.
Proof.
  split.
  - intros w. unfold frame. auto.
  - intros a b c (H1 & H2) (G1 & G2). unfold frame. split; congruence.
Qed.

Lemma calls_only_frame w w' : calls_only w w' -> frame w w'.
Proof. intros (_ & _ & H1 & H2). split; assumption. Qed.

Lemma calls_only_log c w : calls_only w (log_call c w).
Proof. unfold calls_only. simpl. auto. Qed.

Section Rules.
Context (R : World -> World -> Prop) `{!PreOrder R}.

(** A computation that cannot throw, followed by another. *)
Lemma Sat_then {A B} (Q : exn + B -> Prop) (m : Async World A)
    (f : A -> Async World B) :
  Sat R fulfilled m -> (forall a, Sat R Q (f a)) -> Sat R Q (m ≫= f).
Proof.
  intros Hm Hf. monad. apply (Sat_bind R fulfilled); [exact Hm|auto|].
  intros e [].
Qed.

Lemma Sat_mret {A} (Q : exn + A -> Prop) (a : A) : Q (inr a) -> Sat R Q (mret a).
Proof. monad. apply Sat_ret; assumption. Qed.

Lemma Sat_await {A} (Q : exn + A -> Prop) (m : Async World A) :
  Sat R Q m -> Sat R Q (await m).
Proof.
  intros Hm. unfold await. monad.
  apply (Sat_bind R Q); [exact Hm| |auto].
  intros a Ha. apply (Sat_bind R fulfilled).
  - apply Sat_tick; [assumption|exact I].
  - intros _ _. apply Sat_ret; assumption.
  - intros e [].
Qed.

End Rules.

#[local] Hint Resolve calls_only_log : core.

Lemma Sat_callTool tool projectPath :
  Sat calls_only fulfilled (callTool tool projectPath).
Proof.
  unfold callTool. apply (Sat_then calls_only); [|intros ?].
  - apply (Sat_modify calls_only); [auto|exact I].
  - apply (Sat_io calls_only); [intros; simpl; reflexivity|intros; exact I].
Qed.

Lemma Sat_addDocs docs : Sat calls_only fulfilled (addDocs docs).
Proof.
  unfold addDocs. apply (Sat_then calls_only); [|intros ?].
  - apply (Sat_modify calls_only); [auto|exact I].
  - apply (Sat_io calls_only); [intros; simpl; reflexivity|intros; exact I].
Qed.

Lemma Sat_read {A} (f : World -> A) :
  Sat calls_only fulfilled (io (fun w => (w, inr (f w)))).
Proof. apply (Sat_io calls_only); [intros; simpl; reflexivity|intros; exact I]. Qed.

Lemma Sat_indexDocFiles lang project pattern docPath files :
  forall acc,
    Sat calls_only fulfilled
      (indexDocFiles lang project pattern docPath files acc).
Proof.
  induction files as [|f files IH]; intros acc; simpl.
  - apply (Sat_mret calls_only); exact I.
  - destruct (Js.endsWith f ".md" || Js.endsWith f ".txt"); [|apply IH].
    apply (Sat_then calls_only); [apply Sat_read|].
    intros [content|]; [apply IH|apply (Sat_mret calls_only); exact I].
Qed.

Lemma Sat_indexDocPattern lang project pattern acc :
  Sat calls_only fulfilled (indexDocPattern lang project pattern acc).
Proof.
  unfold indexDocPattern. apply (Sat_then calls_only); [|intros docPath].
  - apply (Sat_then calls_only); [|intros w; apply (Sat_mret calls_only); exact I].
    apply (Sat_get calls_only); intros; exact I.
  - apply (Sat_then calls_only); [apply Sat_read|].
    intros [[| |]|]; try (apply (Sat_mret calls_only); exact I).
    + apply (Sat_then calls_only); [apply Sat_read|].
      intros [content|]; apply (Sat_mret calls_only); exact I.
    + apply (Sat_then calls_only); [apply Sat_read|].
      intros [files|]; [apply Sat_indexDocFiles|apply (Sat_mret calls_only); exact I].
Qed.

Lemma Sat_indexDocPatterns lang project patterns :
  forall acc,
    Sat calls_only fulfilled (indexDocPatterns lang project patterns acc).
Proof.
  induction patterns as [|p ps IH]; intros acc; simpl.
  - apply (Sat_mret calls_only); exact I.
  - apply (Sat_then calls_only); [apply Sat_indexDocPattern|intros; apply IH].
Qed.

Lemma Sat_indexProjectDocs project lang :
  Sat calls_only fulfilled (indexProjectDocs project lang).
Proof.
  unfold indexProjectDocs.
  apply (Sat_then calls_only); [apply Sat_indexDocPatterns|].
  intros [docDocs docCount].
  destruct (0 <? List.length docDocs)%nat.
  - apply (Sat_then calls_only); [apply Sat_addDocs|].
    intros ?. apply (Sat_mret calls_only); exact I.
  - apply (Sat_mret calls_only); exact I.
Qed.

Lemma Sat_indexTests testTool idTag lang project symbolCount :
  Sat calls_only fulfilled (indexTests testTool idTag lang project symbolCount).
Proof.
  assert (Hdocs : forall testCount,
             Sat calls_only fulfilled
               (docCount ← indexProjectDocs project lang;
                mret (mkCounts symbolCount testCount docCount))).
  { intros testCount. apply (Sat_then calls_only); [apply Sat_indexProjectDocs|].
    intros; apply (Sat_mret calls_only); exact I. }
  unfold indexTests. apply (Sat_then calls_only); [apply Sat_callTool|].
  intros [e| |tests|len]; try (apply (Sat_mret calls_only); exact I); try apply Hdocs.
  destruct (0 <? _)%nat; [|apply Hdocs].
  apply (Sat_then calls_only); [apply Sat_addDocs|].
  intros [e|]; [apply (Sat_mret calls_only); exact I|apply Hdocs].
Qed.

Lemma Sat_indexWith symbolTool testTool idTag lang project :
  Sat calls_only fulfilled (indexWith symbolTool testTool idTag lang project).
Proof.
  unfold indexWith. apply (Sat_then calls_only); [apply Sat_callTool|].
  intros [e| |symbols|len]; try (apply (Sat_mret calls_only); exact I);
    try apply Sat_indexTests.
  destruct (0 <? _)%nat; [|apply Sat_indexTests].
  apply (Sat_then calls_only); [apply Sat_addDocs|].
  intros [e|]; [apply (Sat_mret calls_only); exact I|apply Sat_indexTests].
Qed.

Lemma Sat_language_frame {A} (m : Async World A) :
  Sat calls_only fulfilled m -> Sat frame fulfilled m.
Proof. apply Sat_weaken; [apply calls_only_frame|auto]. Qed.

(** *** The registry's methods leave the flag alone *)

Lemma frame_set_projects f w : frame w (set_projects f w).
Proof. split; reflexivity. Qed.

Lemma frame_set_file j w : frame w (set_file j w).
Proof. split; reflexivity. Qed.

Lemma Sat_save : Sat frame fulfilled save.
Proof.
  unfold save. apply (Sat_try_catch frame settled).
  - monad. apply (Sat_bind frame settled settled); [| |auto].
    + apply (Sat_io frame); [intros; simpl; reflexivity|intros; exact I].
    + intros _ _. apply (Sat_bind frame settled settled); [| |auto].
      * apply (Sat_get frame). intros; exact I.
      * intros w _. apply (Sat_io frame); [|intros; exact I].
        intros w'. destruct (writeError (env w')); simpl;
          [reflexivity|apply frame_set_file].
  - intros e _. apply (Sat_mret frame). exact I.
  - intros a _. exact I.
Qed.

Lemma Sat_load : Sat frame fulfilled load.
Proof.
  unfold load. apply (Sat_try_catch frame settled).
  - monad. apply (Sat_bind frame settled settled); [| |auto].
    + apply (Sat_io frame); [intros; simpl; reflexivity|intros; exact I].
    + intros parsed _. destruct (stored_projects parsed).
      * apply (Sat_modify frame); [intros; apply frame_set_projects|exact I].
      * apply (Sat_throw frame). exact I.
  - intros e _. apply (Sat_modify frame); [intros; apply frame_set_projects|exact I].
  - intros a _. exact I.
Qed.

Lemma Sat_addProject project : Sat frame fulfilled (addProject project).
Proof.
  unfold addProject. apply (Sat_then frame); [|intros ?; apply Sat_save].
  apply (Sat_modify frame); [intros; apply frame_set_projects|exact I].
Qed.

Lemma Sat_removeProject projectPath :
  Sat frame fulfilled (removeProject projectPath).
Proof.
  unfold removeProject. apply (Sat_then frame); [|intros ?; apply Sat_save].
  apply (Sat_modify frame); [intros; apply frame_set_projects|exact I].
Qed.

Lemma Sat_updateIndexStatus projectPath status metadata :
  Sat frame fulfilled (updateIndexStatus projectPath status metadata).
Proof.
  unfold updateIndexStatus. apply (Sat_then frame).
  - apply (Sat_get frame). intros; exact I.
  - intros w. destruct (JsMap.get projectPath (projects w)).
    + apply (Sat_then frame); [|intros ?; apply Sat_save].
      apply (Sat_modify frame); [intros; apply frame_set_projects|exact I].
    + apply (Sat_mret frame). exact I.
Qed.

(** *** Promise.allSettled *)

Lemma settleStep_sat {A} (R : World -> World -> Prop) `{!PreOrder R}
    (Q : exn + A -> Prop) (st : Step World A) :
  StepSat R Q st ->
  forall w0 w, R w0 w ->
    R w0 (fst (settleStep st w)) /\ StepSat R fulfilled (snd (settleStep st w)).
Proof.
  induction st as [r|k IH] using Step_ind; simpl; intros Hst w0 w Hw.
  - split; [exact Hw|exact I].
  - split; [exact Hw|]. intros w'. destruct (Hst w') as [H1 H2].
    specialize (IH w' H2 w' (fst (k w')) H1).
    destruct (k w') as [w1 st1]. simpl in *. exact IH.
Qed.

Lemma Sat_settle {A} (R : World -> World -> Prop) `{!PreOrder R}
    (Q : exn + A -> Prop) (st : Step World A) :
  StepSat R Q st -> Sat R fulfilled (settle st).
Proof. intros Hst w. apply (settleStep_sat R Q st Hst w w). reflexivity. Qed.

Lemma Sat_allSettled3 {A} (R : World -> World -> Prop) `{!PreOrder R}
    (Q : exn + A -> Prop) (a b c : Async World A) :
  Sat R Q a -> Sat R Q b -> Sat R Q c -> Sat R fulfilled (allSettled3 a b c).
Proof.
  intros Ha Hb Hc w. unfold allSettled3.
  destruct (Ha w) as [Ra Sa]. destruct (a w) as [w1 sa].
  destruct (Hb w1) as [Rb Sb]. destruct (b w1) as [w2 sb].
  destruct (Hc w2) as [Rc Sc]. destruct (c w2) as [w3 sc]. simpl in *.
  assert (Hawaited :
            Sat R fulfilled
              (ra ← settle sa; rb ← settle sb; rc ← settle sc;
               mret [ra; rb; rc])).
  { apply (Sat_then R); [eapply Sat_settle; eassumption|intros ra].
    apply (Sat_then R); [eapply Sat_settle; eassumption|intros rb].
    apply (Sat_then R); [eapply Sat_settle; eassumption|intros rc].
    apply (Sat_mret R). exact I. }
  destruct (Hawaited w3) as [R3 S3]. split; [|exact S3].
  etransitivity; [exact Ra|]. etransitivity; [exact Rb|].
  etransitivity; [exact Rc|exact R3].
Qed.

(** *** indexProject, reindexProject *)

Lemma Sat_languagePass project :
  Sat calls_only fulfilled (languagePass project).
Proof.
  unfold languagePass. destruct (language (discovered project)).
  - apply (Sat_await calls_only), Sat_indexWith.
  - apply (Sat_await calls_only), Sat_indexWith.
  - apply (Sat_await calls_only), Sat_indexWith.
  - apply (Sat_then calls_only).
    + apply (Sat_await calls_only).
      apply (Sat_allSettled3 calls_only fulfilled); apply Sat_indexWith.
    + intros results. apply (Sat_mret calls_only). exact I.
Qed.

Lemma Sat_indexProject project : Sat frame fulfilled (indexProject project).
Proof.
  unfold indexProject. apply (Sat_try_catch frame fulfilled).
  - apply (Sat_then frame).
    + apply (Sat_await frame), Sat_updateIndexStatus.
    + intros ?. apply (Sat_then frame);
        [apply Sat_language_frame, Sat_languagePass|].
      intros counts. apply (Sat_await frame), Sat_updateIndexStatus.
  - intros e [].
  - intros a _. exact I.
Qed.

Lemma Sat_reindexProject projectPath :
  Sat frame settled (reindexProject projectPath).
Proof.
  unfold reindexProject. apply (Sat_then frame).
  - apply (Sat_get frame). intros; exact I.
  - intros w. destruct (getProject projectPath (projects w)).
    + apply (Sat_await frame).
      eapply Sat_weaken; [| |apply Sat_indexProject]; auto. intros; exact I.
    + apply (Sat_throw frame). exact I.
Qed.

(** *** The batch *)

Lemma Sat_batchBody :
  Sat frame fulfilled
    (try_catch
       (w ← get;
        let projectsToIndex :=
          getProjectsNeedingIndex (now (env w)) (projects w) in
        for_of projectsToIndex (fun project => await (indexProject project)))
       (fun _ => mret tt)).
Proof.
  apply (Sat_try_catch frame settled).
  - apply (Sat_then frame); [apply (Sat_get frame); intros; exact I|].
    intros w. apply (Sat_for_of frame); [exact I|intros; exact I|].
    intros project. apply (Sat_await frame).
    eapply Sat_weaken; [| |apply Sat_indexProject]; auto. intros; exact I.
  - intros e _. apply (Sat_mret frame). exact I.
  - intros a _. exact I.
Qed.

Lemma finallyStep_batch (st : Step World unit) :
  StepSat frame fulfilled st ->
  forall w, isIndexing w = true ->
    match snd (finallyStep st (set_isIndexing false) w) with
    | Done _ => isIndexing (fst (finallyStep st (set_isIndexing false) w)) = false
    | Susp _ => isIndexing (fst (finallyStep st (set_isIndexing false) w)) = true
    end /\ BatchStep (snd (finallyStep st (set_isIndexing false) w)).
Proof.
  induction st as [r|k IH] using Step_ind; simpl; intros Hst w Hw.
  - split; [reflexivity|exact I].
  - split; [exact Hw|]. intros w' Hw'.
    destruct (Hst w') as [[Hflag _] Hnext].
    specialize (IH w' Hnext (fst (k w'))).
    destruct (k w') as [w1 st1]. simpl in *.
    apply IH. congruence.
Qed.

Lemma indexPendingProjects_skips (w : World) :
  isIndexing w = true -> indexPendingProjects w = (w, Done (inr tt)).
Proof.
  intros Hw. unfold indexPendingProjects. monad. unfold bind. simpl.
  rewrite Hw. reflexivity.
Qed.

Lemma indexPendingProjects_enters (w : World) :
  isIndexing w = false ->
  indexPendingProjects w =
  try_finally
    (try_catch
       (w ← get;
        let projectsToIndex :=
          getProjectsNeedingIndex (now (env w)) (projects w) in
        for_of projectsToIndex (fun project => await (indexProject project)))
       (fun _ => mret tt))
    (set_isIndexing false) (set_isIndexing true w).
Proof.
  intros Hw. unfold indexPendingProjects. monad. unfold bind at 1. simpl.
  rewrite Hw. reflexivity.
Qed.

Lemma indexPendingProjects_starts (w : World) :
  isIndexing w = false ->
  match snd (indexPendingProjects w) with
  | Done _ => isIndexing (fst (indexPendingProjects w)) = false
  | Susp _ => isIndexing (fst (indexPendingProjects w)) = true
  end /\ BatchStep (snd (indexPendingProjects w)).
Proof.
  intros Hw. rewrite (indexPendingProjects_enters w Hw). unfold try_finally.
  destruct (Sat_batchBody (set_isIndexing true w)) as [[Hflag _] Hst].
  destruct (try_catch _ _ (set_isIndexing true w)) as [w1 st1]. simpl in Hflag, Hst.
  apply (finallyStep_batch st1 Hst w1). rewrite Hflag. reflexivity.
Qed.

(** *** The loop *)

Lemma activeBatches_app (w : World) (ts ts' : list (Task World Kind)) :
  activeBatches (mkLoop w (ts ++ ts')) =
  (activeBatches (mkLoop w ts) + activeBatches (mkLoop w ts'))%nat.
Proof.
  unfold activeBatches. simpl. rewrite List.filter_app, List.length_app.
  reflexivity.
Qed.

Lemma activeBatches_cons (w : World) t (ts : list (Task World Kind)) :
  activeBatches (mkLoop w (t :: ts)) =
  ((if isBatch t then 1 else 0) + activeBatches (mkLoop w ts))%nat.
Proof.
  unfold activeBatches, isBatch. simpl. destruct (kind t); reflexivity.
Qed.

Lemma Inv_call_frame (k : Kind) (m : Async World unit) (l : Loop World Kind) :
  k <> Batch -> Sat frame settled m -> Inv l -> Inv (call k m l).
Proof.
  intros Hk Hm [Hts Hcount]. unfold call.
  destruct (Hm (world l)) as [[Hflag _] Hst].
  destruct (m (world l)) as [w1 st]. simpl in *.
  destruct st as [r|c]; split; simpl.
  - exact Hts.
  - rewrite Hflag. exact Hcount.
  - apply Forall_app. split; [exact Hts|]. apply Forall_cons. split; [|constructor].
    unfold taskOk. simpl. destruct k; [congruence|exact Hst|exact Hst].
  - rewrite activeBatches_app, activeBatches_cons. unfold isBatch. simpl.
    rewrite Hflag. unfold activeBatches in *. simpl in *.
    destruct k; [congruence| |]; simpl; lia.
Qed.

Lemma Inv_call_batch (l : Loop World Kind) :
  Inv l -> Inv (call Batch indexPendingProjects l).
Proof.
  intros [Hts Hcount]. unfold call.
  destruct (isIndexing (world l)) eqn:Hflag.
  - rewrite indexPendingProjects_skips by exact Hflag.
    split; simpl; [exact Hts|]. rewrite Hflag. exact Hcount.
  - destruct (indexPendingProjects_starts (world l) Hflag) as [Hend Hst].
    destruct (indexPendingProjects (world l)) as [w1 st]. simpl in *.
    destruct st as [r|c]; split; simpl.
    + exact Hts.
    + rewrite Hend. exact Hcount.
    + apply Forall_app. split; [exact Hts|]. apply Forall_cons.
      split; [exact Hst|constructor].
    + rewrite activeBatches_app, activeBatches_cons. unfold isBatch. simpl.
      rewrite Hend. unfold activeBatches in *. simpl in *. lia.
Qed.

Lemma Inv_resume (i : nat) (l : Loop World Kind) : Inv l -> Inv (resume i l).
Proof.
  intros [Hts Hcount]. unfold resume.
  destruct (tasks l !! i) as [t|] eqn:Hi; [|split; assumption].
  pose proof (take_drop_middle _ _ _ Hi) as Hsplit.
  assert (Hparts : Forall taskOk (take i (tasks l)) /\ taskOk t /\
                   Forall taskOk (drop (S i) (tasks l))).
  { rewrite <- Hsplit in Hts. apply Forall_app in Hts as [H1 H2].
    apply Forall_cons in H2 as [H2 H3]. auto. }
  destruct Hparts as (Htake & Ht & Hdrop).
  assert (Hsum : (activeBatches (mkLoop (world l) (take i (tasks l)))
                  + ((if isBatch t then 1 else 0)
                     + activeBatches (mkLoop (world l) (drop (S i) (tasks l)))))%nat
                 = (if isIndexing (world l) then 1 else 0)%nat).
  { rewrite <- activeBatches_cons, <- activeBatches_app, Hsplit.
    destruct l; exact Hcount. }
  unfold taskOk in Ht. unfold isBatch in Hsum.
  destruct (kind t) eqn:Hkind.
  - (* the batch goes on *)
    assert (Hflag : isIndexing (world l) = true).
    { destruct (isIndexing (world l)); [reflexivity|]. simpl in Hsum. lia. }
    simpl in Ht. destruct (Ht (world l) Hflag) as [Hend Hnext].
    destruct (cont t (world l)) as [w1 st]. simpl in *.
    destruct st as [r|c]; split; simpl.
    + apply Forall_app. split; assumption.
    + rewrite activeBatches_app. rewrite Hend.
      rewrite Hflag in Hsum. unfold activeBatches in *. simpl in *. lia.
    + apply Forall_app. split; [assumption|]. apply Forall_cons.
      split; [|assumption]. unfold taskOk. simpl. rewrite ?Hkind. exact Hnext.
    + rewrite activeBatches_app, activeBatches_cons. unfold isBatch. simpl.
      rewrite ?Hkind, Hend. rewrite Hflag in Hsum.
      unfold activeBatches in *. simpl in *. lia.
  - simpl in Ht. destruct (Ht (world l)) as [[Hflag _] Hnext].
    destruct (cont t (world l)) as [w1 st]. simpl in *.
    destruct st as [r|c]; split; simpl.
    + apply Forall_app. split; assumption.
    + rewrite activeBatches_app, Hflag.
      unfold activeBatches in *. simpl in *. lia.
    + apply Forall_app. split; [assumption|]. apply Forall_cons.
      split; [|assumption]. unfold taskOk. simpl. rewrite ?Hkind. exact Hnext.
    + rewrite activeBatches_app, activeBatches_cons. unfold isBatch. simpl.
      rewrite ?Hkind, Hflag. unfold activeBatches in *. simpl in *. lia.
  - simpl in Ht. destruct (Ht (world l)) as [[Hflag _] Hnext].
    destruct (cont t (world l)) as [w1 st]. simpl in *.
    destruct st as [r|c]; split; simpl.
    + apply Forall_app. split; assumption.
    + rewrite activeBatches_app, Hflag.
      unfold activeBatches in *. simpl in *. lia.
    + apply Forall_app. split; [assumption|]. apply Forall_cons.
      split; [|assumption]. unfold taskOk. simpl. rewrite ?Hkind. exact Hnext.
    + rewrite activeBatches_app, activeBatches_cons. unfold isBatch. simpl.
      rewrite ?Hkind, Hflag. unfold activeBatches in *. simpl in *. lia.
Qed.

Lemma Inv_step (l : Loop World Kind) (ev : Event) : Inv l -> Inv (step l ev).
Proof.
  intros H. destruct ev; simpl.
  - apply Inv_call_batch, H.
  - apply Inv_call_frame; [discriminate|apply Sat_reindexProject|exact H].
  - apply Inv_call_frame; [discriminate| |exact H].
    eapply Sat_weaken; [| |apply Sat_addProject]; auto. intros; exact I.
  - apply Inv_call_frame; [discriminate| |exact H].
    eapply Sat_weaken; [| |apply Sat_removeProject]; auto. intros; exact I.
  - apply Inv_call_frame; [discriminate| |exact H].
    eapply Sat_weaken; [| |apply Sat_load]; auto. intros; exact I.
  - destruct H as [Hts Hcount]. split; assumption.
  - apply Inv_resume, H.
Qed.

Lemma Inv_steps (evs : list Event) :
  forall l, Inv l -> Inv (steps l evs).
Proof.
  induction evs as [|ev evs IH]; intros l H; simpl; [exact H|].
  apply IH, Inv_step, H.
Qed.

Lemma Inv_init (w : World) : isIndexing w = false -> Inv (mkLoop w []).
Proof. intros H. split; [constructor|]. simpl. rewrite H. reflexivity. Qed.

End IndexerFacts.

Module IndexerSpec.
Import Scanner Json Metadata Host Async Registry Indexer.
Import AsyncTerms AsyncFacts RegistryTerms JsMapFacts RegistryFacts.
Import IndexerTerms IndexerFacts.

(** *** A batch in flight comes to its end *)

Lemma batch_ends (st : Step World unit) :
  BatchStep st ->
  forall (l : Loop World Kind) (i : nat),
    match st with
    | Done _ => True
    | Susp k =>
        tasks l !! i = Some (mkTask Batch k) ->
        isIndexing (world l) = true ->
        exists resumes,
          Forall isResume resumes /\
          isIndexing (world (steps l resumes)) = false
    end.
Proof.
  induction st as [r|k IH] using Step_ind; [intros; exact I|].
  intros Hb l i Hi Hflag.
  destruct (Hb (world l) Hflag) as [Hend Hnext].
  specialize (IH (world l) Hnext).
  assert (Hres : resume i l =
                 match snd (k (world l)) with
                 | Done _ => mkLoop (fst (k (world l)))
                               (take i (tasks l) ++ drop (S i) (tasks l))
                 | Susp c => mkLoop (fst (k (world l)))
                               (take i (tasks l) ++ mkTask Batch c :: drop (S i) (tasks l))
                 end).
  { unfold resume. rewrite Hi. simpl. destruct (k (world l)) as [w1 [r|c]]; reflexivity. }
  destruct (snd (k (world l))) as [r|c] eqn:Hst.
  - exists [EvResume i]. split; [repeat constructor|].
    simpl. rewrite Hres. exact Hend.
  - destruct (IH (resume i l) i) as (resumes & Hall & Hdown).
    + rewrite Hres. simpl. apply list_lookup_middle.
      rewrite length_take. apply lookup_lt_Some in Hi. lia.
    + rewrite Hres. exact Hend.
    + exists (EvResume i :: resumes). split; [constructor; [exact I|exact Hall]|].
      exact Hdown.
Qed.

Lemma batch_task_exists (l : Loop World Kind) :
  activeBatches l = 1%nat ->
  exists i k, tasks l !! i = Some (mkTask Batch k).
Proof.
  unfold activeBatches. induction (tasks l) as [|t ts IH]; simpl; [discriminate|].
  destruct t as [kd c]. simpl. destruct kd; simpl.
  - intros _. exists 0%nat, c. reflexivity.
  - intros H. destruct (IH H) as (i & k & Hi). exists (S i), k. exact Hi.
  - intros H. destruct (IH H) as (i & k & Hi). exists (S i), k. exact Hi.
Qed.

(** C1.  Whatever has happened on the loop (batch requests, re-index
    requests, registry calls, resumptions in any order, changes of the
    environment), at most one batch is in flight, and one is in flight
    exactly when the flag is up.  A call of [indexPendingProjects] made
    while the flag is up changes nothing at all: not the registry or its
    file, not the log of analyzer and storage calls, not the suspended
    calls.  A call made while the flag is down has raised the flag by its
    first suspension point (or has already ended, flag down).  A batch in
    flight ends after finitely many resumptions, and then the flag is
    down. *)
Theorem C1_single_flight_batch (w0 : World) (evs : list Event) :
  isIndexing w0 = false ->
  let l := steps (mkLoop w0 []) evs in
  (activeBatches l <= 1)%nat
  /\ (isIndexing (world l) = true <-> activeBatches l = 1%nat)
  /\ (isIndexing (world l) = true -> step l EvBatch = l)
  /\ (isIndexing (world l) = false ->
      match snd (indexPendingProjects (world l)) with
      | Susp _ => isIndexing (fst (indexPendingProjects (world l))) = true
      | Done _ => isIndexing (fst (indexPendingProjects (world l))) = false
      end)
  /\ (isIndexing (world l) = true ->
      exists resumes,
        Forall isResume resumes /\
        isIndexing (world (steps l resumes)) = false /\
        activeBatches (steps l resumes) = 0%nat)
  /\ (isIndexing (world l) = false ->
      isIndexing (fst (run indexPendingProjects (world l))) = false).
Proof.
  intros H0 l.
  assert (HInv : Inv l) by (apply Inv_steps, Inv_init, H0).
  destruct HInv as [Hts Hcount].
  split; [rewrite Hcount; destruct (isIndexing (world l)); lia|].
  split; [rewrite Hcount; destruct (isIndexing (world l)); split; congruence|].
  split.
  { intros Hup. simpl. unfold call.
    rewrite (indexPendingProjects_skips _ Hup). destruct l; reflexivity. }
  split.
  { intros Hdown. destruct (indexPendingProjects_starts _ Hdown) as [H _].
    destruct (snd (indexPendingProjects (world l))); exact H. }
  split.
  { intros Hup.
    assert (Hone : activeBatches l = 1%nat) by (rewrite Hcount, Hup; reflexivity).
    destruct (batch_task_exists l Hone) as (i & k & Hi).
    assert (Hk : BatchStep (Susp k)).
    { rewrite List.Forall_forall in Hts.
      apply (Hts (mkTask Batch k)). apply list_elem_of_In.
      eapply list_elem_of_lookup_2. exact Hi. }
    destruct (batch_ends (Susp k) Hk l i Hi Hup) as (resumes & Hall & Hdown).
    exists resumes. split; [exact Hall|]. split; [exact Hdown|].
    assert (HInv' : Inv (steps l resumes))
      by (apply Inv_steps; split; assumption).
    destruct HInv' as [_ Hcount']. rewrite Hcount', Hdown. reflexivity. }
  intros Hdown.
  rewrite (run_ext _ _ _ _ (indexPendingProjects_enters _ Hdown)).
  rewrite run_try_finally. destruct (run _ _) as [w' r]. reflexivity.
Qed.

Lemma C1_witness :
  let l := steps (mkLoop twoProjects []) [EvBatch; EvReindex "/w/good"; EvResume 1] in
  isIndexing (world l) = true /\ step l EvBatch = l /\ activeBatches l = 1%nat.
Proof.
  intros l.
  destruct (C1_single_flight_batch twoProjects
              [EvBatch; EvReindex "/w/good"; EvResume 1] eq_refl)
    as (_ & Hiff & Hskip & _).
  fold l in Hiff, Hskip.
  assert (Hup : isIndexing (world l) = true) by (vm_compute; reflexivity).
  split; [exact Hup|]. split; [apply Hskip, Hup|apply Hiff, Hup].
Defined.

(** *** One pass over one project, run alone *)

Lemma run_await {A} (m : Async World A) (w : World) : run (await m) w = run m w.
Proof.
  unfold await. monad. rewrite run_bind.
  destruct (run m w) as [w' [e|a]]; [reflexivity|].
  rewrite run_bind, run_tick, run_ret. reflexivity.
Qed.

Lemma run_updateIndexStatus_result projectPath status metadata (w : World) :
  exists w',
    run (updateIndexStatus projectPath status metadata) w = (w', inr tt) /\
    projects w' =
      updateIndexStatus_map projectPath status metadata (now (env w)) (projects w) /\
    env w' = env w /\ isIndexing w' = isIndexing w.
Proof.
  rewrite run_updateIndexStatus. unfold updateIndexStatus_map.
  destruct (JsMap.get projectPath (projects w)) as [p|] eqn:Hget.
  - eexists. split; [reflexivity|].
    rewrite projects_saved, env_saved, isIndexing_saved. simpl.
    unfold updateIndexStatus_map. rewrite Hget. auto.
  - exists w. auto.
Qed.

Lemma run_indexProject (project : ProjectMetadata) (w : World) :
  exists w1 w2 counts w3,
    run (updateIndexStatus (path (discovered project)) indexing None) w
      = (w1, inr tt) /\
    env w1 = env w /\
    run (languagePass project) w1 = (w2, inr counts) /\
    run (indexProject project) w = (w3, inr tt) /\
    projects w3 =
      passed (path (discovered project)) counts (now (env w)) (projects w) /\
    env w3 = env w /\ isIndexing w3 = isIndexing w.
Proof.
  destruct (run_updateIndexStatus_result (path (discovered project)) indexing None w)
    as (w1 & Hrun1 & Hp1 & He1 & Hf1).
  pose proof (Sat_run calls_only fulfilled _ (Sat_languagePass project) w1)
    as [Hco Hful].
  destruct (run (languagePass project) w1) as [w2 [e|counts]] eqn:Hrun2;
    [destruct Hful|].
  destruct Hco as (Hp2 & _ & Hf2 & He2). simpl in Hp2, Hf2, He2.
  destruct (run_updateIndexStatus_result (path (discovered project)) completed
              (Some (countsPatch counts)) w2)
    as (w3 & Hrun3 & Hp3 & He3 & Hf3).
  exists w1, w2, counts, w3.
  split; [exact Hrun1|]. split; [exact He1|]. split; [exact Hrun2|].
  split.
  - unfold indexProject. rewrite run_try_catch.
    unfold languagePass in Hrun2. unfold countsPatch in Hrun3. monad.
    rewrite run_bind, run_await, Hrun1, run_bind, Hrun2.
    rewrite run_await, Hrun3. reflexivity.
  - split; [|split; congruence].
    rewrite Hp3, Hp2, Hp1, He2, He1. reflexivity.
Qed.


(** *** The registry along a pass *)



Lemma passed_at projectPath counts now m q :
  JsMap.get projectPath m = Some q ->
  exists q',
    JsMap.get projectPath (passed projectPath counts now m) = Some q' /\
    indexStatus q' = completed /\
    lastIndexed q' = Some now /\
    symbolCount q' = Some (c_symbolCount counts) /\
    testCount q' = Some (c_testCount counts) /\
    docCount q' = Some (c_docCount counts) /\
    error q' = error q /\
    discovered q' = discovered q.
Proof.
  intros Hq. unfold passed, updateIndexStatus_map at 2. rewrite Hq.
  unfold updateIndexStatus_map. rewrite get_set_eq.
  eexists. split; [apply get_set_eq|]. simpl. auto 10.
Qed.

Lemma passed_elsewhere projectPath counts now m k :
  k <> projectPath ->
  JsMap.get k (passed projectPath counts now m) = JsMap.get k m.
Proof.
  intros Hne. unfold passed, updateIndexStatus_map at 2.
  destruct (JsMap.get projectPath m) as [q|] eqn:Hq.
  - unfold updateIndexStatus_map. rewrite get_set_eq.
    rewrite !get_set_ne by congruence. reflexivity.
  - unfold updateIndexStatus_map. rewrite Hq. reflexivity.
Qed.



Lemma keyed_values_get (m : JsMap.t ProjectMetadata) p :
  keyed m -> In p (JsMap.values m) ->
  JsMap.get (path (discovered p)) m = Some p.
Proof.
  intros [Hnd Hkey] Hin. unfold JsMap.values in Hin.
  apply in_map_iff in Hin as ([k v] & Hv & Hin). simpl in Hv. subst v.
  rewrite List.Forall_forall in Hkey. pose proof (Hkey _ Hin) as Hk.
  simpl in Hk. rewrite Hk. apply In_get; assumption.
Qed.




End IndexerSpec.

(** * Further properties *)

(** ** Scanner *)

Module ScannerMore.
Import Scanner ScannerTerms ScannerMoreTerms ScannerFacts.

Lemma Descends_deeper env n dir target :
  Descends env n dir target -> Descends env (S n) dir target.
Proof.
  induction 1 as [n dir|n dir entries e target Hrd Han Hin Hd Hs _ IH].
  - constructor.
  - eapply descends_into; eassumption.
Qed.

(** The loop over the entries of a directory keeps whatever holds of the
    projects found below each sub-directory it enters. *)
Lemma scan_entries_inv env levels dir (P : DiscoveredProject -> Prop) :
  forall (es : list Dirent) (acc : list DiscoveredProject * gset string),
    (forall q, In q (fst acc) -> P q) ->
    (forall e seen q,
       In e es -> d_isDirectory e = true ->
       shouldSkipDirectory (d_name e) = false ->
       In q (fst (scanLevels env levels (join env dir (d_name e)) seen)) ->
       P q) ->
    forall q,
      In q (fst (fold_left
                   (fun (acc : list DiscoveredProject * gset string) entry =>
                      if negb (d_isDirectory entry) then acc
                      else if shouldSkipDirectory (d_name entry) then acc
                      else
                        let subDir := join env dir (d_name entry) in
                        let '(subProjects, seen') :=
                          scanLevels env levels subDir (snd acc) in
                        (fst acc ++ subProjects, seen'))
                   es acc)) ->
      P q.
Proof.
  induction es as [|e es IH]; intros acc Hacc Hsub q; simpl; [apply Hacc|].
  apply IH.
  - destruct (d_isDirectory e) eqn:Hd; simpl; [|exact Hacc].
    destruct (shouldSkipDirectory (d_name e)) eqn:Hs; [exact Hacc|].
    destruct (scanLevels env levels (join env dir (d_name e)) (snd acc))
      as [sub seen1] eqn:Hscan.
    simpl. intros q' Hq'. apply in_app_or in Hq' as [Hq'|Hq']; [auto|].
    apply (Hsub e (snd acc) q');
      [left; reflexivity|exact Hd|exact Hs|rewrite Hscan; exact Hq'].
  - intros e' seen q' He'. apply Hsub. right. exact He'.
Qed.

Lemma scanLevels_descends env levels :
  forall dir seen p,
    In p (fst (scanLevels env levels dir seen)) ->
    exists n, levels = S n /\ Descends env n dir (path p).
Proof.
  induction levels as [|levels IH]; intros dir seen p; simpl; [tauto|].
  destruct (bool_decide _); simpl; [tauto|].
  destruct (readdir env dir) as [entries|] eqn:Hrd; simpl; [|tauto].
  destruct (analyzeDirectory env dir (map d_name entries)) as [project|] eqn:Han.
  - simpl. intros [<-|[]]. exists levels. split; [reflexivity|].
    destruct (analyzeDirectory_Some _ _ _ _ Han) as [-> _]. constructor.
  - intros Hin. exists levels. split; [reflexivity|]. revert Hin.
    apply (scan_entries_inv env levels dir
             (fun q => Descends env levels dir (path q))); [intros q []|].
    intros e seen0 q He Hd Hs Hq.
    destruct (IH _ _ _ Hq) as (n & -> & Hdesc).
    eapply descends_into; eassumption.
Qed.

Lemma discover_fold_inv env maxDepth (P : DiscoveredProject -> Prop)
    (roots : list string) :
  (forall root seen q,
     In root roots ->
     In q (fst (scanDirectory env root maxDepth 0 seen)) -> P q) ->
  forall (acc : list DiscoveredProject * gset string),
    (forall q, In q (fst acc) -> P q) ->
    forall q,
      In q (fst (fold_left
                   (fun (acc : list DiscoveredProject * gset string) searchPath =>
                      let '(foundProjects, seen') :=
                        scanDirectory env searchPath maxDepth 0 (snd acc) in
                      (fst acc ++ foundProjects, seen'))
                   roots acc)) ->
      P q.
Proof.
  induction roots as [|sp sps IH]; intros Hscan acc Hacc q; simpl; [apply Hacc|].
  apply IH.
  - intros root seen q' Hroot. apply Hscan. right. exact Hroot.
  - destruct (scanDirectory env sp maxDepth 0 (snd acc)) as [found seen'] eqn:Hs.
    simpl. intros q' Hq'. apply in_app_or in Hq' as [Hq'|Hq']; [auto|].
    apply (Hscan sp (snd acc) q'); [left; reflexivity|].
    rewrite Hs. exact Hq'.
Qed.

Lemma discover_inv env maxDepth (P : DiscoveredProject -> Prop) :
  (forall root seen q,
     In root (searchPaths env) ->
     In q (fst (scanDirectory env root maxDepth 0 seen)) -> P q) ->
  forall q, In q (discoverProjects env maxDepth) -> P q.
Proof.
  intros Hscan q. unfold discoverProjects.
  apply (discover_fold_inv env maxDepth P (searchPaths env) Hscan ([], ∅)).
  intros q' [].
Qed.

(** X1.  Every project the exhaustive scan reports lies at most [maxDepth]
    directories below one of the search paths, and on the way down from it
    every directory passed is readable, is not itself a project, and is
    entered through a sub-directory whose name is not on the skip list and
    does not start with a dot. *)
Theorem X1_discover_depth_and_skips (env : Env) (maxDepth : nat)
    (p : DiscoveredProject) :
  In p (discoverProjects env maxDepth) ->
  exists root,
    In root (searchPaths env) /\ Descends env maxDepth root (path p).
Proof.
  apply (discover_inv env maxDepth
           (fun q => exists root, In root (searchPaths env) /\
                                  Descends env maxDepth root (path q))).
  intros root seen q Hroot Hq. exists root. split; [exact Hroot|].
  unfold scanDirectory in Hq.
  destruct (scanLevels_descends env _ root seen q Hq) as (n & Hn & Hd).
  assert (n = maxDepth) by lia. subst n. exact Hd.
Qed.

Lemma X1_witness :
  exists root,
    In root (searchPaths sampleEnv) /\
    Descends sampleEnv 3 root "/home/u/Projects/svc".
Proof.
  assert (Hin : exists p, In p (discoverProjects sampleEnv 3)
                          /\ path p = "/home/u/Projects/svc").
  { eexists. split; [vm_compute; left; reflexivity|reflexivity]. }
  destruct Hin as (p & Hin & <-).
  apply (X1_discover_depth_and_skips sampleEnv 3 p Hin).
Defined.

(** *** The visited set *)







(** *** What a reported project says about its directory *)

Lemma includes_In (l : list string) (x : string) :
  Js.includes l x = true <-> In x l.
Proof.
  unfold Js.includes. rewrite existsb_exists. split.
  - intros (y & Hy & Heq). apply String.eqb_eq in Heq. subst y. exact Hy.
  - intros H. exists x. split; [exact H|apply String.eqb_refl].
Qed.

Lemma includes_not_In (l : list string) (x : string) :
  Js.includes l x = false <-> ~ In x l.
Proof.
  rewrite <- includes_In. destruct (Js.includes l x); split; congruence.
Qed.

Lemma when_In (b : bool) (s i : string) :
  In i (when b s) -> b = true /\ i = s.
Proof. destruct b; simpl; [intros [<-|[]]; auto|intros []]. Qed.

Lemma collectIndicators_entries (entries : list string) (i : string) :
  In i (collectIndicators entries) -> In i entries.
Proof.
  unfold collectIndicators, manifestIndicators, detectIde.
  intros H.
  repeat match goal with
         | H : In _ (_ ++ _) |- _ => apply in_app_or in H as [H|H]
         end;
    repeat match goal with
           | H : In _ (when _ _) |- _ =>
               apply when_In in H as [Hb ->]; apply includes_In; exact Hb
           | H : In _ (snd (if ?c then _ else _)) |- _ =>
               destruct c eqn:?; simpl in H
           | H : In _ (if ?c then _ else _) |- _ =>
               destruct c eqn:?; simpl in H
           | H : In _ (_ ++ _) |- _ => apply in_app_or in H as [H|H]
           | H : _ \/ _ |- _ => destruct H as [H|H]
           | H : False |- _ => destruct H
           | H : _ = i |- _ => subst i
           end;
    try (apply includes_In;
         repeat match goal with
                | H : andb _ _ = true |- _ => apply andb_prop in H as [? ?]
                end; assumption).
  destruct (Js.includes entries "go.mod") eqn:Hmod; apply includes_In;
    [exact Hmod|exact Heqb].
Qed.

Lemma analyzeDirectory_fields env dir entries p :
  analyzeDirectory env dir entries = Some p ->
  name p = basename env dir /\
  ide p = fst (detectIde entries) /\
  hasGit p = Js.includes entries ".git" /\
  lastModified p = match statMtime env dir with Some m => m | None => now env end.
Proof.
  unfold analyzeDirectory.
  destruct (determineLanguage (languageScores entries)) as [l|]; [|discriminate].
  destruct (List.length (collectIndicators entries) =? 0)%nat; [discriminate|].
  intros [= <-]. simpl. auto.
Qed.

(** X3.  A project returned by [analyzeDirectory] names only what is in
    the listing: each of its indicators is an entry of the directory, its
    git flag says whether ".git" is one, and its IDE is "multiple",
    "vscode", "jetbrains" or "none" according to which of ".vscode" and
    ".idea" are entries. *)
Theorem X3_project_reflects_listing
    (env : Env) (dir : string) (entries : list string) (p : DiscoveredProject) :
  analyzeDirectory env dir entries = Some p ->
  (forall i, In i (indicators p) -> In i entries)
  /\ (hasGit p = true <-> In ".git" entries)
  /\ (ide p = multiple <-> In ".vscode" entries /\ In ".idea" entries)
  /\ (ide p = vscode <-> In ".vscode" entries /\ ~ In ".idea" entries)
  /\ (ide p = jetbrains <-> ~ In ".vscode" entries /\ In ".idea" entries)
  /\ (ide p = none <-> ~ In ".vscode" entries /\ ~ In ".idea" entries).
Proof.
  intros Han.
  destruct (analyzeDirectory_Some _ _ _ _ Han) as (_ & _ & Hind & _).
  destruct (analyzeDirectory_fields _ _ _ _ Han) as (_ & Hide & Hgit & _).
  split; [rewrite Hind; apply collectIndicators_entries|].
  split; [rewrite Hgit; apply includes_In|].
  rewrite Hide. unfold detectIde.
  destruct (Js.includes entries ".vscode") eqn:Hv;
    destruct (Js.includes entries ".idea") eqn:Hj; simpl;
    repeat match goal with
           | H : Js.includes _ _ = true |- _ => apply includes_In in H
           | H : Js.includes _ _ = false |- _ => apply includes_not_In in H
           end;
    repeat split; intros; try discriminate; try tauto.
Qed.

Lemma X3_witness :
  exists p,
    analyzeDirectory sampleEnv "/home/u/Projects/svc"
      [".git"; "go.mod"; "main.go"] = Some p
    /\ hasGit p = true /\ ide p = none.
Proof.
  eexists. split; [vm_compute; reflexivity|].
  match goal with
  | |- hasGit ?p = _ /\ _ =>
      destruct (X3_project_reflects_listing sampleEnv "/home/u/Projects/svc"
                  [".git"; "go.mod"; "main.go"] p eq_refl)
        as (_ & Hgit & _ & _ & _ & Hnone)
  end.
  split.
  - apply Hgit. simpl. auto.
  - apply Hnone. split; simpl; intuition discriminate.
Defined.

(** *** The quick scan *)

Lemma quickLoop_readable env (markers : list string) :
  (forall m, In m markers -> readdir env (dirname env m) <> None) ->
  forall acc,
    quickLoop env markers acc = Some (acc ++ omap (markerProject env) markers).
Proof.
  induction markers as [|m ms IH]; intros Hread acc; simpl.
  - rewrite app_nil_r. reflexivity.
  - assert (Hms : forall m', In m' ms -> readdir env (dirname env m') <> None)
      by (intros m' Hm'; apply Hread; right; exact Hm').
    unfold markerProject at 1.
    destruct (readdir env (dirname env m)) as [entries|] eqn:Hrd.
    + destruct (analyzeDirectory env (dirname env m) (map d_name entries))
        as [project|].
      * rewrite (IH Hms). rewrite <- app_assoc. reflexivity.
      * apply (IH Hms).
    + exfalso. apply (Hread m); [left; reflexivity|exact Hrd].
Qed.

Lemma quickLoop_unreadable env (markers : list string) (m : string) :
  In m markers -> readdir env (dirname env m) = None ->
  forall acc, quickLoop env markers acc = None.
Proof.
  induction markers as [|m0 ms IH]; intros Hin Hrd acc; simpl; [destruct Hin|].
  destruct Hin as [->|Hin].
  - rewrite Hrd. reflexivity.
  - destruct (readdir env (dirname env m0)) as [entries|]; [|reflexivity].
    destruct (analyzeDirectory env (dirname env m0) (map d_name entries));
      apply IH; assumption.
Qed.

(** X4.  When [find] answers and the directory of every marker can be
    read, the quick scan returns, in the order of the markers, the project
    of each marker's directory that [analyzeDirectory] accepts, once per
    marker.  When [find] fails, or the directory of any one marker cannot
    be read, everything found so far is dropped and the result is that of
    the exhaustive scan at depth 2. *)
Theorem X4_quick_scan (env : Env) :
  (forall markers,
     findMarkers env = Some markers ->
     (forall m, In m markers -> readdir env (dirname env m) <> None) ->
     quickDiscoverProjects env = omap (markerProject env) markers)
  /\
  (findMarkers env = None
   \/ (exists markers m,
         findMarkers env = Some markers /\ In m markers /\
         readdir env (dirname env m) = None) ->
   quickDiscoverProjects env = discoverProjects env 2).
Proof.
  split.
  - intros markers Hfind Hread. unfold quickDiscoverProjects.
    rewrite Hfind, (quickLoop_readable env markers Hread). reflexivity.
  - intros [Hfind|(markers & m & Hfind & Hin & Hrd)]; unfold quickDiscoverProjects;
      rewrite Hfind; [reflexivity|].
    rewrite (quickLoop_unreadable env markers m Hin Hrd). reflexivity.
Qed.

Lemma X4_witness :
  List.length (quickDiscoverProjects quickEnv) = 2%nat.
Proof.
  destruct (X4_quick_scan quickEnv) as [Hok _].
  rewrite (Hok _ eq_refl).
  - vm_compute. reflexivity.
  - intros m _. vm_compute. discriminate.
Defined.

End ScannerMore.

(** ** Registry *)

Module RegistryMore.
Import Scanner Json Metadata Host Async Registry RegistryQueries.
Import AsyncTerms AsyncFacts RegistryTerms JsMapFacts RegistryFacts RegistryMoreTerms.

Lemma keys_set_absent {V} k (v : V) (m : JsMap.t V) :
  JsMap.get k m = None -> JsMap.keys (JsMap.set k v m) = JsMap.keys m ++ [k].
Proof.
  intros H. apply get_None_keys in H. rewrite (set_fresh k v m H).
  unfold JsMap.keys. rewrite map_app. reflexivity.
Qed.

Lemma get_keys {V} k (v : V) (m : JsMap.t V) :
  JsMap.get k m = Some v -> In k (JsMap.keys m).
Proof.
  intros H. apply get_In in H. unfold JsMap.keys.
  change k with (fst (k, v)). apply in_map. exact H.
Qed.

Lemma get_delete_eq {V} k (m : JsMap.t V) :
  List.NoDup (JsMap.keys m) -> JsMap.get k (JsMap.delete k m) = None.
Proof.
  induction m as [|[k' v'] m IH]; simpl; [reflexivity|].
  intros Hnd. apply List.NoDup_cons_iff in Hnd as [Hnot Hnd].
  destruct (String.eqb k' k) eqn:E; simpl.
  - apply String.eqb_eq in E. subst k'. apply get_None_keys. exact Hnot.
  - rewrite E. apply IH, Hnd.
Qed.

Lemma get_delete_ne {V} k k' (m : JsMap.t V) :
  k <> k' -> JsMap.get k' (JsMap.delete k m) = JsMap.get k' m.
Proof.
  intros Hne. induction m as [|[k0 v0] m IH]; simpl; [reflexivity|].
  destruct (String.eqb k0 k) eqn:E; simpl.
  - apply String.eqb_eq in E. subst k0.
    apply String.eqb_neq in Hne. rewrite Hne. reflexivity.
  - destruct (String.eqb k0 k'); [reflexivity|exact IH].
Qed.

Lemma delete_absent {V} k (m : JsMap.t V) :
  JsMap.get k m = None -> JsMap.delete k m = m.
Proof.
  induction m as [|[k' v'] m IH]; simpl; [reflexivity|].
  destruct (String.eqb k' k); [discriminate|]. intros H. rewrite IH by exact H.
  reflexivity.
Qed.

Lemma updateIndexStatus_map_keys projectPath status metadata now
    (m : JsMap.t ProjectMetadata) :
  JsMap.keys (updateIndexStatus_map projectPath status metadata now m) = JsMap.keys m.
Proof.
  unfold updateIndexStatus_map.
  destruct (JsMap.get projectPath m) as [q|] eqn:Hget; [|reflexivity].
  apply keys_set_present. eapply get_keys; eassumption.
Qed.

Lemma updateIndexStatus_map_other projectPath status metadata now
    (m : JsMap.t ProjectMetadata) k :
  k <> projectPath ->
  JsMap.get k (updateIndexStatus_map projectPath status metadata now m) = JsMap.get k m.
Proof.
  intros Hk. unfold updateIndexStatus_map.
  destruct (JsMap.get projectPath m); [|reflexivity].
  apply get_set_ne. congruence.
Qed.

(** X5.  [updateIndexStatus] touches one entry and nothing else.  For a
    path the registry does not hold it settles at once, without a
    suspension point, and leaves the whole state as it is: the map, the
    file, the log.  For a path it holds, the keys and their order stay,
    every other entry stays, and the entry keeps its discovered fields,
    takes the new status, and gets a new [lastIndexed] only when the status
    is completed. *)
Theorem X5_updateIndexStatus_frame
    (w : World) (projectPath : string) (status : IndexStatus)
    (metadata : option StatusPatch) :
  (JsMap.get projectPath (projects w) = None ->
   updateIndexStatus projectPath status metadata w = (w, Done (inr tt)))
  /\
  (let w' := fst (run (updateIndexStatus projectPath status metadata) w) in
   JsMap.keys (projects w') = JsMap.keys (projects w)
   /\ (forall k, k <> projectPath ->
                 JsMap.get k (projects w') = JsMap.get k (projects w))
   /\ (forall q, JsMap.get projectPath (projects w) = Some q ->
        exists q',
          JsMap.get projectPath (projects w') = Some q' /\
          discovered q' = discovered q /\
          indexStatus q' = status /\
          lastIndexed q' = (if status_eqb status completed
                            then Some (now (env w)) else lastIndexed q))).
Proof.
  split.
  - intros Hnone. unfold updateIndexStatus. monad. unfold bind. simpl.
    rewrite Hnone. reflexivity.
  - rewrite run_updateIndexStatus.
    destruct (JsMap.get projectPath (projects w)) as [q|] eqn:Hget; simpl.
    + rewrite projects_saved. simpl. unfold updateIndexStatus_map. rewrite Hget.
      split; [apply keys_set_present; eapply get_keys; eassumption|].
      split; [intros k Hk; apply get_set_ne; congruence|].
      intros q0 [= <-]. eexists. split; [apply get_set_eq|].
      unfold updateIndexStatus_entry. destruct metadata; simpl; auto.
    + split; [reflexivity|]. split; [reflexivity|]. intros q [=].
Qed.

Lemma X5_witness :
  let w := worldOf (quietEnv 1700000000000)
             [("/w/a", sampleMetadata "/w/a" go completed (Some 1699990000000) None)] in
  updateIndexStatus "/w/gone" failed None w = (w, Done (inr tt))
  /\ exists q',
       JsMap.get "/w/a" (projects (fst (run (updateIndexStatus "/w/a" failed None) w)))
         = Some q' /\
       indexStatus q' = failed /\ lastIndexed q' = Some 1699990000000.
Proof.
  intros w. split.
  - apply (X5_updateIndexStatus_frame w "/w/gone" failed None). reflexivity.
  - destruct (X5_updateIndexStatus_frame w "/w/a" failed None) as (_ & _ & _ & Hentry).
    destruct (Hentry _ eq_refl) as (q' & Hget & _ & Hst & Hlast).
    exists q'. auto.
Defined.

(** X6.  A write that fails is swallowed by [save]: when [mkdir] or
    [writeFile] throws, [addProject], [updateIndexStatus] and
    [removeProject] still settle without throwing, the map in memory has
    the change, and the registry file is what it was. *)
Theorem X6_write_failure_is_swallowed (w : World) :
  mkdirError (env w) <> None \/ writeError (env w) <> None ->
  (forall project,
     run (addProject project) w =
     (set_projects (addProject_map project) w, inr tt))
  /\ (forall projectPath status metadata q,
        JsMap.get projectPath (projects w) = Some q ->
        run (updateIndexStatus projectPath status metadata) w =
        (set_projects
           (updateIndexStatus_map projectPath status metadata (now (env w))) w,
         inr tt))
  /\ (forall projectPath,
        run (removeProject projectPath) w =
        (set_projects (JsMap.delete projectPath) w, inr tt)).
Proof.
  intros Hfail.
  assert (Hsaved : forall f, saved (set_projects f w) = set_projects f w).
  { intros f. unfold saved. simpl.
    destruct (mkdirError (env w)), (writeError (env w)); try reflexivity.
    destruct Hfail; congruence. }
  split; [|split].
  - intros project. rewrite run_addProject, Hsaved. reflexivity.
  - intros projectPath status metadata q Hget.
    rewrite run_updateIndexStatus, Hget, Hsaved. reflexivity.
  - intros projectPath. rewrite run_removeProject, Hsaved. reflexivity.
Qed.

Lemma X6_witness :
  let w := {| projects := []; file := Some JNull; isIndexing := false;
              env := readOnlyEnv 1700000000000; calls := [] |} in
  let w' := fst (run (addProject (sampleProject "/w/a" go)) w) in
  file w' = Some JNull /\ JsMap.keys (projects w') = ["/w/a"].
Proof.
  intros w w'. subst w'.
  destruct (X6_write_failure_is_swallowed w) as (Hadd & _ & _).
  { right. discriminate. }
  rewrite Hadd. split; reflexivity.
Defined.


(** X8.  [addProject] with a path the registry does not hold appends one
    entry, after all the others: status pending, no time of a last pass, no
    counts, no error.  With a path it holds, the keys and their order are
    as before.  In both cases every entry under another path is
    untouched. *)
Theorem X8_addProject_placement
    (project : DiscoveredProject) (m : JsMap.t ProjectMetadata) :
  (JsMap.get (path project) m = None ->
   addProject_map project m =
   m ++ [(path project,
          {| discovered := project; lastIndexed := None; indexStatus := pending;
             symbolCount := None; testCount := None; docCount := None;
             error := None |})])
  /\ (forall existing, JsMap.get (path project) m = Some existing ->
       JsMap.keys (addProject_map project m) = JsMap.keys m)
  /\ (forall k, k <> path project ->
       JsMap.get k (addProject_map project m) = JsMap.get k m).
Proof.
  unfold addProject_map. split; [|split].
  - intros Hnone. rewrite Hnone. apply set_fresh, get_None_keys, Hnone.
  - intros existing Hget. apply keys_set_present. eapply get_keys; eassumption.
  - intros k Hk. apply get_set_ne. congruence.
Qed.

Lemma X8_witness :
  let m := [("/w/a", sampleMetadata "/w/a" go completed (Some 1699990000000) None)] in
  JsMap.keys (addProject_map (sampleProject "/w/b" python) m) = ["/w/a"; "/w/b"]
  /\ JsMap.keys (addProject_map (sampleProject "/w/a" mixed) m) = ["/w/a"].
Proof.
  intros m.
  destruct (X8_addProject_placement (sampleProject "/w/b" python) m) as (Hnew & _ & _).
  destruct (X8_addProject_placement (sampleProject "/w/a" mixed) m) as (_ & Hold & _).
  split.
  - rewrite Hnew by reflexivity. reflexivity.
  - apply (Hold _ eq_refl).
Defined.

(** X9.  After [removeProject] the path is gone and every other entry is
    as before.  Removing a path the registry does not hold changes no
    entry, and the registry file is written all the same. *)
Theorem X9_removeProject (w : World) (projectPath : string) :
  keyed (projects w) ->
  let w' := fst (run (removeProject projectPath) w) in
  getProject projectPath (projects w') = None
  /\ (forall k, k <> projectPath ->
       getProject k (projects w') = getProject k (projects w))
  /\ keyed (projects w')
  /\ (getProject projectPath (projects w) = None ->
       projects w' = projects w /\
       (mkdirError (env w) = None -> writeError (env w) = None ->
        file w' = Some (snapshot (env w) (projects w)))).
Proof.
  intros Hkeyed w'. subst w'. rewrite run_removeProject. simpl.
  rewrite projects_saved. simpl. unfold getProject.
  split; [apply get_delete_eq, Hkeyed|].
  split; [intros k Hk; apply get_delete_ne; congruence|].
  split; [apply keyed_delete, Hkeyed|].
  intros Hnone. split; [apply delete_absent, Hnone|].
  intros Hmk Hwr. unfold saved. simpl. rewrite Hmk, Hwr. simpl.
  rewrite (delete_absent _ _ Hnone). reflexivity.
Qed.

Lemma X9_witness :
  let w := worldOf (quietEnv 1700000000000)
             [("/w/a", sampleMetadata "/w/a" go pending None None);
              ("/w/b", sampleMetadata "/w/b" python pending None None)] in
  JsMap.keys (projects (fst (run (removeProject "/w/a") w))) = ["/w/b"]
  /\ getProject "/w/a" (projects (fst (run (removeProject "/w/a") w))) = None.
Proof.
  intros w.
  assert (Hkeyed : keyed (projects w)).
  { split; [repeat constructor; simpl; intuition discriminate|repeat constructor]. }
  destruct (X9_removeProject w "/w/a" Hkeyed) as (Hgone & _).
  split; [vm_compute; reflexivity|exact Hgone].
Defined.

(** *** Statistics *)

Lemma countOf_set_same (result : JsMap.t Z) v n :
  countOf (JsMap.set v n result) v = n.
Proof. unfold countOf. rewrite get_set_eq. reflexivity. Qed.

Lemma countOf_set_other (result : JsMap.t Z) v v' n :
  v <> v' -> countOf (JsMap.set v n result) v' = countOf result v'.
Proof. intros H. unfold countOf. rewrite get_set_ne by exact H. reflexivity. Qed.

Lemma groupBy_fold (key : ProjectMetadata -> string) (v : string) :
  forall ps (acc : JsMap.t Z),
    (forall k n, JsMap.get k acc = Some n -> 0 < n) ->
    countOf (fold_left (tally key) ps acc) v
      = countOf acc v + Z.of_nat (countKey key v ps)
    /\ (forall k n, JsMap.get k (fold_left (tally key) ps acc) = Some n -> 0 < n).
Proof.
  induction ps as [|p ps IH]; intros acc Hpos; simpl.
  - split; [unfold countKey; simpl; lia|exact Hpos].
  - assert (Hpos' : forall k n, JsMap.get k (tally key acc p) = Some n -> 0 < n).
    { intros k n. unfold tally. destruct (string_dec (key p) k) as [<-|Hne].
      - rewrite get_set_eq. intros [= <-].
        destruct (JsMap.get (key p) acc) as [n0|] eqn:E; [|lia].
        specialize (Hpos _ _ E). lia.
      - rewrite get_set_ne by exact Hne. apply Hpos. }
    destruct (IH (tally key acc p) Hpos') as [Hcount Hpos'']. split; [|exact Hpos''].
    rewrite Hcount. unfold countKey. simpl.
    destruct (String.eqb (key p) v) eqn:E.
    + apply String.eqb_eq in E. subst v. unfold tally.
      rewrite countOf_set_same. unfold countOf. simpl List.length. lia.
    + apply String.eqb_neq in E. unfold tally.
      rewrite countOf_set_other by exact E. lia.
Qed.

Lemma groupBy_get (key : ProjectMetadata -> string) (ps : list ProjectMetadata)
    (v : string) :
  JsMap.get v (groupBy ps key) =
  match countKey key v ps with
  | O => None
  | n => Some (Z.of_nat n)
  end.
Proof.
  destruct (groupBy_fold key v ps []) as [Hcount Hpos]; [intros k n [=]|].
  fold (groupBy ps key) in Hcount, Hpos.
  unfold countOf in Hcount. simpl in Hcount.
  destruct (JsMap.get v (groupBy ps key)) as [n|] eqn:E.
  - specialize (Hpos _ _ E).
    destruct (countKey key v ps); [lia|]. f_equal. lia.
  - destruct (countKey key v ps); [reflexivity|lia].
Qed.

(** X10.  [getStats] counts right: [total] is the number of registered
    projects, and for each language, status and IDE the object of counts
    holds the number of projects with that value, and holds no property
    at all for a value no project has. *)
Theorem X10_getStats_counts (m : JsMap.t ProjectMetadata) :
  let ps := getAllProjects m in
  total (getStats m) = List.length ps
  /\ (forall l,
       JsMap.get (language_str l) (byLanguage (getStats m)) =
       match List.length (getProjectsByLanguage l m) with
       | O => None
       | n => Some (Z.of_nat n)
       end)
  /\ (forall s,
       JsMap.get (status_str s) (byStatus (getStats m)) =
       match List.length (getProjectsByStatus s m) with
       | O => None
       | n => Some (Z.of_nat n)
       end)
  /\ (forall v,
       JsMap.get v (byIDE (getStats m)) =
       match countKey (fun p => ide_str (ide (discovered p))) v ps with
       | O => None
       | n => Some (Z.of_nat n)
       end).
Proof.
  intros ps. split; [reflexivity|]. split; [|split].
  - intros l. unfold getStats. simpl. rewrite groupBy_get. reflexivity.
  - intros s. unfold getStats. simpl. rewrite groupBy_get.
    unfold countKey, getProjectsByStatus.
    replace (List.filter (fun p => String.eqb (status_str (indexStatus p)) (status_str s))
               (getAllProjects m))
      with (List.filter (fun p => status_eqb (indexStatus p) s) (getAllProjects m));
      [reflexivity|].
    apply List.filter_ext. intros p. destruct (indexStatus p), s; reflexivity.
  - intros v. unfold getStats. simpl. apply groupBy_get.
Qed.

End RegistryMore.

(** ** Indexer *)

Module IndexerMore.
Import Scanner Json Metadata Host Async Registry Indexer.
Import AsyncTerms AsyncFacts RegistryTerms JsMapFacts RegistryFacts.
Import IndexerTerms IndexerFacts IndexerMoreTerms.

(** *** reindexProject *)

(** X11.  [reindexProject] for a path the registry does not hold rejects at
    once with "Project not found: <path>", before any suspension point and
    without touching anything; for a path it holds it is [indexProject] of
    the entry found.  The [reindex_project] tool turns a missing or empty
    path, and an unknown one, into an error that starts with "Failed to
    reindex project: ", again with nothing changed. *)
Theorem X11_reindex_unknown_path (w : World) (p : string) :
  (Registry.getProject p (projects w) = None ->
   reindexProject p w = (w, Done (inl ("Project not found: " +:+ p)))
   /\ (p <> "" ->
       run (Tools.reindexProject (Some p)) w =
       (w, inl ("Failed to reindex project: " +:+ "Project not found: " +:+ p))))
  /\ (forall project,
        Registry.getProject p (projects w) = Some project ->
        run (reindexProject p) w = run (indexProject project) w)
  /\ run (Tools.reindexProject None) w =
       (w, inl "Failed to reindex project: project_path is required")
  /\ run (Tools.reindexProject (Some "")) w =
       (w, inl "Failed to reindex project: project_path is required").
Proof.
  split; [|split; [|split; reflexivity]].
  - intros Hnone.
    assert (Hrej : reindexProject p w = (w, Done (inl ("Project not found: " +:+ p)))).
    { unfold reindexProject. monad. unfold bind. simpl. rewrite Hnone. reflexivity. }
    split; [exact Hrej|].
    intros Hp. unfold Tools.reindexProject. rewrite run_try_catch.
    destruct p as [|c p]; [congruence|].
    monad. rewrite run_bind, IndexerSpec.run_await.
    unfold run at 1. rewrite Hrej. reflexivity.
  - intros project Hsome. unfold reindexProject. monad.
    rewrite run_bind, run_get. rewrite Hsome. apply IndexerSpec.run_await.
Qed.

Lemma X11_witness :
  reindexProject "/w/gone" twoProjects =
    (twoProjects, Done (inl "Project not found: /w/gone")).
Proof.
  apply (X11_reindex_unknown_path twoProjects "/w/gone"). reflexivity.
Defined.

(** *** The schedule *)

(** X12.  Auto-indexing keeps the schedule it was first started with.
    However many times [start_auto_indexing] is called while a task is
    running, and whatever schedules are asked for, the task and its
    schedule stay as they are, no call throws (the new expressions are not
    even checked), and each call answers that auto-indexing was started
    with the schedule just asked for.  Only after [stopAutoIndexing] does a
    start, with an expression the scheduler accepts, take effect. *)
Theorem X12_schedule_is_kept (validate : string -> option exn)
    (running : string) (asks : list (option string)) :
  fold_left (fun cronTask asked =>
               snd (Tools.startAutoIndexing validate asked cronTask))
            asks (Some running) = Some running
  /\ (forall asked,
        In asked asks ->
        fst (Tools.startAutoIndexing validate asked (Some running))
        = inr ("Auto-indexing started with schedule: "
               +:+ Tools.scheduleArg asked))
  /\ (forall asked,
        validate (Tools.scheduleArg asked) = None ->
        Tools.startAutoIndexing validate asked
          (Schedule.stopAutoIndexing
             (fold_left (fun cronTask asked =>
                           snd (Tools.startAutoIndexing validate asked cronTask))
                        asks (Some running)))
        = (inr ("Auto-indexing started with schedule: "
                +:+ Tools.scheduleArg asked),
           Some (Tools.scheduleArg asked))).
Proof.
  assert (Hkept : fold_left (fun cronTask asked =>
                               snd (Tools.startAutoIndexing validate asked cronTask))
                            asks (Some running) = Some running).
  { induction asks as [|asked asks IH]; [reflexivity|]. simpl. exact IH. }
  split; [exact Hkept|]. split.
  - intros asked _. reflexivity.
  - intros asked Hvalid. rewrite Hkept.
    unfold Tools.startAutoIndexing, Schedule.startAutoIndexing. simpl.
    rewrite Hvalid. reflexivity.
Qed.

Lemma X12_witness :
  Tools.startAutoIndexing (fun _ => None) (Some "*/5 * * * *")
    (Schedule.stopAutoIndexing
       (fold_left (fun cronTask asked =>
                     snd (Tools.startAutoIndexing (fun _ => None) asked cronTask))
                  [Some "*/10 * * * *"; None] (Some "0 * * * *")))
  = (inr "Auto-indexing started with schedule: */5 * * * *", Some "*/5 * * * *").
Proof.
  destruct (X12_schedule_is_kept (fun _ => None) "0 * * * *"
              [Some "*/10 * * * *"; None]) as (_ & _ & Hrestart).
  apply (Hrestart (Some "*/5 * * * *")). reflexivity.
Defined.

(** *** What is sent to the collaborators *)

#[export] Instance sends_preorder (P : Call -> Prop) : PreOrder (sends P).
Proof.
  split.
  - intros w. split; [reflexivity|]. exists []. rewrite app_nil_r. auto.
  - intros a b c [H1 (e1 & He1 & Hf1)] [H2 (e2 & He2 & Hf2)].
    split; [etransitivity; eassumption|].
    exists (e1 ++ e2). split; [rewrite He2, He1, app_assoc; reflexivity|].
    apply Forall_app. auto.
Qed.

Lemma sends_log (P : Call -> Prop) c w : P c -> sends P w (log_call c w).
Proof.
  intros Hc. split; [apply calls_only_log|].
  exists [c]. split; [reflexivity|]. repeat constructor. exact Hc.
Qed.

Section Sends.
Context (project : ProjectMetadata).
Let R := sends (okCall project).

Lemma sent_callTool tool :
  Sat R fulfilled (callTool tool (path (discovered project))).
Proof.
  unfold callTool. apply (Sat_then R); [|intros ?].
  - apply (Sat_modify R); [|exact I]. intros w. apply sends_log. reflexivity.
  - apply (Sat_io R); [intros; simpl; reflexivity|intros; exact I].
Qed.

Lemma sent_addDocs docs :
  docs <> [] -> Forall (okDoc project) docs -> Sat R fulfilled (addDocs docs).
Proof.
  intros Hne Hok. unfold addDocs. apply (Sat_then R); [|intros ?].
  - apply (Sat_modify R); [|exact I]. intros w. apply sends_log. split; assumption.
  - apply (Sat_io R); [intros; simpl; reflexivity|intros; exact I].
Qed.

Lemma sent_read {A} (f : World -> A) :
  Sat R fulfilled (io (fun w => (w, inr (f w)))).
Proof. apply (Sat_io R); [intros; simpl; reflexivity|intros; exact I]. Qed.

Lemma okDoc_fileDoc lang file content : okDoc project (fileDoc lang project file content).
Proof.
  unfold okDoc, fileDoc. simpl. split; [eexists; reflexivity|].
  split; [reflexivity|]. split; [reflexivity|]. split; [eexists; reflexivity|].
  exists "local_doc". simpl. auto.
Qed.

Lemma okDoc_symbolDoc idTag lang symbol :
  okDoc project (symbolDoc idTag lang project symbol).
Proof.
  unfold okDoc, symbolDoc. simpl. split; [eexists; reflexivity|].
  split; [reflexivity|]. split; [reflexivity|]. split; [eexists; reflexivity|].
  exists "local_symbol". simpl. auto.
Qed.

Lemma okDoc_testDoc idTag lang test :
  okDoc project (testDoc idTag lang project test).
Proof.
  unfold okDoc, testDoc. simpl. split; [eexists; reflexivity|].
  split; [reflexivity|]. split; [reflexivity|]. split; [eexists; reflexivity|].
  exists "local_test". simpl. auto.
Qed.

Lemma Forall_map_ok {A} (f : A -> Doc) (l : list A) :
  (forall a, okDoc project (f a)) -> Forall (okDoc project) (map f l).
Proof. intros H. induction l; simpl; constructor; auto. Qed.

Lemma nonempty_of_length {A} (l : list A) : (0 <? List.length l)%nat = true -> l <> [].
Proof. destruct l; [discriminate|discriminate]. Qed.

Lemma sent_indexDocFiles lang pattern docPath files :
  forall acc,
    Forall (okDoc project) (fst acc) ->
    Sat R (docsOk project) (indexDocFiles lang project pattern docPath files acc).
Proof.
  induction files as [|f files IH]; intros acc Hacc; simpl.
  - apply (Sat_mret R). exact Hacc.
  - destruct (Js.endsWith f ".md" || Js.endsWith f ".txt"); [|apply IH, Hacc].
    monad. apply (Sat_bind R fulfilled); [apply sent_read| |intros e []].
    intros [content|] _.
    + apply IH. simpl. apply Forall_app. split; [exact Hacc|].
      constructor; [apply okDoc_fileDoc|constructor].
    + apply (Sat_ret R). exact Hacc.
Qed.

Lemma sent_indexDocPattern lang pattern acc :
  Forall (okDoc project) (fst acc) ->
  Sat R (docsOk project) (indexDocPattern lang project pattern acc).
Proof.
  intros Hacc. unfold indexDocPattern. monad.
  apply (Sat_bind R fulfilled); [| |intros e []].
  { apply (Sat_bind R fulfilled); [apply (Sat_get R); intros; exact I| |intros e []].
    intros w _. apply (Sat_ret R). exact I. }
  intros docPath _.
  apply (Sat_bind R fulfilled); [apply sent_read| |intros e []].
  intros [[| |]|] _; try (apply (Sat_ret R); exact Hacc).
  - apply (Sat_bind R fulfilled); [apply sent_read| |intros e []].
    intros [content|] _; apply (Sat_ret R); simpl; [|exact Hacc].
    apply Forall_app. split; [exact Hacc|]. constructor; [apply okDoc_fileDoc|constructor].
  - apply (Sat_bind R fulfilled); [apply sent_read| |intros e []].
    intros [files|] _; [apply sent_indexDocFiles, Hacc|apply (Sat_ret R), Hacc].
Qed.

Lemma sent_indexDocPatterns lang patterns :
  forall acc,
    Forall (okDoc project) (fst acc) ->
    Sat R (docsOk project) (indexDocPatterns lang project patterns acc).
Proof.
  induction patterns as [|p ps IH]; intros acc Hacc; simpl.
  - apply (Sat_mret R). exact Hacc.
  - monad. apply (Sat_bind R (docsOk project));
      [apply sent_indexDocPattern, Hacc| |intros e []].
    intros acc' Hacc'. apply IH. exact Hacc'.
Qed.

Lemma sent_indexProjectDocs lang :
  Sat R fulfilled (indexProjectDocs project lang).
Proof.
  unfold indexProjectDocs. monad.
  apply (Sat_bind R (docsOk project)); [| |intros e []].
  { apply sent_indexDocPatterns. constructor. }
  intros [docDocs docCount] Hdocs. simpl in Hdocs.
  destruct (0 <? List.length docDocs)%nat eqn:Hlen.
  - apply (Sat_bind R fulfilled); [| |intros e []].
    + apply sent_addDocs; [apply nonempty_of_length, Hlen|exact Hdocs].
    + intros _ _. apply (Sat_ret R). exact I.
  - apply (Sat_ret R). exact I.
Qed.

Lemma sent_indexTests testTool idTag lang symbolCount :
  Sat R fulfilled (indexTests testTool idTag lang project symbolCount).
Proof.
  assert (Hdocs : forall testCount,
             Sat R fulfilled
               (docCount ← indexProjectDocs project lang;
                mret (mkCounts symbolCount testCount docCount))).
  { intros testCount. apply (Sat_then R); [apply sent_indexProjectDocs|].
    intros; apply (Sat_mret R); exact I. }
  unfold indexTests. apply (Sat_then R); [apply sent_callTool|].
  intros [e| |tests|len]; try (apply (Sat_mret R); exact I); try apply Hdocs.
  destruct (0 <? _)%nat eqn:Hlen; [|apply Hdocs].
  apply (Sat_then R).
  - apply sent_addDocs; [apply nonempty_of_length, Hlen|].
    apply Forall_map_ok. intros a. apply okDoc_testDoc.
  - intros [e|]; [apply (Sat_mret R); exact I|apply Hdocs].
Qed.

Lemma sent_indexWith symbolTool testTool idTag lang :
  Sat R fulfilled (indexWith symbolTool testTool idTag lang project).
Proof.
  unfold indexWith. apply (Sat_then R); [apply sent_callTool|].
  intros [e| |symbols|len]; try (apply (Sat_mret R); exact I);
    try apply sent_indexTests.
  destruct (0 <? _)%nat eqn:Hlen; [|apply sent_indexTests].
  apply (Sat_then R).
  - apply sent_addDocs; [apply nonempty_of_length, Hlen|].
    apply Forall_map_ok. intros a. apply okDoc_symbolDoc.
  - intros [e|]; [apply (Sat_mret R); exact I|apply sent_indexTests].
Qed.

Lemma sent_languagePass : Sat R fulfilled (languagePass project).
Proof.
  unfold languagePass. destruct (language (discovered project)).
  - apply (Sat_await R), sent_indexWith.
  - apply (Sat_await R), sent_indexWith.
  - apply (Sat_await R), sent_indexWith.
  - apply (Sat_then R).
    + apply (Sat_await R).
      apply (Sat_allSettled3 R fulfilled); apply sent_indexWith.
    + intros results. apply (Sat_mret R). exact I.
Qed.

End Sends.

Lemma calls_saved (w : World) : calls (saved w) = calls w.
Proof.
  unfold saved. destruct (mkdirError (env w)), (writeError (env w)); reflexivity.
Qed.

Lemma calls_run_updateIndexStatus projectPath status metadata (w : World) :
  calls (fst (run (updateIndexStatus projectPath status metadata) w)) = calls w.
Proof.
  rewrite run_updateIndexStatus.
  destruct (JsMap.get projectPath (projects w)); [|reflexivity].
  simpl. rewrite calls_saved. reflexivity.
Qed.

(** [indexProject] run alone, step by step. *)
Lemma run_indexProject_steps (project : ProjectMetadata) (w : World) :
  exists w1 w2 counts w3,
    run (updateIndexStatus (path (discovered project)) indexing None) w
      = (w1, inr tt) /\
    run (languagePass project) w1 = (w2, inr counts) /\
    run (updateIndexStatus (path (discovered project)) completed
           (Some (countsPatch counts))) w2 = (w3, inr tt) /\
    run (indexProject project) w = (w3, inr tt).
Proof.
  destruct (IndexerSpec.run_updateIndexStatus_result
              (path (discovered project)) indexing None w)
    as (w1 & Hrun1 & _).
  pose proof (Sat_run calls_only fulfilled _ (Sat_languagePass project) w1)
    as [_ Hful].
  destruct (run (languagePass project) w1) as [w2 [e|counts]] eqn:Hrun2;
    [destruct Hful|].
  destruct (IndexerSpec.run_updateIndexStatus_result
              (path (discovered project)) completed (Some (countsPatch counts)) w2)
    as (w3 & Hrun3 & _).
  exists w1, w2, counts, w3.
  split; [exact Hrun1|]. split; [exact Hrun2|]. split; [exact Hrun3|].
  unfold indexProject. rewrite run_try_catch.
  unfold languagePass in Hrun2. unfold countsPatch in Hrun3. monad.
  rewrite run_bind, IndexerSpec.run_await, Hrun1, run_bind, Hrun2.
  rewrite IndexerSpec.run_await, Hrun3. reflexivity.
Qed.

(** X13.  During [indexProject], run alone, every call to a collaborator is
    for the project being indexed: each analyzer call is on the project's
    path, [addDocuments] is never called with an empty batch, and every
    document in a batch has an id that starts with the project's path and
    carries, in its metadata, the project's path and name, a language and
    one of the types local_symbol, local_test and local_doc. *)
Theorem X13_calls_are_for_the_project (project : ProjectMetadata) (w : World) :
  exists extra,
    calls (fst (run (indexProject project) w)) = calls w ++ extra
    /\ Forall (okCall project) extra.
Proof.
  destruct (run_indexProject_steps project w)
    as (w1 & w2 & counts & w3 & Hrun1 & Hrun2 & Hrun3 & Hrun).
  pose proof (Sat_run (sends (okCall project)) fulfilled _
                (sent_languagePass project) w1) as [[_ (extra & Hextra & Hok)] _].
  rewrite Hrun2 in Hextra. simpl in Hextra.
  exists extra. split; [|exact Hok].
  pose proof (calls_run_updateIndexStatus (path (discovered project)) indexing None w) as H1.
  rewrite Hrun1 in H1. simpl in H1.
  pose proof (calls_run_updateIndexStatus (path (discovered project)) completed
                (Some (countsPatch counts)) w2) as H3.
  rewrite Hrun3 in H3. simpl in H3.
  rewrite Hrun. simpl. congruence.
Qed.

(** *** What a pass leaves alone *)

Lemma passed_keys projectPath counts now (m : JsMap.t ProjectMetadata) :
  JsMap.keys (passed projectPath counts now m) = JsMap.keys m.
Proof.
  unfold passed. rewrite !RegistryMore.updateIndexStatus_map_keys. reflexivity.
Qed.

Lemma passed_absent projectPath counts now (m : JsMap.t ProjectMetadata) :
  JsMap.get projectPath m = None -> passed projectPath counts now m = m.
Proof.
  intros H. unfold passed, updateIndexStatus_map. rewrite H, H. reflexivity.
Qed.

Lemma first_call (project : ProjectMetadata) (w : World) :
  exists tool rest,
    calls (fst (languagePass project w))
      = calls w ++ CallTool tool (path (discovered project)) :: rest.
Proof.
  unfold languagePass.
  destruct (language (discovered project)); eexists; eexists; simpl;
    [reflexivity|reflexivity|reflexivity|].
  unfold log_call. simpl. rewrite <- !app_assoc. simpl. reflexivity.
Qed.

Lemma languagePass_calls (project : ProjectMetadata) (w : World) :
  exists tool rest,
    calls (fst (run (languagePass project) w))
      = calls w ++ CallTool tool (path (discovered project)) :: rest.
Proof.
  destruct (first_call project w) as (tool & rest & Hfirst).
  destruct (sent_languagePass project w) as [_ Hst].
  unfold run. destruct (languagePass project w) as [w0 st]. simpl in *.
  destruct (StepSat_run (sends (okCall project)) fulfilled st Hst w0 w0)
    as [[_ (extra & Hextra & _)] _]; [reflexivity|].
  exists tool, (rest ++ extra).
  destruct (runStep st w0) as [w' r]. simpl in *.
  rewrite Hextra, Hfirst, <- app_assoc. reflexivity.
Qed.

(** X14.  A pass of [indexProject], run alone, never adds, removes or
    reorders registry entries, leaves every entry under another path and
    the in-flight flag as they are, and settles without throwing.  For a
    project whose path is no longer registered it still calls the analyzer,
    and leaves the registry and its file untouched: the project is not
    registered again. *)
Theorem X14_indexProject_frame (project : ProjectMetadata) (w : World) :
  let w' := fst (run (indexProject project) w) in
  snd (run (indexProject project) w) = inr tt
  /\ JsMap.keys (projects w') = JsMap.keys (projects w)
  /\ (forall k, k <> path (discovered project) ->
                JsMap.get k (projects w') = JsMap.get k (projects w))
  /\ isIndexing w' = isIndexing w
  /\ (JsMap.get (path (discovered project)) (projects w) = None ->
      projects w' = projects w /\ file w' = file w /\
      exists tool rest,
        calls w' = calls w ++ CallTool tool (path (discovered project)) :: rest).
Proof.
  intros w'. subst w'.
  destruct (IndexerSpec.run_indexProject project w)
    as (v1 & v2 & c & v3 & _ & _ & _ & Hrun & Hp3 & _ & Hf3).
  rewrite Hrun. simpl. split; [reflexivity|].
  split; [rewrite Hp3; apply passed_keys|].
  split; [intros k Hk; rewrite Hp3; apply IndexerSpec.passed_elsewhere, Hk|].
  split; [exact Hf3|].
  intros Hnone. split; [rewrite Hp3; apply passed_absent, Hnone|].
  destruct (run_indexProject_steps project w)
    as (w1 & w2 & counts & w3 & Hrun1 & Hrun2 & Hrun3 & Hrun').
  rewrite Hrun in Hrun'. injection Hrun' as <-.
  rewrite run_updateIndexStatus, Hnone in Hrun1. injection Hrun1 as <-.
  pose proof (Sat_run calls_only fulfilled _ (Sat_languagePass project) w)
    as [(Hp2 & Hfile2 & _ & _) _].
  destruct (languagePass_calls project w) as (tool & rest & Hcalls).
  rewrite Hrun2 in Hp2, Hfile2, Hcalls. simpl in Hp2, Hfile2, Hcalls.
  rewrite run_updateIndexStatus in Hrun3. rewrite Hp2, Hnone in Hrun3.
  injection Hrun3 as <-.
  split; [exact Hfile2|]. exists tool, rest. exact Hcalls.
Qed.

Lemma X14_witness :
  let gone := sampleMetadata "/w/gone" python pending None None in
  let w' := fst (run (indexProject gone) twoProjects) in
  projects w' = projects twoProjects
  /\ exists tool rest, calls w' = CallTool tool "/w/gone" :: rest.
Proof.
  intros gone w'. subst w'.
  destruct (X14_indexProject_frame gone twoProjects) as (_ & _ & _ & _ & Hgone).
  destruct (Hgone eq_refl) as (Hp & _ & tool & rest & Hcalls).
  split; [exact Hp|]. exists tool, rest. exact Hcalls.
Defined.

(** *** The counts *)


Lemma run_addDocs docs (w : World) :
  run (addDocs docs) w =
  (log_call (CallAddDocuments docs) w, inr (addDocuments (env w) docs)).
Proof. unfold addDocs. monad. rewrite run_bind, run_modify, run_io. reflexivity. Qed.






(** *** A batch leaves nothing pending *)

Lemma processed_fresh now (q : ProjectMetadata) :
  now <> 0 -> processed now q -> needsIndex now q = false.
Proof.
  intros Hnow [Hst Hli]. unfold needsIndex. rewrite Hli, Hst.
  destruct (Z.eqb_spec now 0) as [|_]; [contradiction|]. simpl.
  replace (now - now) with 0 by lia. reflexivity.
Qed.

Lemma run_batch_loop_processed (ps : list ProjectMetadata) :
  forall w,
    exists w',
      run (for_of ps (fun project => await (indexProject project))) w
        = (w', inr tt) /\
      env w' = env w /\
      JsMap.keys (projects w') = JsMap.keys (projects w) /\
      (forall k,
         ~ In k (map (fun p => path (discovered p)) ps) ->
         JsMap.get k (projects w') = JsMap.get k (projects w)) /\
      (forall p q,
         In p ps ->
         JsMap.get (path (discovered p)) (projects w) = Some q ->
         exists q',
           JsMap.get (path (discovered p)) (projects w') = Some q' /\
           processed (now (env w)) q').
Proof.
  induction ps as [|p0 ps IH]; intros w.
  - exists w. simpl. rewrite run_ret. repeat split; auto. intros p q [].
  - destruct (IndexerSpec.run_indexProject p0 w)
      as (w1 & w2 & counts & w3 & _ & _ & _ & Hrun & Hp3 & He3 & _).
    destruct (IH w3) as (w' & Hrun' & He' & Hkeys' & Hframe' & Hdone').
    exists w'. split.
    { simpl. rewrite run_bind, IndexerSpec.run_await, Hrun. exact Hrun'. }
    split; [congruence|].
    split; [rewrite Hkeys', Hp3; apply passed_keys|].
    split.
    + intros k Hk. simpl in Hk.
      rewrite Hframe' by tauto. rewrite Hp3.
      apply IndexerSpec.passed_elsewhere. intros ->. tauto.
    + intros p q Hin Hq.
      assert (H3 : exists q3,
                 JsMap.get (path (discovered p)) (projects w3) = Some q3 /\
                 (path (discovered p) = path (discovered p0) ->
                  processed (now (env w)) q3)).
      { destruct (string_dec (path (discovered p)) (path (discovered p0)))
          as [Heq|Hne].
        - rewrite Heq in Hq |- *.
          destruct (IndexerSpec.passed_at _ counts (now (env w)) _ q Hq)
            as (q3 & Hq3 & Hst & Hli & _).
          exists q3. rewrite Hp3. split; [exact Hq3|]. intros _. split; assumption.
        - exists q. rewrite Hp3, IndexerSpec.passed_elsewhere by exact Hne.
          split; [exact Hq|]. intros; contradiction. }
      destruct H3 as (q3 & Hq3 & Hproc3).
      destruct (in_dec string_dec (path (discovered p))
                  (map (fun p => path (discovered p)) ps)) as [Hlater|Hlast].
      * apply in_map_iff in Hlater as (p' & Hpath & Hin').
        rewrite <- Hpath in Hq3 |- *.
        destruct (Hdone' p' q3 Hin' Hq3) as (q' & Hq' & Hproc).
        exists q'. rewrite He3 in Hproc. auto.
      * destruct Hin as [<-|Hin].
        -- exists q3. rewrite Hframe' by exact Hlast. auto.
        -- exfalso. apply Hlast. apply in_map_iff. eauto.
Qed.

Lemma run_batch (w : World) :
  isIndexing w = false ->
  exists w'',
    run (for_of (getProjectsNeedingIndex (now (env w)) (projects w))
           (fun project => await (indexProject project)))
        (set_isIndexing true w) = (w'', inr tt) /\
    run indexPendingProjects w = (set_isIndexing false w'', inr tt).
Proof.
  intros Hdown.
  destruct (run_batch_loop_processed
              (getProjectsNeedingIndex (now (env w)) (projects w))
              (set_isIndexing true w)) as (w'' & Hrun & _).
  exists w''. split; [exact Hrun|].
  rewrite (run_ext _ _ _ _ (indexPendingProjects_enters _ Hdown)).
  rewrite run_try_finally, run_try_catch. monad. rewrite run_bind, run_get.
  cbn [env projects set_isIndexing]. rewrite Hrun. reflexivity.
Qed.

(** X16.  A batch that runs alone, at a clock that is not zero, leaves no
    project in need of indexing: every project it had to index is now
    completed with [lastIndexed] the time of the batch, every other entry
    is as it was, and [getProjectsNeedingIndex] at that time is empty.  A
    second batch at the same time therefore calls no analyzer and leaves
    the registry as it is. *)
Theorem X16_batch_leaves_nothing_pending (w : World) :
  keyed (projects w) ->
  isIndexing w = false ->
  now (env w) <> 0 ->
  let w' := fst (run indexPendingProjects w) in
  (forall p,
     In p (getProjectsNeedingIndex (now (env w)) (projects w)) ->
     exists q,
       JsMap.get (path (discovered p)) (projects w') = Some q /\
       indexStatus q = completed /\ lastIndexed q = Some (now (env w))) /\
  (forall k q,
     JsMap.get k (projects w) = Some q ->
     needsIndex (now (env w)) q = false ->
     JsMap.get k (projects w') = Some q) /\
  getProjectsNeedingIndex (now (env w)) (projects w') = [] /\
  calls (fst (run indexPendingProjects w')) = calls w' /\
  projects (fst (run indexPendingProjects w')) = projects w'.
Proof.
  intros Hkeyed Hdown Hnow w'.
  destruct (run_batch w Hdown) as (w1 & Hloop & Hrun).
  destruct (run_batch_loop_processed
              (getProjectsNeedingIndex (now (env w)) (projects w))
              (set_isIndexing true w))
    as (w2 & Hloop2 & He & Hkeys & Hframe & Hdone).
  rewrite Hloop in Hloop2. injection Hloop2 as <-.
  cbn [env projects set_isIndexing] in He, Hkeys, Hframe, Hdone.
  assert (Hw' : w' = set_isIndexing false w1) by (unfold w'; rewrite Hrun; reflexivity).
  assert (Hpending : forall p,
            In p (getProjectsNeedingIndex (now (env w)) (projects w)) ->
            JsMap.get (path (discovered p)) (projects w) = Some p).
  { intros p Hin. apply IndexerSpec.keyed_values_get; [exact Hkeyed|].
    unfold getProjectsNeedingIndex in Hin. apply List.filter_In in Hin. tauto. }
  assert (Hone : forall p,
            In p (getProjectsNeedingIndex (now (env w)) (projects w)) ->
            exists q,
              JsMap.get (path (discovered p)) (projects w1) = Some q /\
              processed (now (env w)) q).
  { intros p Hin. apply (Hdone p p Hin (Hpending p Hin)). }
  assert (Hother : forall k q,
            JsMap.get k (projects w) = Some q ->
            needsIndex (now (env w)) q = false ->
            JsMap.get k (projects w1) = Some q).
  { intros k q Hq Hfresh. rewrite Hframe; [exact Hq|].
    intros Hin. apply in_map_iff in Hin as (p & Hpath & Hin).
    pose proof (Hpending p Hin) as Hp. rewrite Hpath, Hq in Hp.
    injection Hp as ->.
    unfold getProjectsNeedingIndex in Hin. apply List.filter_In in Hin.
    destruct Hin as [_ Hneeds]. congruence. }
  assert (Hnone : getProjectsNeedingIndex (now (env w)) (projects w1) = []).
  { unfold getProjectsNeedingIndex, getAllProjects.
    destruct (List.filter (needsIndex (now (env w))) (JsMap.values (projects w1)))
      as [|q' rest] eqn:Hfilter; [reflexivity|exfalso].
    assert (Hin : In q' (List.filter (needsIndex (now (env w)))
                           (JsMap.values (projects w1))))
      by (rewrite Hfilter; left; reflexivity).
    apply List.filter_In in Hin as [Hin Hneeds].
    unfold JsMap.values in Hin. apply in_map_iff in Hin as ([k v] & Hv & Hin).
    simpl in Hv. subst v.
    destruct Hkeyed as [Hnd Hkey].
    assert (Hq' : JsMap.get k (projects w1) = Some q')
      by (apply In_get; [rewrite Hkeys; exact Hnd|exact Hin]).
    destruct (JsMap.get k (projects w)) as [q|] eqn:Hq.
    - pose proof (get_In _ _ _ Hq) as Hinq.
      rewrite List.Forall_forall in Hkey. pose proof (Hkey _ Hinq) as Hpath.
      simpl in Hpath.
      destruct (needsIndex (now (env w)) q) eqn:Hneedsq.
      + assert (Hinp : In q (getProjectsNeedingIndex (now (env w)) (projects w))).
        { unfold getProjectsNeedingIndex, getAllProjects.
          apply List.filter_In. split; [|exact Hneedsq].
          unfold JsMap.values. change q with (snd (k, q)). apply in_map. exact Hinq. }
        destruct (Hone q Hinp) as (q1 & Hq1 & Hproc).
        rewrite Hpath, Hq' in Hq1. injection Hq1 as <-.
        rewrite (processed_fresh _ _ Hnow Hproc) in Hneeds. discriminate.
      + rewrite (Hother k q Hq Hneedsq) in Hq'. congruence.
    - apply get_None_keys in Hq. apply Hq. rewrite <- Hkeys.
      apply (RegistryMore.get_keys k q'). exact Hq'. }
  rewrite Hw'. cbn [projects env calls set_isIndexing].
  split.
  { intros p Hin. destruct (Hone p Hin) as (q & Hq & Hst & Hli). eauto. }
  split; [exact Hother|]. split; [exact Hnone|].
  assert (Hdown' : isIndexing (set_isIndexing false w1) = false) by reflexivity.
  destruct (run_batch (set_isIndexing false w1) Hdown') as (w3 & Hloop3 & Hrun3).
  cbn [env projects set_isIndexing] in Hloop3.
  rewrite He, Hnone in Hloop3. simpl in Hloop3. rewrite run_ret in Hloop3.
  injection Hloop3 as <-. rewrite Hrun3. split; reflexivity.
Qed.

Lemma X16_witness :
  getProjectsNeedingIndex (now (env twoProjects))
    (projects (fst (run indexPendingProjects twoProjects))) = [].
Proof.
  destruct (X16_batch_leaves_nothing_pending twoProjects) as (_ & _ & Hnone & _).
  - split; [repeat constructor; simpl; intuition discriminate
           |repeat constructor].
  - reflexivity.
  - discriminate.
  - exact Hnone.
Defined.

(** *** The documentation pass *)

Lemma run_indexDocFiles_cut lang project pattern docPath bad after (w : World) :
  (Js.endsWith bad ".md" || Js.endsWith bad ".txt") = true ->
  readFile (env w) (join (env w) docPath bad) = None ->
  forall before acc,
    run (indexDocFiles lang project pattern docPath (before ++ bad :: after) acc) w
    = run (indexDocFiles lang project pattern docPath before acc) w.
Proof.
  intros Hdoc Hread. induction before as [|file before IH]; intros acc.
  - simpl. rewrite Hdoc. monad. rewrite run_bind, run_io, Hread. reflexivity.
  - simpl. destruct (Js.endsWith file ".md" || Js.endsWith file ".txt");
      [|apply IH].
    monad. rewrite !run_bind, !run_io.
    destruct (readFile (env w) (join (env w) docPath file)); [apply IH|reflexivity].
Qed.

Lemma run_indexDocFiles_count lang project pattern docPath files (w : World) :
  forall acc,
    snd acc = Z.of_nat (List.length (fst acc)) ->
    exists acc',
      run (indexDocFiles lang project pattern docPath files acc) w = (w, inr acc') /\
      snd acc' = Z.of_nat (List.length (fst acc')).
Proof.
  induction files as [|file files IH]; intros acc Hacc.
  - exists acc. simpl. monad. rewrite run_ret. auto.
  - simpl. destruct (Js.endsWith file ".md" || Js.endsWith file ".txt");
      [|apply IH, Hacc].
    monad. rewrite run_bind, run_io.
    destruct (readFile (env w) (join (env w) docPath file)) as [content|].
    + apply IH. simpl. rewrite List.length_app. simpl. lia.
    + exists acc. rewrite run_ret. auto.
Qed.

Lemma run_indexDocPattern_count lang project pattern (w : World) acc :
  snd acc = Z.of_nat (List.length (fst acc)) ->
  exists acc',
    run (indexDocPattern lang project pattern acc) w = (w, inr acc') /\
    snd acc' = Z.of_nat (List.length (fst acc')).
Proof.
  intros Hacc. unfold indexDocPattern. monad.
  rewrite !run_bind, run_get, run_ret, run_bind, run_io.
  destruct (stat (env w) (join (env w) (path (discovered project)) pattern))
    as [[| |]|].
  - rewrite run_bind, run_io.
    destruct (readFile (env w) (join (env w) (path (discovered project)) pattern)).
    + eexists. rewrite run_ret. split; [reflexivity|].
      simpl. rewrite List.length_app. simpl. lia.
    + exists acc. rewrite run_ret. auto.
  - rewrite run_bind, run_io.
    destruct (readdir (env w) (join (env w) (path (discovered project)) pattern)).
    + apply run_indexDocFiles_count, Hacc.
    + exists acc. rewrite run_ret. auto.
  - exists acc. rewrite run_ret. auto.
  - exists acc. rewrite run_ret. auto.
Qed.

Lemma run_indexDocPatterns_count lang project patterns (w : World) :
  forall acc,
    snd acc = Z.of_nat (List.length (fst acc)) ->
    exists acc',
      run (indexDocPatterns lang project patterns acc) w = (w, inr acc') /\
      snd acc' = Z.of_nat (List.length (fst acc')).
Proof.
  induction patterns as [|pattern patterns IH]; intros acc Hacc.
  - exists acc. simpl. monad. rewrite run_ret. auto.
  - simpl. monad. rewrite run_bind.
    destruct (run_indexDocPattern_count lang project pattern w acc Hacc)
      as (acc1 & -> & Hacc1).
    apply IH, Hacc1.
Qed.

(** X23.  The documentation pass.  In a documentation directory a file
    ending in [.md] or [.txt] that cannot be read ends the directory: the
    files listed before it are taken, those after it are not looked at.
    The number [indexProjectDocs] returns is the number of documents it
    collected, which it sends in one batch when there is at least one; the
    number is returned whether or not the storage takes the batch. *)
Theorem X23_documentation_pass
    (project : ProjectMetadata) (lang : string) (w : World) :
  (forall pattern docPath before bad after acc,
     (Js.endsWith bad ".md" || Js.endsWith bad ".txt") = true ->
     readFile (env w) (join (env w) docPath bad) = None ->
     run (indexDocFiles lang project pattern docPath (before ++ bad :: after) acc) w
     = run (indexDocFiles lang project pattern docPath before acc) w) /\
  exists docs,
    run (indexDocPatterns lang project docPatterns ([], 0)) w
      = (w, inr (docs, Z.of_nat (List.length docs))) /\
    snd (run (indexProjectDocs project lang) w) = inr (Z.of_nat (List.length docs)) /\
    calls (fst (run (indexProjectDocs project lang) w))
    = calls w ++ match docs with [] => [] | _ => [CallAddDocuments docs] end.
Proof.
  split.
  - intros pattern docPath before bad after acc Hdoc Hread.
    apply run_indexDocFiles_cut; assumption.
  - destruct (run_indexDocPatterns_count lang project docPatterns w ([], 0) eq_refl)
      as ([docs n] & Hrun & Hn).
    simpl in Hn. subst n. exists docs. split; [exact Hrun|].
    unfold indexProjectDocs. monad. rewrite run_bind, Hrun.
    destruct docs as [|doc docs].
    + cbn [List.length Nat.ltb Nat.leb]. rewrite run_ret. simpl.
      rewrite app_nil_r. auto.
    + cbn [List.length Nat.ltb Nat.leb]. rewrite run_bind, run_addDocs, run_ret.
      simpl. auto.
Qed.

Lemma X23_witness :
  let svc := sampleMetadata "/w/svc" go pending None None in
  let w := worldOf docsEnv [("/w/svc", svc)] in
  run (indexDocFiles "go" svc "docs" "/w/svc/docs" ["a.md"; "b.md"; "c.md"] ([], 0)) w
  = run (indexDocFiles "go" svc "docs" "/w/svc/docs" ["a.md"] ([], 0)) w.
Proof.
  intros svc w.
  destruct (X23_documentation_pass svc "go" w) as [Hcut _].
  apply (Hcut "docs" "/w/svc/docs" ["a.md"] "b.md" ["c.md"] ([], 0));
    reflexivity.
Defined.

(** *** A mixed project *)







Section DocumentedProject.
Context (project : ProjectMetadata) (wr : World) (docs : list Doc) (n : Z).
Hypothesis Hanalyzers :
  forall tool,
    handleTool (env wr) tool (path (discovered project)) = ANoText \/
    exists items,
      handleTool (env wr) tool (path (discovered project)) = AItems items.
Hypothesis Hstorage : forall ds, addDocuments (env wr) ds = None.
Hypothesis Hdocs :
  run (indexDocPatterns "go" project docPatterns ([], 0)) wr = (wr, inr (docs, n)).





End DocumentedProject.



End IndexerMore.

(** ** More of the file watcher *)

Module WatcherMore.
Import Scanner Metadata FileWatcher WatchAll.
Import WatcherTerms WatcherMoreTerms.

Ltac split5 := split; [|split; [|split; [|split]]].

Lemma In_clearTimeout h t (l : list Timer) :
  In t (clearTimeout h l) <-> In t l /\ handle t <> h.
Proof.
  unfold clearTimeout. rewrite List.filter_In.
  destruct (Nat.eqb_spec (handle t) h); simpl; intuition congruence.
Qed.

Lemma fold_fire (l : list Timer) :
  forall s,
    let s' := fold_left (fun s x => fire x s) l s in
    watchers s' = watchers s /\ debounceTimers s' = debounceTimers s /\
    armed s' = armed s /\ nextHandle s' = nextHandle s /\ clock s' = clock s /\
    inflight s' = inflight s ++ map pathOf l /\
    reindexCalls s' = reindexCalls s ++ map (fun x => (pathOf x, clock s)) l.
Proof.
  induction l as [|x l IH]; intros s; simpl.
  - rewrite !app_nil_r. auto 10.
  - destruct (IH (fire x s)) as (Hw & Hd & Ha & Hn & Hc & Hi & Hr).
    rewrite Hw, Hd, Ha, Hn, Hc, Hi, Hr. simpl.
    rewrite <- !app_assoc. auto 10.
Qed.

Lemma advance_fields t s :
  watchers (advance t s) = watchers s /\
  debounceTimers (advance t s) = debounceTimers s /\
  armed (advance t s) =
    List.filter (fun x => negb (due x <=? Z.max t (clock s))) (armed s) /\
  nextHandle (advance t s) = nextHandle s /\
  reindexCalls (advance t s) =
    reindexCalls s ++
    map (fun x => (pathOf x, Z.max t (clock s)))
        (List.filter (fun x => due x <=? Z.max t (clock s)) (armed s)).
Proof.
  unfold advance.
  match goal with
  | |- context [fold_left _ ?l ?s0] =>
      destruct (fold_fire l s0) as (Hw & Hd & Ha & Hn & _ & _ & Hr)
  end.
  rewrite Hw, Hd, Ha, Hn, Hr. simpl. auto.
Qed.

Lemma WellFormed_init : WellFormed init.
Proof.
  unfold WellFormed, init. simpl.
  split5.
  - intros k project H. rewrite lookup_empty in H. discriminate.
  - intros t [].
  - intros q h H. rewrite lookup_empty in H. discriminate.
  - intros q h t H. rewrite lookup_empty in H. discriminate.
  - intros q [h H]. rewrite lookup_empty in H. discriminate.
Qed.

Lemma WellFormed_watchProject project s :
  WellFormed s -> WellFormed (watchProject project s).
Proof.
  intros (Hk & Ha & Hd & Ht & Hsub). unfold watchProject.
  destruct (watchers s !! path (discovered project)) eqn:Hw;
    [split5; assumption|].
  split5; simpl; try assumption.
  - intros k p'. destruct (decide (path (discovered project) = k)) as [<-|Hne].
    + rewrite lookup_insert_eq. congruence.
    + rewrite lookup_insert_ne by exact Hne. apply Hk.
  - intros q Hq. destruct (decide (path (discovered project) = q)) as [<-|Hne].
    + rewrite lookup_insert_eq. eauto.
    + rewrite lookup_insert_ne by exact Hne. auto.
Qed.

Lemma WellFormed_debounceReindex project s :
  WellFormed s ->
  is_Some (watchers s !! path (discovered project)) ->
  WellFormed (debounceReindex project s).
Proof.
  intros (Hk & Ha & Hd & Ht & Hsub) Hwatched. unfold debounceReindex.
  set (p := path (discovered project)).
  set (armed' := match debounceTimers s !! p with
                 | Some existingTimer => clearTimeout existingTimer (armed s)
                 | None => armed s
                 end).
  assert (Hin' : forall t, In t armed' -> In t (armed s)).
  { intros t. unfold armed'. destruct (debounceTimers s !! p); [|tauto].
    rewrite In_clearTimeout. tauto. }
  split5; simpl.
  - exact Hk.
  - intros t Hin. apply in_app_or in Hin as [Hin|[<-|[]]].
    + apply Hin', Ha in Hin. lia.
    + simpl. lia.
  - intros q h. destruct (decide (p = q)) as [<-|Hne].
    + rewrite lookup_insert_eq. intros [= <-]. lia.
    + rewrite lookup_insert_ne by exact Hne. intros H. apply Hd in H. lia.
  - intros q h t. destruct (decide (p = q)) as [<-|Hne].
    + rewrite lookup_insert_eq. intros [= <-] Hin Hh.
      apply in_app_or in Hin as [Hin|[<-|[]]]; [|reflexivity].
      apply Hin', Ha in Hin. lia.
    + rewrite lookup_insert_ne by exact Hne. intros Hq Hin Hh.
      apply in_app_or in Hin as [Hin|[<-|[]]].
      * apply (Ht q h t Hq (Hin' _ Hin) Hh).
      * simpl in Hh. apply Hd in Hq. lia.
  - intros q. destruct (decide (p = q)) as [<-|Hne].
    + intros _. exact Hwatched.
    + rewrite lookup_insert_ne by exact Hne. apply Hsub.
Qed.

Lemma notify_cases projectPath filename s :
  notify projectPath filename s = s \/
  exists project,
    watchers s !! projectPath = Some project /\
    notify projectPath filename s = debounceReindex project s.
Proof.
  unfold notify. destruct (watchers s !! projectPath) as [project|]; [|auto].
  destruct filename as [[|c f]|]; [auto| |auto].
  unfold handleFileChange.
  destruct (shouldIgnoreFile (String c f)); [auto|].
  destruct (negb (isSourceFile (String c f) (language (discovered project))));
    [auto|].
  right. exists project. auto.
Qed.

Lemma WellFormed_stop projectPath s :
  WellFormed s -> WellFormed (stopWatchingProject projectPath s).
Proof.
  intros (Hk & Ha & Hd & Ht & Hsub). unfold stopWatchingProject.
  assert (Hk' : forall k project,
             delete projectPath (watchers s) !! k = Some project ->
             path (discovered project) = k).
  { intros k project H. apply lookup_delete_Some in H as [_ H]. eauto. }
  destruct (debounceTimers s !! projectPath) as [timer|] eqn:Htimer;
    split5; simpl; try assumption.
  - intros t Hin. apply In_clearTimeout in Hin as [Hin _]. auto.
  - intros q h H. apply lookup_delete_Some in H as [_ H]. eauto.
  - intros q h t H Hin Hh. apply lookup_delete_Some in H as [_ H].
    apply In_clearTimeout in Hin as [Hin _]. eauto.
  - intros q [h H]. apply lookup_delete_Some in H as [Hne H].
    rewrite lookup_delete_ne by exact Hne. eauto.
  - intros q Hq. destruct (decide (projectPath = q)) as [<-|Hne].
    + rewrite Htimer in Hq. destruct Hq; discriminate.
    + rewrite lookup_delete_ne by exact Hne. auto.
Qed.

Lemma WellFormed_step s ev : WellFormed s -> WellFormed (step s ev).
Proof.
  intros Hwf. destruct ev as [project|p|p f|t|i]; simpl.
  - apply WellFormed_watchProject, Hwf.
  - apply WellFormed_stop, Hwf.
  - destruct (notify_cases p f s) as [->|(project & Hw & ->)]; [exact Hwf|].
    apply WellFormed_debounceReindex; [exact Hwf|].
    destruct Hwf as (Hk & _). rewrite (Hk _ _ Hw). eauto.
  - destruct Hwf as (Hk & Ha & Hd & Ht & Hsub).
    destruct (advance_fields t s) as (Hw' & Hd' & Ha' & Hn' & _).
    unfold WellFormed. rewrite Hw', Hd', Ha', Hn'.
    split5; try assumption.
    + intros x Hin. apply List.filter_In in Hin as [Hin _]. auto.
    + intros q h x Hq Hin. apply List.filter_In in Hin as [Hin _]. eauto.
  - destruct Hwf as (Hk & Ha & Hd & Ht & Hsub). unfold settle.
    destruct (inflight s !! i) as [p|]; [|split5; assumption].
    split5; simpl; try assumption.
    + intros q h H. apply lookup_delete_Some in H as [_ H]. eauto.
    + intros q h t H. apply lookup_delete_Some in H as [_ H]. eauto.
    + intros q [h H]. apply lookup_delete_Some in H as [_ H]. eauto.
Qed.

Lemma WellFormed_steps evs : forall s, WellFormed s -> WellFormed (steps s evs).
Proof.
  induction evs as [|ev evs IH]; intros s Hwf; [exact Hwf|].
  simpl. apply IH, WellFormed_step, Hwf.
Qed.

(** *** Unwatching *)

Lemma calls_of_others p T (l : list Timer) :
  (forall x, In x l -> pathOf x <> p) ->
  List.filter (fun c : string * Z => String.eqb (fst c) p)
              (map (fun x => (pathOf x, T)) l) = [].
Proof.
  induction l as [|x l IH]; intros H; [reflexivity|]. simpl.
  destruct (String.eqb_spec (pathOf x) p) as [Heq|_].
  - exfalso. apply (H x); [left; reflexivity|exact Heq].
  - apply IH. intros y Hy. apply H. right. exact Hy.
Qed.

Lemma callsFor_advance p t s :
  (forall x, In x (armed s) -> pathOf x <> p) ->
  callsFor p (advance t s) = callsFor p s.
Proof.
  intros H. unfold callsFor.
  destruct (advance_fields t s) as (_ & _ & _ & _ & ->).
  rewrite List.filter_app, calls_of_others, app_nil_r; [reflexivity|].
  intros x Hx. apply List.filter_In in Hx as [Hx _]. auto.
Qed.

Lemma Quiet_step p s ev :
  WellFormed s -> Quiet p s -> ~ watchesPath p ev ->
  Quiet p (step s ev) /\ callsFor p (step s ev) = callsFor p s.
Proof.
  intros (Hk & _) [Hw Ha] Hev.
  destruct ev as [project|q|q f|t|i]; simpl in *.
  - unfold watchProject.
    destruct (watchers s !! path (discovered project)); [split; [split|]; auto|].
    split; [split|reflexivity]; simpl; [|exact Ha].
    rewrite lookup_insert_ne by exact Hev. exact Hw.
  - unfold stopWatchingProject.
    destruct (debounceTimers s !! q) as [h|];
      (split; [split|reflexivity]; simpl;
       [apply lookup_delete_None; auto|]); [|exact Ha].
    intros t Hin. apply In_clearTimeout in Hin as [Hin _]. auto.
  - destruct (notify_cases q f s) as [->|(project & Hq & ->)];
      [split; [split|]; auto|].
    assert (Hne : path (discovered project) <> p).
    { rewrite (Hk _ _ Hq). intros ->. congruence. }
    unfold debounceReindex. split; [split|reflexivity]; simpl; [exact Hw|].
    intros t Hin. apply in_app_or in Hin as [Hin|[<-|[]]]; [|exact Hne].
    destruct (debounceTimers s !! path (discovered project)); [|auto].
    apply In_clearTimeout in Hin as [Hin _]. auto.
  - destruct (advance_fields t s) as (Hw' & _ & Ha' & _).
    split; [split|apply callsFor_advance; exact Ha].
    + rewrite Hw'. exact Hw.
    + rewrite Ha'. intros x Hin. apply List.filter_In in Hin as [Hin _]. auto.
  - unfold settle. destruct (inflight s !! i); split; try split; auto.
Qed.

Lemma Quiet_steps p evs :
  forall s,
    WellFormed s -> Quiet p s -> Forall (fun ev => ~ watchesPath p ev) evs ->
    callsFor p (steps s evs) = callsFor p s.
Proof.
  induction evs as [|ev evs IH]; intros s Hwf Hq Hevs; [reflexivity|].
  apply Forall_cons in Hevs as [Hev Hevs].
  destruct (Quiet_step p s ev Hwf Hq Hev) as [Hq' Hcalls].
  simpl. rewrite (IH (step s ev)); auto using WellFormed_step.
Qed.

Lemma Quiet_stop p s : tracked p s -> Quiet p (stopWatchingProject p s).
Proof.
  intros Htracked. unfold stopWatchingProject.
  destruct (debounceTimers s !! p) as [h|] eqn:Hh; split; simpl;
    try apply lookup_delete_eq.
  - intros t Hin Hp. apply In_clearTimeout in Hin as [Hin Hne].
    pose proof (Htracked t Hin Hp). congruence.
  - intros t Hin Hp. pose proof (Htracked t Hin Hp). congruence.
Qed.

Lemma callsFor_stop p q s : callsFor p (stopWatchingProject q s) = callsFor p s.
Proof.
  unfold stopWatchingProject. destruct (debounceTimers s !! q); reflexivity.
Qed.

(** X17.  Unwatching cancels the pending re-index.  In a state the
    watcher has reached, if every armed timer of the project is the one
    [debounceTimers] names, then after [stopWatchingProject] no event makes
    a call of [reindexProject] for that project, until it is watched
    again: its notifications are dropped and no timer of it is left. *)
Theorem X17_unwatch_silences (evs evs' : list Event) (p : string) :
  tracked p (steps init evs) ->
  Forall (fun ev => ~ watchesPath p ev) evs' ->
  callsFor p (steps (stopWatchingProject p (steps init evs)) evs')
  = callsFor p (steps init evs).
Proof.
  intros Htracked Hevs.
  rewrite (Quiet_steps p evs' (stopWatchingProject p (steps init evs))).
  - apply callsFor_stop.
  - apply WellFormed_stop, WellFormed_steps, WellFormed_init.
  - apply Quiet_stop, Htracked.
  - exact Hevs.
Qed.

Lemma X17_witness :
  callsFor "/w/svc"
    (steps (stopWatchingProject "/w/svc"
              (steps init [Watch svc; Notify "/w/svc" (Some "main.go")]))
       [Advance 3000; Notify "/w/svc" (Some "util.go"); Advance 20000])
  = [].
Proof.
  apply (X17_unwatch_silences [Watch svc; Notify "/w/svc" (Some "main.go")]
           [Advance 3000; Notify "/w/svc" (Some "util.go"); Advance 20000]
           "/w/svc").
  - intros t Hin _. vm_compute in Hin. destruct Hin as [<-|[]]. reflexivity.
  - repeat constructor; simpl; tauto.
Defined.

(** X18.  Unwatching does not cancel a timer that [debounceTimers] has
    forgotten.  When an armed timer of a project is not the one the map
    names (the [finally] of an earlier re-index deleted the entry, or a
    later timer replaced it), [stopWatchingProject] leaves it armed, and
    once it is due [reindexProject] is called for the project although it
    is no longer watched. *)
Theorem X18_forgotten_timer_survives_unwatch (s : State) (t : Timer) (T : Z) :
  In t (armed s) ->
  debounceTimers s !! pathOf t <> Some (handle t) ->
  due t <= T ->
  let s' := advance T (stopWatchingProject (pathOf t) s) in
  watchers s' !! pathOf t = None /\
  In (pathOf t, Z.max T (clock s)) (callsFor (pathOf t) s').
Proof.
  intros Hin Hforgot Hdue. cbv zeta.
  set (s0 := stopWatchingProject (pathOf t) s).
  assert (Hfields : watchers s0 !! pathOf t = None /\ In t (armed s0) /\
                    clock s0 = clock s).
  { unfold s0, stopWatchingProject.
    destruct (debounceTimers s !! pathOf t) as [h|] eqn:Hh; simpl;
      (split; [apply lookup_delete_eq|]); split; try reflexivity; [|exact Hin].
    apply In_clearTimeout. split; [exact Hin|]. congruence. }
  destruct Hfields as (Hw0 & Hin0 & Hc0).
  destruct (advance_fields T s0) as (Hw' & _ & _ & _ & Hcalls').
  split; [rewrite Hw'; exact Hw0|].
  unfold callsFor. apply List.filter_In. split.
  - rewrite Hcalls'. apply in_or_app. right. rewrite Hc0.
    apply (in_map (fun x => (pathOf x, Z.max T (clock s)))).
    apply List.filter_In. split; [exact Hin0|]. apply Z.leb_le. lia.
  - apply String.eqb_refl.
Qed.

Lemma X18_witness :
  let s := steps watching
             [ Notify "/w/svc" (Some "main.go"); Advance 5000;
               Advance 6000; Notify "/w/svc" (Some "main.go");
               Advance 10000; Settle 0 ] in
  watchers (advance 11000 (stopWatchingProject "/w/svc" s)) !! "/w/svc" = None /\
  In ("/w/svc", 11000)
     (callsFor "/w/svc" (advance 11000 (stopWatchingProject "/w/svc" s))).
Proof.
  intros s.
  apply (X18_forgotten_timer_survives_unwatch s (mkTimer 1 11000 svc) 11000).
  - vm_compute. left. reflexivity.
  - vm_compute. discriminate.
  - simpl. lia.
Defined.

(** *** Projects side by side *)

Lemma pending_clearTimeout p h (l : list Timer) :
  (forall t, In t l -> handle t = h -> pathOf t <> p) ->
  List.filter (fun t => String.eqb (pathOf t) p) (clearTimeout h l)
  = List.filter (fun t => String.eqb (pathOf t) p) l.
Proof.
  induction l as [|t l IH]; intros H; [reflexivity|]. simpl.
  assert (IH' := IH (fun x Hx => H x (or_intror Hx))).
  destruct (Nat.eqb_spec (handle t) h) as [Hh|_]; simpl.
  - destruct (String.eqb_spec (pathOf t) p) as [Hp|_]; [|exact IH'].
    exfalso. apply (H t); [left; reflexivity|exact Hh|exact Hp].
  - fold (clearTimeout h l). rewrite IH'. reflexivity.
Qed.

(** X19.  Two projects do not disturb one another.  In a state the
    watcher has reached, a notification for the project at [q], watching
    it or unwatching it, leaves the watcher, the entry in [debounceTimers],
    the armed timers and the calls of every other project as they are:
    the timer it clears is never one of another project. *)
Theorem X19_projects_do_not_interfere
    (evs : list Event) (p q : string) (ev : Event) :
  p <> q ->
  about q ev ->
  let s := steps init evs in
  watchers (step s ev) !! p = watchers s !! p /\
  debounceTimers (step s ev) !! p = debounceTimers s !! p /\
  pendingFor p (step s ev) = pendingFor p s /\
  callsFor p (step s ev) = callsFor p s.
Proof.
  intros Hpq Hev s.
  assert (Hwf : WellFormed s) by apply WellFormed_steps, WellFormed_init.
  destruct Hwf as (Hk & _ & _ & Ht & _).
  destruct ev as [project|q'|q' f|t|i]; simpl in Hev; try contradiction.
  - simpl. unfold watchProject. rewrite Hev.
    destruct (watchers s !! q); [auto|]. simpl.
    rewrite lookup_insert_ne by congruence. auto.
  - subst q'. simpl. unfold stopWatchingProject, pendingFor.
    destruct (debounceTimers s !! q) as [h|] eqn:Hh; simpl;
      rewrite ?lookup_delete_ne by congruence;
      (split; [reflexivity|]); (split; [reflexivity|]);
      (split; [|reflexivity]); [|reflexivity].
    apply pending_clearTimeout. intros x Hx Hhx Hp.
    pose proof (Ht q h x Hh Hx Hhx). congruence.
  - subst q'. simpl.
    destruct (notify_cases q f s) as [->|(project & Hq & ->)]; [auto|].
    pose proof (Hk _ _ Hq) as Hpath.
    unfold debounceReindex, pendingFor. rewrite Hpath. simpl.
    rewrite lookup_insert_ne by congruence.
    split; [reflexivity|]. split; [reflexivity|]. split; [|reflexivity].
    rewrite List.filter_app. simpl. unfold pathOf at 2. simpl. rewrite Hpath.
    destruct (String.eqb_spec q p) as [Heq|_]; [congruence|].
    rewrite app_nil_r.
    destruct (debounceTimers s !! q) as [h|] eqn:Hh; [|reflexivity].
    apply pending_clearTimeout. intros x Hx Hhx Hp.
    pose proof (Ht q h x Hh Hx Hhx). congruence.
Qed.

Lemma X19_witness :
  let s := steps init [Watch svc; Watch web; Notify "/w/svc" (Some "main.go")] in
  pendingFor "/w/svc" (step s (Notify "/w/web" (Some "index.ts")))
  = pendingFor "/w/svc" s.
Proof.
  intros s.
  destruct (X19_projects_do_not_interfere
              [Watch svc; Watch web; Notify "/w/svc" (Some "main.go")]
              "/w/svc" "/w/web" (Notify "/w/web" (Some "index.ts")))
    as (_ & _ & Hpending & _).
  - discriminate.
  - reflexivity.
  - exact Hpending.
Defined.

(** *** All projects at once *)

Lemma stop_keeps_None q p s :
  (watchers s !! p = None -> watchers (stopWatchingProject q s) !! p = None) /\
  (debounceTimers s !! p = None ->
   debounceTimers (stopWatchingProject q s) !! p = None).
Proof.
  unfold stopWatchingProject.
  destruct (debounceTimers s !! q) as [h|] eqn:Hh; simpl; split; intros H;
    try (apply lookup_delete_None; auto); exact H.
Qed.

Lemma stop_clears p s :
  watchers (stopWatchingProject p s) !! p = None /\
  debounceTimers (stopWatchingProject p s) !! p = None.
Proof.
  unfold stopWatchingProject.
  destruct (debounceTimers s !! p) as [h|] eqn:Hh; simpl; split;
    try apply lookup_delete_eq; exact Hh.
Qed.

Lemma stopWatchingAll_None (order : list string) p :
  forall s,
    (watchers s !! p = None -> watchers (stopWatchingAll order s) !! p = None) /\
    (debounceTimers s !! p = None ->
     debounceTimers (stopWatchingAll order s) !! p = None).
Proof.
  induction order as [|q order IH]; intros s; [split; auto|].
  destruct (IH (stopWatchingProject q s)) as [IHw IHd].
  destruct (stop_keeps_None q p s) as [Hw Hd].
  split; intros H; simpl; auto.
Qed.

Lemma stopWatchingAll_clears (order : list string) p :
  forall s,
    In p order ->
    watchers (stopWatchingAll order s) !! p = None /\
    debounceTimers (stopWatchingAll order s) !! p = None.
Proof.
  induction order as [|q order IH]; intros s Hin; [destruct Hin|].
  simpl. destruct Hin as [->|Hin]; [|apply IH; exact Hin].
  destruct (stop_clears p s) as [Hw Hd].
  destruct (stopWatchingAll_None order p (stopWatchingProject p s)) as [Hw' Hd'].
  auto.
Qed.

Lemma stopWatchingAll_calls (order : list string) :
  forall s, reindexCalls (stopWatchingAll order s) = reindexCalls s.
Proof.
  induction order as [|q order IH]; intros s; [reflexivity|].
  simpl. rewrite IH. unfold stopWatchingProject.
  destruct (debounceTimers s !! q); reflexivity.
Qed.

(** X20.  After [stopWatchingAll] in a state the watcher has reached,
    [getStatus] reports no watched project and no pending re-index,
    whatever the order in which the map hands out its keys, and every
    notification that still arrives is dropped. *)
Theorem X20_stopWatchingAll_empties (evs : list Event) (order : list string) :
  (forall p, In p order <-> is_Some (watchers (steps init evs) !! p)) ->
  let s' := stopWatchingAll order (steps init evs) in
  getStatus s' = mkStatus 0 0 /\
  (forall p f, notify p f s' = s') /\
  reindexCalls s' = reindexCalls (steps init evs).
Proof.
  intros Horder s'.
  assert (Hwf : WellFormed (steps init evs))
    by apply WellFormed_steps, WellFormed_init.
  destruct Hwf as (_ & _ & _ & _ & Hsub).
  assert (Hw : forall p, watchers s' !! p = None).
  { intros p. destruct (watchers (steps init evs) !! p) as [project|] eqn:Hp.
    - apply stopWatchingAll_clears, Horder. rewrite Hp. eauto.
    - apply stopWatchingAll_None, Hp. }
  assert (Hd : forall p, debounceTimers s' !! p = None).
  { intros p. destruct (debounceTimers (steps init evs) !! p) as [h|] eqn:Hp.
    - apply stopWatchingAll_clears, Horder, Hsub. rewrite Hp. eauto.
    - apply stopWatchingAll_None, Hp. }
  split; [|split].
  - unfold getStatus.
    apply map_empty in Hw. apply map_empty in Hd. rewrite Hw, Hd.
    rewrite !map_size_empty. reflexivity.
  - intros p f. unfold notify. rewrite Hw. reflexivity.
  - apply stopWatchingAll_calls.
Qed.

Lemma X20_witness :
  getStatus (stopWatchingAll ["/w/web"; "/w/svc"]
               (steps init [Watch svc; Watch web;
                            Notify "/w/svc" (Some "main.go")]))
  = mkStatus 0 0.
Proof.
  apply (X20_stopWatchingAll_empties
           [Watch svc; Watch web; Notify "/w/svc" (Some "main.go")]
           ["/w/web"; "/w/svc"]).
  intros p. split.
  - intros [<-|[<-|[]]]; vm_compute; eauto.
  - intros Hp. destruct (String.eqb_spec p "/w/svc") as [->|Hsvc]; [simpl; auto|].
    destruct (String.eqb_spec p "/w/web") as [->|Hweb]; [simpl; auto|].
    exfalso.
    assert (Hw : watchers (steps init [Watch svc; Watch web;
                                       Notify "/w/svc" (Some "main.go")])
                 = <["/w/web" := web]> (<["/w/svc" := svc]> ∅))
      by (vm_compute; reflexivity).
    rewrite Hw in Hp.
    rewrite !lookup_insert_ne, lookup_empty in Hp by congruence.
    destruct Hp as [x Hx]. discriminate.
Defined.

End WatcherMore.

(** ** The tools: discovery and the watchers *)

Module ProjectsMore.
Import Scanner Json Metadata Host Async Registry FileWatcher WatchAll Tools.
Import AsyncTerms AsyncFacts RegistryTerms JsMapFacts RegistryFacts.

















End ProjectsMore.
